(** * Interview backend: session orchestrator, lifecycle policy, sentiment
      labels and the HTTP routes

    A shallow embedding of
      - [src/services/socketService.js]  (the per-connection handlers and
        the methods they call),
      - the speech-to-text service       ([transcribeAudio],
        [validateAudioFormat]),
      - [src/services/sentimentAnalysisService.js] ([getSentimentLabel],
        the sentiment part of [analyzeSentiment]),
      - the interview routes             ([POST /start],
        [GET /:interviewId], [POST /:interviewId/end]),
      - the DAF routes                   ([POST /submit],
        [DELETE /delete]).

    The results of the calls a handler awaits (speech recognition,
    language analysis, question generation, speech synthesis, database
    failures, clock readings) are supplied by an environment record, so
    that every outcome of every awaited call, including a thrown error, is a
    possible input.

    The socket handlers are embedded twice.  In [SocketService] a handler
    runs to its end before the next event is handled.  In [Async] a handler
    is suspended at every [await] of the source, and other events are
    handled, and other handlers resumed, before it goes on; a handler of
    [SocketService] is the handler of [Async] resumed at once at every
    [await] (lemma [start_refines]). *)

From Stdlib Require Import ZArith QArith List String Ascii Bool Lia.
From stdpp Require Import gmap strings list fin_maps pretty.

Local Open Scope Z_scope.

(** ** JavaScript strings and numbers *)

Module Js.

(** A JavaScript string is a sequence of UTF-16 code units. *)
Abbreviation jsstring := (list N).

Definition str (s : string) : jsstring :=
  map N_of_ascii (list_ascii_of_string s).

(** ECMAScript WhiteSpace and LineTerminator code points, the characters
    removed by [String.prototype.trim]. *)
Definition isWhiteSpace (c : N) : bool :=
  ((9 <=? c) && (c <=? 13) || (c =? 32) || (c =? 160) || (c =? 5760)
   || (8192 <=? c) && (c <=? 8202) || (c =? 8232) || (c =? 8233)
   || (c =? 8239) || (c =? 8287) || (c =? 12288) || (c =? 65279))%N.

Fixpoint trimStart (s : jsstring) : jsstring :=
  match s with
  | c :: s' => if isWhiteSpace c then trimStart s' else s
  | [] => []
  end.

Definition trimEnd (s : jsstring) : jsstring := rev (trimStart (rev s)).

Definition trim (s : jsstring) : jsstring := trimEnd (trimStart s).

(** [Array.prototype.join] on strings. *)
Fixpoint join (sep : jsstring) (parts : list jsstring) : jsstring :=
  match parts with
  | [] => []
  | [p] => p
  | p :: rest => p ++ sep ++ join sep rest
  end.

(** A JavaScript number: a finite value (every finite double is a
    rational), an infinity, or NaN. *)
Inductive number : Type :=
| Fin (q : Q)
| PosInf
| NegInf
| NaN.

(** [x >= c] and [x <= c] against a finite constant [c]. *)
Definition ge (x : number) (c : Q) : bool :=
  match x with
  | Fin q => Qle_bool c q
  | PosInf => true
  | NegInf | NaN => false
  end.

Definition le (x : number) (c : Q) : bool :=
  match x with
  | Fin q => Qle_bool q c
  | NegInf => true
  | PosInf | NaN => false
  end.

(** [Math.round (n / d)] for an integer [n] and a positive integer [d]:
    the nearest integer, halves rounded towards plus infinity. *)
Definition roundDiv (n d : Z) : Z := (2 * n + d) / (2 * d).

(** A thrown value: an [Error] with its message. *)
Inductive Error : Type :=
| Err (message : string)
| TypeError (message : string).

(** The completion of an awaited call. *)
Inductive outcome (A : Type) : Type :=
| Returns (a : A)
| Throws (e : Error).
Arguments Returns {A} a.
Arguments Throws {A} e.

End Js.
Import Js.

(** ** Sentiment analysis service *)

Module SentimentAnalysisService.

Inductive Label : Type := positive | negative | neutral.

(** [getSentimentLabel(score)] *)
Definition getSentimentLabel (score : number) : Label :=
  if ge score (1 # 4) then positive
  else if le score (-1 # 4) then negative
  else neutral.

(** The [documentSentiment] returned by the language client. *)
Record DocumentSentiment : Type := {
  ds_score : number;
  ds_magnitude : number
}.

(** The [sentiment] part of the analysis object.  The other parts
    (emotions, communication, entities, confidence, quality) are derived
    values that no handler inspects; they are not represented. *)
Record Sentiment : Type := {
  score : number;
  magnitude : number;
  label : Label
}.

Record Analysis : Type := { sentiment : Sentiment }.

(** The three calls of the language client, each of which may throw. *)
Record LanguageClient : Type := {
  client_analyzeSentiment : jsstring -> outcome DocumentSentiment;
  client_analyzeEntities : jsstring -> outcome unit;
  client_analyzeSyntax : jsstring -> outcome unit
}.

(** [analyzeSentiment(text)]: every error raised in the body is caught
    and replaced by ['Failed to analyze sentiment']. *)
Definition analyzeSentiment (client : LanguageClient) (text : jsstring)
  : outcome Analysis :=
  let failed := Throws (Err "Failed to analyze sentiment") in
  if (length (trim text) =? 0)%nat then failed
  else
    match client_analyzeSentiment client text with
    | Throws _ => failed
    | Returns sentimentResult =>
      match client_analyzeEntities client text with
      | Throws _ => failed
      | Returns _ =>
        match client_analyzeSyntax client text with
        | Throws _ => failed
        | Returns _ =>
          Returns {| sentiment :=
            {| score := ds_score sentimentResult;
               magnitude := ds_magnitude sentimentResult;
               label := getSentimentLabel (ds_score sentimentResult) |} |}
        end
      end
    end.

End SentimentAnalysisService.

(** ** Speech-to-text service *)

Module SpeechToTextService.

(** What the speech client's [recognize] answers. *)
Record WordInfo : Type := {
  wi_word : jsstring;
  wi_startTime : option (Z * Z);   (* seconds, nanos *)
  wi_endTime : option (Z * Z);
  wi_confidence : option Q
}.

Record Alternative : Type := {
  transcript : jsstring;
  alt_confidence : Q;
  alt_words : option (list WordInfo)
}.

Record SpeechResult : Type := { alternatives : list Alternative }.

Record RecognizeResponse : Type := { results : option (list SpeechResult) }.

(** A word time of the returned object: the number 0 when the client gave
    none, otherwise the sum of the seconds and of the nanos divided by
    1e9.  The sum is a double; it is kept as its two terms and not
    computed. *)
Inductive WordTime : Type :=
| NoTime
| SecondsAndNanos (seconds nanos : Z).

(** The word-level details of the returned object. *)
Record WordDetail : Type := {
  word : jsstring;
  startTime : WordTime;
  endTime : WordTime;
  wd_confidence : Q
}.

(** The object returned on success. *)
Record Transcript : Type := {
  transcription : jsstring;
  confidence : Q;
  words : list WordDetail;
  languageCode : string
}.

Definition wordTime (t : option (Z * Z)) : WordTime :=
  match t with
  | Some (seconds, nanos) => SecondsAndNanos seconds nanos
  | None => NoTime
  end.

Definition wordDetail (w : WordInfo) : WordDetail :=
  {| word := wi_word w;
     startTime := wordTime (wi_startTime w);
     endTime := wordTime (wi_endTime w);
     wd_confidence := default 0%Q (wi_confidence w) |}.

(** [result.alternatives[0]] for every result; reading a field of the
    missing first alternative is a TypeError. *)
Fixpoint firstAlternatives (rs : list SpeechResult) : option (list Alternative) :=
  match rs with
  | [] => Some []
  | r :: rs' =>
    match alternatives r, firstAlternatives rs' with
    | a :: _, Some l => Some (a :: l)
    | _, _ => None
    end
  end.

(** [transcribeAudio(audioBuffer)] with the default options.  [recognize]
    is the speech client's call on the request built from the audio;
    [audioBuffer] is [None] when the caller passed [undefined], on which
    [Buffer.from] throws.  It returns [null] ([None]) when there are no
    results, an object otherwise; every error raised in the body is caught
    and replaced by ['Failed to transcribe audio']. *)
Definition transcribeAudio
    (recognize : jsstring -> outcome RecognizeResponse)
    (audioBuffer : option jsstring) : outcome (option Transcript) :=
  let failed := Throws (Err "Failed to transcribe audio") in
  match audioBuffer with
  | None => failed
  | Some audioBytes =>
    match recognize audioBytes with
    | Throws _ => failed
    | Returns response =>
      match results response with
      | None | Some [] => Returns None
      | Some (r0 :: rest) =>
        match firstAlternatives (r0 :: rest) with
        | None => failed
        | Some alts =>
          Returns (Some
            {| transcription := trim (join (str " ") (map transcript alts));
               confidence := default 0%Q (alt_confidence <$> head alts);
               words := map wordDetail
                          (concat (map (fun a => default [] (alt_words a)) alts));
               languageCode := "en-IN" |})
        end
      end
    end
  end.

(** The object returned by [validateAudioFormat]. *)
Record FormatCheck : Type := {
  fc_valid : bool;
  fc_error : option string
}.

(** [validateAudioFormat(audioBuffer)]; [None] is a missing ([null] or
    [undefined]) buffer, the length is that of the buffer. *)
Definition validateAudioFormat (audioBuffer : option (list N)) : FormatCheck :=
  match audioBuffer with
  | None => {| fc_valid := false; fc_error := Some "Empty audio buffer"%string |}
  | Some b =>
    let n := Z.of_nat (length b) in
    if n =? 0
    then {| fc_valid := false; fc_error := Some "Empty audio buffer"%string |}
    else if n <? 1024
    then {| fc_valid := false; fc_error := Some "Audio too short"%string |}
    else if 10 * 1024 * 1024 <? n
    then {| fc_valid := false; fc_error := Some "Audio file too large"%string |}
    else {| fc_valid := true; fc_error := None |}
  end.

End SpeechToTextService.

(** ** Persisted documents *)

Module Model.

(** Modelled from the spec: the question generation service and the
    Interview model are not part of the sources; a question is
    [{ id, text, askedAt, questionNumber }]. *)
Record Question : Type := {
  q_id : string;
  q_text : jsstring;
  q_askedAt : Z;
  q_questionNumber : Z
}.

(** The response object built by the [audio_response] handler. *)
Record Response : Type := {
  r_questionId : option string;
  r_transcription : jsstring;
  r_sentiment : SentimentAnalysisService.Analysis;
  r_timestamp : Z;
  r_responseTime : Z
}.

Record Panelist : Type := {
  p_name : string;
  p_role : string;
  p_expertise : list string
}.

Inductive Status : Type := in_progress | completed.

(** Modelled from the spec: the Interview model file is not part of the
    sources; the fields are those the handlers and routes read and write.
    Dates are milliseconds since the epoch, [duration] is in minutes. *)
Record Interview : Type := {
  _id : string;
  userId : string;
  dafId : string;
  type : string;
  duration : Z;
  difficulty : string;
  focusAreas : list string;
  status : Status;
  startedAt : Z;
  endedAt : option Z;
  actualDuration : option Z;
  questions : list Question;
  responses : list Response;
  panelists : list Panelist
}.

Definition pushResponse (r : Response) (iv : Interview) : Interview :=
  {| _id := _id iv; userId := userId iv; dafId := dafId iv; type := type iv;
     duration := duration iv; difficulty := difficulty iv;
     focusAreas := focusAreas iv; status := status iv;
     startedAt := startedAt iv; endedAt := endedAt iv;
     actualDuration := actualDuration iv; questions := questions iv;
     responses := responses iv ++ [r]; panelists := panelists iv |}.

Definition pushQuestion (q : Question) (iv : Interview) : Interview :=
  {| _id := _id iv; userId := userId iv; dafId := dafId iv; type := type iv;
     duration := duration iv; difficulty := difficulty iv;
     focusAreas := focusAreas iv; status := status iv;
     startedAt := startedAt iv; endedAt := endedAt iv;
     actualDuration := actualDuration iv; questions := questions iv ++ [q];
     responses := responses iv; panelists := panelists iv |}.

Definition setCompleted (ended : Z) (actual : Z) (iv : Interview) : Interview :=
  {| _id := _id iv; userId := userId iv; dafId := dafId iv; type := type iv;
     duration := duration iv; difficulty := difficulty iv;
     focusAreas := focusAreas iv; status := completed;
     startedAt := startedAt iv; endedAt := Some ended;
     actualDuration := Some actual; questions := questions iv;
     responses := responses iv; panelists := panelists iv |}.

Global Instance Status_eq_dec : EqDecision Status.
Proof. solve_decision. Defined.

End Model.
Import Model.

(** ** Socket service: state, environment and the handler monad *)

Module SocketService.

Import SentimentAnalysisService.

Abbreviation Buffer := (list N).

Record Socket : Type := {
  socket_id : string;
  socket_userId : string
}.

(** An entry of [this.activeInterviews]. *)
Record Session : Type := {
  interviewId : string;
  session_userId : string;
  interview : Interview;          (* the document as loaded at join time *)
  currentQuestionIndex : Z;
  isProcessing : bool
}.

Definition set_isProcessing (b : bool) (s : Session) : Session :=
  {| interviewId := interviewId s; session_userId := session_userId s;
     interview := interview s;
     currentQuestionIndex := currentQuestionIndex s; isProcessing := b |}.

Definition increment_currentQuestionIndex (s : Session) : Session :=
  {| interviewId := interviewId s; session_userId := session_userId s;
     interview := interview s;
     currentQuestionIndex := currentQuestionIndex s + 1;
     isProcessing := isProcessing s |}.

(** The value the [audio_response] handler receives from
    [speechToTextService.transcribeAudio]. *)
Inductive Transcribed : Type :=
| TNull
| TString (s : jsstring)
| TObject (t : SpeechToTextService.Transcript).

Definition ofTranscript (r : option SpeechToTextService.Transcript) : Transcribed :=
  match r with
  | None => TNull
  | Some t => TObject t
  end.

(** [speechToTextService.transcribeAudio] as the handler imports it: the
    service above, behind a speech client. *)
Definition speechToText
    (recognize : jsstring -> outcome SpeechToTextService.RecognizeResponse)
    (audio : option jsstring) : outcome Transcribed :=
  match SpeechToTextService.transcribeAudio recognize audio with
  | Returns r => Returns (ofTranscript r)
  | Throws e => Throws e
  end.

(** Payload of the [audio_response] event. *)
Record AudioData : Type := {
  audioData : option jsstring;
  questionId : option string;
  responseTime : option Z
}.

Inductive ProcessingStatus : Type := transcribing | analyzing | generating_question.

(** Events sent to a connection.  Audio is carried as the buffer itself;
    its base64 text is not computed. *)
Inductive OutEvent : Type :=
| error (message : string)
| interview_state (currentQuestion : option Question)
    (questionNumber totalQuestions timeElapsed : Z)
| first_question (question : Question) (questionNumber : Z)
    (audioBuffer : Buffer) (panelists : list Panelist)
| processing_response (status : ProcessingStatus) (transcription : option jsstring)
| next_question (question : Question) (questionNumber : Z)
    (audioBuffer : Buffer) (previousTranscription : jsstring)
    (previousSentiment : Analysis)
| interview_ended (interviewId : string) (totalQuestions duration : Z)
| user_typing (userId : string) (isTyping : bool).

(** Argument of [questionGenerationService.generateFollowUpQuestion]. *)
Record FollowUp : Type := {
  fu_daf : string;
  fu_previousQuestions : list Question;
  fu_previousResponse : jsstring;
  fu_sentimentAnalysis : Analysis;
  fu_type : string;
  fu_difficulty : string;
  fu_focusAreas : list string;
  fu_currentQuestionNumber : Z
}.

(** The database calls and the [new Date()] readings of the handlers. *)
Inductive DbCall : Type := FindOne | PushResponse | PushQuestion | UpdateCompleted.

Inductive DateCall : Type :=
| StateTimeElapsed | ResponseTimestamp | PolicyTimeElapsed
| EndedAt | ActualDuration | EndedDuration.

(** What one handler run gets from the outside: the results of the services
    it awaits, which database calls fail, and the clock. A follow-up
    question of [None] is a falsy result; a synthesized buffer of [None] is
    a missing [audioContent]. *)
Record Env : Type := {
  transcribeAudio : option jsstring -> outcome Transcribed;
  analyzeSentiment : jsstring -> outcome Analysis;
  generateFirstQuestion : string -> outcome Question;
  generateFollowUpQuestion : FollowUp -> outcome (option Question);
  synthesizeSpeech : jsstring -> outcome (option Buffer);
  dbThrows : DbCall -> bool;
  newDate : DateCall -> Z
}.

(** The state the handlers act on.  Session objects live in a store and
    [activeInterviews] maps a socket id to a reference, so that a handler
    holding [session] still writes to the object after the entry has been
    deleted from the map. *)
Record World : Type := {
  interviews : gmap string Interview;
  sessions : gmap nat Session;
  activeInterviews : gmap string nat;
  rooms : gmap string (gset string);
  emitted : list (string * OutEvent)
}.

Definition with_interviews (f : gmap string Interview -> gmap string Interview)
    (w : World) : World :=
  {| interviews := f (interviews w); sessions := sessions w;
     activeInterviews := activeInterviews w; rooms := rooms w;
     emitted := emitted w |}.

Definition with_sessions (f : gmap nat Session -> gmap nat Session)
    (w : World) : World :=
  {| interviews := interviews w; sessions := f (sessions w);
     activeInterviews := activeInterviews w; rooms := rooms w;
     emitted := emitted w |}.

Definition with_activeInterviews (f : gmap string nat -> gmap string nat)
    (w : World) : World :=
  {| interviews := interviews w; sessions := sessions w;
     activeInterviews := f (activeInterviews w); rooms := rooms w;
     emitted := emitted w |}.

Definition with_rooms (f : gmap string (gset string) -> gmap string (gset string))
    (w : World) : World :=
  {| interviews := interviews w; sessions := sessions w;
     activeInterviews := activeInterviews w; rooms := f (rooms w);
     emitted := emitted w |}.

Definition with_emitted (f : list (string * OutEvent) -> list (string * OutEvent))
    (w : World) : World :=
  {| interviews := interviews w; sessions := sessions w;
     activeInterviews := activeInterviews w; rooms := rooms w;
     emitted := f (emitted w) |}.

(** *** The monad of handler bodies: state and exceptions *)

Definition M (A : Type) : Type := World -> outcome A * World.

Definition ret {A} (a : A) : M A := fun w => (Returns a, w).

Definition bind {A B} (m : M A) (k : A -> M B) : M B :=
  fun w =>
    match m w with
    | (Returns a, w') => k a w'
    | (Throws e, w') => (Throws e, w')
    end.

Definition throw {A} (e : Error) : M A := fun w => (Throws e, w).

(** [try { body } catch (error) { handler }] *)
Definition tryCatch {A} (body : M A) (handler : Error -> M A) : M A :=
  fun w =>
    match body w with
    | (Returns a, w') => (Returns a, w')
    | (Throws e, w') => handler e w'
    end.

(** [await] of a call whose completion the environment supplies.  Nothing
    else runs before the handler goes on; the [await] of [Async] is the
    suspension point. *)
Definition await {A} (o : outcome A) : M A := fun w => (o, w).

Definition gets {A} (f : World -> A) : M A := fun w => (Returns (f w), w).

Definition modify (f : World -> World) : M unit := fun w => (Returns tt, f w).

Declare Scope handler_scope.
Delimit Scope handler_scope with handler.
Notation "x <- m ;; k" := (bind m (fun x => k))
  (at level 100, m at next level, k at level 200, right associativity)
  : handler_scope.
Notation "m ;; k" := (bind m (fun _ => k))
  (at level 100, k at level 200, right associativity) : handler_scope.
Local Open Scope handler_scope.

(** The world after a handler has run (handlers catch their errors; the
    completion is dropped). *)
Definition exec {A} (m : M A) (w : World) : World := snd (m w).

(** *** Primitive effects *)

(** [socket.emit(event, payload)] *)
Definition emit (socket : Socket) (ev : OutEvent) : M unit :=
  modify (with_emitted (fun log => log ++ [(socket_id socket, ev)])).

Definition roomOf (interviewId : string) : string :=
  String.append "interview_" interviewId.

(** [socket.join(room)] and [socket.leave(room)] *)
Definition socket_join (socket : Socket) (room : string) : M unit :=
  modify (with_rooms (fun rs =>
    <[room := {[socket_id socket]} ∪ default ∅ (rs !! room)]> rs)).

Definition socket_leave (socket : Socket) (room : string) : M unit :=
  modify (with_rooms (alter (fun members => members ∖ {[socket_id socket]}) room)).

(** [socket.to(room).emit(event, payload)]: to every member of the room
    but the sender. *)
Definition socket_to_emit (socket : Socket) (room : string) (ev : OutEvent) : M unit :=
  modify (fun w =>
    let others := elements (default ∅ (rooms w !! room) ∖ {[socket_id socket]}) in
    with_emitted (fun log => log ++ map (fun sid => (sid, ev)) others) w).

(** [this.activeInterviews.get(socket.id)] *)
Definition activeInterviews_get (socket : Socket) : M (option nat) :=
  gets (fun w => activeInterviews w !! socket_id socket).

(** [this.activeInterviews.set(socket.id, { ... })]: a new object. *)
Definition activeInterviews_set (socket : Socket) (s : Session) : M unit :=
  modify (fun w =>
    let ref := fresh (dom (sessions w)) in
    with_activeInterviews (insert (socket_id socket) ref)
      (with_sessions (insert ref s) w)).

(** [this.activeInterviews.delete(socket.id)] *)
Definition activeInterviews_delete (socket : Socket) : M unit :=
  modify (with_activeInterviews (delete (socket_id socket))).

(** Reading the fields of the object behind [session]. *)
Definition deref (ref : nat) : M Session :=
  fun w =>
    match sessions w !! ref with
    | Some s => (Returns s, w)
    | None => (Throws (TypeError "Cannot read properties of undefined"), w)
    end.

(** [session.isProcessing = b] and [session.currentQuestionIndex++] *)
Definition assign_isProcessing (ref : nat) (b : bool) : M unit :=
  modify (with_sessions (alter (set_isProcessing b) ref)).

Definition incr_currentQuestionIndex (ref : nat) : M unit :=
  modify (with_sessions (alter increment_currentQuestionIndex ref)).

(** [const { ... } = data]: a TypeError when no payload was sent. *)
Definition destructure {A} (data : option A) : M A :=
  match data with
  | Some d => ret d
  | None => throw (TypeError "Cannot destructure 'data' as it is undefined")
  end.

(** [Interview.findOne({ _id, userId, status: 'in_progress' })] *)
Definition findOne (env : Env) (interviewId user : string) : M (option Interview) :=
  if dbThrows env FindOne then throw (Err "database error")
  else
    gets (fun w =>
      match interviews w !! interviewId with
      | Some iv =>
        if bool_decide (userId iv = user) && bool_decide (status iv = in_progress)
        then Some iv else None
      | None => None
      end).

(** [Interview.findByIdAndUpdate(id, update)]; nothing happens when no
    document has this id. *)
Definition findByIdAndUpdate (env : Env) (call : DbCall) (id : string)
    (update : Interview -> Interview) : M unit :=
  if dbThrows env call then throw (Err "database error")
  else modify (with_interviews (alter update id)).

(** [audioBuffer.toString('base64')]: a TypeError on a missing buffer. *)
Definition toBase64 (audioBuffer : option Buffer) : M Buffer :=
  match audioBuffer with
  | Some b => ret b
  | None => throw (TypeError "Cannot read properties of undefined (reading 'toString')")
  end.

(** *** Lifecycle policy (the test at the head of [generateNextQuestion]) *)

Definition maxQuestions : Z := 15.

(** [(new Date() - interview.startedAt) / (1000 * 60)], in minutes. *)
Definition timeElapsed (now startedAt : Z) : Q := (now - startedAt) # 60000.

Inductive Decision : Type := Continue | End_.

(** [timeElapsed >= interview.duration ||
     interview.questions.length >= maxQuestions] *)
Definition endCondition (startedAt now duration questionCount : Z) : bool :=
  Qle_bool (inject_Z duration) (timeElapsed now startedAt)
  || (maxQuestions <=? questionCount).

Definition lifecyclePolicy (startedAt now duration questionCount : Z) : Decision :=
  if endCondition startedAt now duration questionCount then End_ else Continue.

(** *** The methods of the service *)

(** [generateNextQuestion(session, previousResponse, sentimentAnalysis)]:
    [None] is the [null] that ends the interview (or a falsy question). *)
Definition generateNextQuestion (env : Env) (session : nat)
    (previousResponse : jsstring) (sentimentAnalysis : Analysis)
  : M (option Question) :=
  tryCatch
    (s <- deref session ;;
     let interview := interview s in
     match lifecyclePolicy (startedAt interview) (newDate env PolicyTimeElapsed)
             (duration interview) (Z.of_nat (length (questions interview))) with
     | End_ => ret None
     | Continue =>
       await (generateFollowUpQuestion env
         {| fu_daf := dafId interview;
            fu_previousQuestions := questions interview;
            fu_previousResponse := previousResponse;
            fu_sentimentAnalysis := sentimentAnalysis;
            fu_type := type interview;
            fu_difficulty := difficulty interview;
            fu_focusAreas := focusAreas interview;
            fu_currentQuestionNumber :=
              Z.of_nat (length (questions interview)) + 1 |})
     end)
    (fun error => throw error).

(** [endInterview(socket, session)] *)
Definition endInterview (env : Env) (socket : Socket) (session : nat) : M unit :=
  tryCatch
    (s <- deref session ;;
     findByIdAndUpdate env UpdateCompleted (interviewId s)
       (setCompleted (newDate env EndedAt)
          (roundDiv (newDate env ActualDuration - startedAt (interview s)) 60000)) ;;
     socket_leave socket (roomOf (interviewId s)) ;;
     activeInterviews_delete socket ;;
     emit socket
       (interview_ended (interviewId s)
          (Z.of_nat (length (questions (interview s))) + currentQuestionIndex s)
          (roundDiv (newDate env EndedDuration - startedAt (interview s)) 60000)))
    (fun error => throw error).

(** [generateAndSendFirstQuestion(socket, interview)] *)
Definition generateAndSendFirstQuestion (env : Env) (socket : Socket)
    (interview : Interview) : M unit :=
  tryCatch
    (firstQuestion <- await (generateFirstQuestion env (dafId interview)) ;;
     audioBuffer <- await (synthesizeSpeech env (q_text firstQuestion)) ;;
     findByIdAndUpdate env PushQuestion (_id interview) (pushQuestion firstQuestion) ;;
     base64 <- toBase64 audioBuffer ;;
     emit socket (first_question firstQuestion 1 base64 (panelists interview)))
    (fun _ => emit socket (error "Failed to generate first question")).

(** *** The handlers registered by [handleConnection] *)

(** [socket.on('join_interview', async (data) => ...)]; the payload is the
    [interviewId], [None] when no payload was sent. *)
Definition join_interview (env : Env) (socket : Socket) (data : option string)
  : M unit :=
  tryCatch
    (interviewId <- destructure data ;;
     found <- findOne env interviewId (socket_userId socket) ;;
     match found with
     | None => emit socket (error "Invalid or inactive interview session")
     | Some interview =>
       socket_join socket (roomOf interviewId) ;;
       activeInterviews_set socket
         {| interviewId := interviewId;
            session_userId := socket_userId socket;
            interview := interview;
            currentQuestionIndex := Z.of_nat (length (questions interview));
            isProcessing := false |} ;;
       if (length (questions interview) =? 0)%nat
       then generateAndSendFirstQuestion env socket interview
       else
         emit socket
           (interview_state (last (questions interview))
              (Z.of_nat (length (questions interview)))
              (Z.of_nat (length (questions interview)))
              (roundDiv (newDate env StateTimeElapsed - startedAt interview) 1000))
     end)
    (fun _ => emit socket (error "Failed to join interview session")).

(** [!transcription || transcription.trim().length === 0]: [None] when the
    test holds, the text when it does not; an object has no [trim]. *)
Definition checkTranscription (transcription : Transcribed) : M (option jsstring) :=
  match transcription with
  | TNull => ret None
  | TString text =>
    if (length (trim text) =? 0)%nat then ret None else ret (Some text)
  | TObject _ => throw (TypeError "transcription.trim is not a function")
  end.

(** [socket.on('audio_response', async (data) => ...)] *)
Definition audio_response (env : Env) (socket : Socket) (data : option AudioData)
  : M unit :=
  let rejected := emit socket (error "Invalid session or already processing") in
  tryCatch
    (found <- activeInterviews_get socket ;;
     match found with
     | None => rejected
     | Some session =>
       s <- deref session ;;
       if isProcessing s then rejected
       else
         assign_isProcessing session true ;;
         d <- destructure data ;;
         emit socket (processing_response transcribing None) ;;
         transcription <- await (transcribeAudio env (audioData d)) ;;
         checked <- checkTranscription transcription ;;
         match checked with
         | None =>
           emit socket (error "Could not transcribe audio. Please try again.") ;;
           assign_isProcessing session false
         | Some text =>
           emit socket (processing_response analyzing (Some text)) ;;
           sentimentAnalysis <- await (analyzeSentiment env text) ;;
           let response :=
             {| r_questionId := questionId d;
                r_transcription := text;
                r_sentiment := sentimentAnalysis;
                r_timestamp := newDate env ResponseTimestamp;
                r_responseTime := default 0 (responseTime d) |} in
           findByIdAndUpdate env PushResponse (interviewId s) (pushResponse response) ;;
           emit socket (processing_response generating_question None) ;;
           nextQuestion <- generateNextQuestion env session text sentimentAnalysis ;;
           match nextQuestion with
           | Some question =>
             audioBuffer <- await (synthesizeSpeech env (q_text question)) ;;
             findByIdAndUpdate env PushQuestion (interviewId s) (pushQuestion question) ;;
             incr_currentQuestionIndex session ;;
             s' <- deref session ;;
             base64 <- toBase64 audioBuffer ;;
             emit socket
               (next_question question (currentQuestionIndex s' + 1) base64
                  text sentimentAnalysis)
           | None => endInterview env socket session
           end ;;
           assign_isProcessing session false
         end
     end)
    (fun _ =>
       emit socket (error "Failed to process response") ;;
       found <- activeInterviews_get socket ;;
       match found with
       | Some session => assign_isProcessing session false
       | None => ret tt
       end).

(** [socket.on('end_interview', async () => ...)] *)
Definition end_interview (env : Env) (socket : Socket) : M unit :=
  tryCatch
    (found <- activeInterviews_get socket ;;
     match found with
     | Some session => endInterview env socket session
     | None => ret tt
     end)
    (fun _ => emit socket (error "Failed to end interview")).

(** What socket.io does when a connection closes, before the handlers of
    [disconnect] run: the socket leaves every room. *)
Definition leaveAll (socket : Socket) : M unit :=
  modify (with_rooms (fmap (fun members => members ∖ {[socket_id socket]}))).

(** [socket.on('disconnect', () => ...)] *)
Definition disconnect (socket : Socket) : M unit :=
  activeInterviews_delete socket.

(** [socket.on('typing', (data) => ...)], the payload being [isTyping]. *)
Definition typing (socket : Socket) (isTyping : bool) : M unit :=
  found <- activeInterviews_get socket ;;
  match found with
  | Some session =>
    s <- deref session ;;
    socket_to_emit socket (roomOf (interviewId s))
      (user_typing (socket_userId socket) isTyping)
  | None => ret tt
  end.

(** *** Inbound events and runs *)

Inductive InEvent : Type :=
| JoinInterview (env : Env) (socket : Socket) (data : option string)
| AudioResponse (env : Env) (socket : Socket) (data : option AudioData)
| EndInterview (env : Env) (socket : Socket)
| Disconnect (socket : Socket)
| Typing (socket : Socket) (isTyping : bool).

Definition handle (ev : InEvent) (w : World) : World :=
  match ev with
  | JoinInterview env socket data => exec (join_interview env socket data) w
  | AudioResponse env socket data => exec (audio_response env socket data) w
  | EndInterview env socket => exec (end_interview env socket) w
  | Disconnect socket => exec (leaveAll socket ;; disconnect socket) w
  | Typing socket isTyping => exec (typing socket isTyping) w
  end.

(** The handlers applied to a sequence of events, oldest first. *)
Definition run (evs : list InEvent) (w : World) : World :=
  fold_left (fun w ev => handle ev w) evs w.

(** [getActiveInterviewCount()] *)
Definition getActiveInterviewCount (w : World) : nat := size (activeInterviews w).

End SocketService.

(** ** Interview routes: [POST /start] *)

Module InterviewRoutes.

(** A request body, as far as [startInterviewSchema] looks at it. *)
Record StartBody : Type := {
  body_type : option string;
  body_duration : option Q;
  body_difficulty : option string;
  body_focusAreas : option (list string)
}.

(** The validated value, defaults filled in. *)
Record StartValue : Type := {
  v_type : string;
  v_duration : Z;
  v_difficulty : string;
  v_focusAreas : list string
}.

Definition oneOf (allowed : list string) (s : string) : bool :=
  bool_decide (s ∈ allowed).

(** A key as Joi's messages show it, between double quotes. *)
Definition quoted (key : string) : string :=
  String "034"%char (String.append key (String "034"%char EmptyString)).

(** [Number.MAX_SAFE_INTEGER] *)
Definition maxSafeInteger : Z := 2 ^ 53 - 1.

(** The index of the first empty string of an array. *)
Fixpoint firstEmpty (items : list string) : option nat :=
  match items with
  | [] => None
  | item :: rest =>
    if bool_decide (item = ""%string) then Some 0%nat
    else S <$> firstEmpty rest
  end.

(** [startInterviewSchema.validate(req.body)]: the message of the first
    failing rule, in the order of the keys and of the rules of a key, or
    the value with the defaults filled in.  A number is first required to
    be a safe number; [Joi.string()] does not allow the empty string, so
    an empty item of [focusAreas] fails.  A body with other keys, or with
    values of other types, is outside [StartBody]. *)
Definition validate (body : StartBody) : string + StartValue :=
  let type_ := default "mock"%string (body_type body) in
  let duration_ := default (30 # 1)%Q (body_duration body) in
  let difficulty_ := default "medium"%string (body_difficulty body) in
  let focusAreas_ := default [] (body_focusAreas body) in
  if negb (oneOf ["mock"; "practice"]%string type_)
  then inl (String.append (quoted "type") " must be one of [mock, practice]")
  else if negb (Qle_bool (inject_Z (- maxSafeInteger)) duration_
                && Qle_bool duration_ (inject_Z maxSafeInteger))
  then inl (String.append (quoted "duration") " must be a safe number")
  else if negb (Z.pos (Qden (Qred duration_)) =? 1)
  then inl (String.append (quoted "duration") " must be an integer")
  else if negb (Qle_bool (15 # 1) duration_)
  then inl (String.append (quoted "duration")
              " must be greater than or equal to 15")
  else if negb (Qle_bool duration_ (60 # 1))
  then inl (String.append (quoted "duration") " must be less than or equal to 60")
  else if negb (oneOf ["easy"; "medium"; "hard"]%string difficulty_)
  then inl (String.append (quoted "difficulty")
              " must be one of [easy, medium, hard]")
  else
    match firstEmpty focusAreas_ with
    | Some i =>
      inl (String.append
             (quoted (String.append "focusAreas["
                        (String.append (pretty i) "]")))
             " is not allowed to be empty")
    | None =>
      inr {| v_type := type_;
             v_duration := Qnum (Qred duration_);
             v_difficulty := difficulty_;
             v_focusAreas := focusAreas_ |}
    end.

Record Daf : Type := { daf_id : string; daf_userId : string }.

(** The two collections the route reads and writes. *)
Record Db : Type := {
  interviews : gmap string Interview;
  dafs : list Daf
}.

(** The in-progress interviews of a user. *)
Definition inProgressOf (user : string) (m : gmap string Interview)
  : gmap string Interview :=
  filter (fun kv => userId kv.2 = user ∧ status kv.2 = in_progress) m.

(** [Interview.findOne({ userId, status: 'in_progress' })] *)
Definition findOngoing (user : string) (m : gmap string Interview)
  : option Interview :=
  snd <$> head (map_to_list (inProgressOf user m)).

(** [DAF.findOne({ userId })] *)
Definition findDaf (user : string) (ds : list Daf) : option Daf :=
  head (filter (fun d => daf_userId d = user) ds).

Inductive DbCall : Type := DafFindOne | InterviewFindOne | InterviewSave.

(** An authenticated request: the user, the body, and what the run gets
    from the outside (the id given to a new document, the clock, which
    database calls fail). *)
Record Request : Type := {
  req_user : string;
  req_body : StartBody;
  newObjectId : string;
  newDate : Z;
  dbThrows : DbCall -> bool
}.

Inductive Payload : Type :=
| NoData
| Errors (errors : list string)
| OngoingData (interviewId : string) (startedAt : Z)
| StartedData (interviewId sessionToken : string) (startedAt duration : Z)
    (panelists : list Panelist).

Record Reply : Type := {
  statusCode : Z;
  success : bool;
  message : string;
  data : Payload
}.

Definition defaultPanelists : list Panelist :=
  [ {| p_name := "Dr. Rajesh Kumar"; p_role := "Chairman";
       p_expertise := ["Public Administration"; "Ethics"]%string |};
    {| p_name := "Ms. Priya Sharma"; p_role := "Member";
       p_expertise := ["Current Affairs"; "Social Issues"]%string |};
    {| p_name := "Mr. Amit Singh"; p_role := "Member";
       p_expertise := ["Economics"; "Policy Analysis"]%string |} ].

Definition internalError : Reply :=
  {| statusCode := 500; success := false;
     message := "Internal server error"; data := NoData |}.

(** [router.post('/start', auth, async (req, res) => ...)]: the reply and
    the database afterwards.  Saving a document whose id is taken fails
    like any other database error. *)
Definition start (req : Request) (db : Db) : Reply * Db :=
  match validate (req_body req) with
  | inl e =>
    ({| statusCode := 400; success := false; message := "Validation error";
        data := Errors [e] |}, db)
  | inr value =>
    if dbThrows req DafFindOne then (internalError, db)
    else
      match findDaf (req_user req) (dafs db) with
      | None =>
        ({| statusCode := 400; success := false;
            message := "Please submit your DAF before starting an interview";
            data := NoData |}, db)
      | Some daf =>
        if dbThrows req InterviewFindOne then (internalError, db)
        else
          match findOngoing (req_user req) (interviews db) with
          | Some ongoingInterview =>
            ({| statusCode := 400; success := false;
                message := "You have an ongoing interview. Please complete it first.";
                data := OngoingData (_id ongoingInterview)
                                    (startedAt ongoingInterview) |}, db)
          | None =>
            let interview :=
              {| _id := newObjectId req;
                 userId := req_user req;
                 dafId := daf_id daf;
                 type := v_type value;
                 duration := v_duration value;
                 difficulty := v_difficulty value;
                 focusAreas := v_focusAreas value;
                 status := in_progress;
                 startedAt := newDate req;
                 endedAt := None;
                 actualDuration := None;
                 questions := [];
                 responses := [];
                 panelists := defaultPanelists |} in
            if dbThrows req InterviewSave
               || bool_decide (is_Some (interviews db !! newObjectId req))
            then (internalError, db)
            else
              ({| statusCode := 201; success := true;
                  message := "Interview session started successfully";
                  data := StartedData (_id interview) (_id interview)
                            (startedAt interview) (duration interview)
                            (panelists interview) |},
               {| interviews := <[newObjectId req := interview]> (interviews db);
                  dafs := dafs db |})
          end
      end
  end.

(** *** [GET /:interviewId] and [POST /:interviewId/end] *)

Inductive IdDbCall : Type := FindById | SaveEnded.

(** An authenticated request that names an interview. *)
Record IdRequest : Type := {
  idreq_user : string;
  idreq_interviewId : string;
  idreq_newDate : Z;
  idreq_dbThrows : IdDbCall -> bool
}.

Inductive IdPayload : Type :=
| NoDetail
| InterviewData (interview : Interview)
| EndedData (interviewId : string) (endedAt actualDuration : Z)
    (totalQuestions totalResponses : nat).

Record IdReply : Type := {
  id_statusCode : Z;
  id_success : bool;
  id_message : option string;
  id_data : IdPayload
}.

Definition idInternalError : IdReply :=
  {| id_statusCode := 500; id_success := false;
     id_message := Some "Internal server error"%string; id_data := NoDetail |}.

Definition idNotFound (message : string) : IdReply :=
  {| id_statusCode := 404; id_success := false;
     id_message := Some message; id_data := NoDetail |}.

(** [router.get('/:interviewId', auth, ...)]; the populated DAF fields of
    the reply are not represented. *)
Definition getById (req : IdRequest) (db : Db) : IdReply :=
  if idreq_dbThrows req FindById then idInternalError
  else
    match interviews db !! idreq_interviewId req with
    | Some interview =>
      if bool_decide (userId interview = idreq_user req)
      then {| id_statusCode := 200; id_success := true; id_message := None;
              id_data := InterviewData interview |}
      else idNotFound "Interview not found"
    | None => idNotFound "Interview not found"
    end.

(** [router.post('/:interviewId/end', auth, ...)]: the reply and the
    database afterwards. *)
Definition endById (req : IdRequest) (db : Db) : IdReply * Db :=
  if idreq_dbThrows req FindById then (idInternalError, db)
  else
    match interviews db !! idreq_interviewId req with
    | Some interview =>
      if bool_decide (userId interview = idreq_user req)
         && bool_decide (status interview = in_progress)
      then
        let endedAt_ := idreq_newDate req in
        let actualDuration_ := roundDiv (endedAt_ - startedAt interview) 60000 in
        let ended := setCompleted endedAt_ actualDuration_ interview in
        if idreq_dbThrows req SaveEnded then (idInternalError, db)
        else
          ({| id_statusCode := 200; id_success := true;
              id_message := Some "Interview session ended successfully"%string;
              id_data := EndedData (_id ended) endedAt_ actualDuration_
                           (length (questions ended)) (length (responses ended)) |},
           {| interviews := <[idreq_interviewId req := ended]> (interviews db);
              dafs := dafs db |})
      else (idNotFound "Active interview session not found", db)
    | None => (idNotFound "Active interview session not found", db)
    end.

End InterviewRoutes.

(** ** DAF routes: [POST /submit] and [DELETE /delete] *)

Module DafRoutes.

Import InterviewRoutes.

Inductive DafDbCall : Type := DafFind | DafSave | DafFindOneAndDelete.

(** An authenticated request to the DAF routes.  [dafreq_error] is what
    [dafSchema.validate(req.body)] reports for the body, [None] when the
    body is valid; the fields of the form and [submittedAt] are not
    represented. *)
Record DafRequest : Type := {
  dafreq_user : string;
  dafreq_error : option string;
  dafreq_newObjectId : string;
  dafreq_dbThrows : DafDbCall -> bool
}.

Inductive DafPayload : Type :=
| NoDafData
| DafErrors (errors : list string)
| SubmittedData (dafId : string).

Record DafReply : Type := {
  daf_statusCode : Z;
  daf_success : bool;
  daf_message : string;
  daf_data : DafPayload
}.

Definition dafInternalError : DafReply :=
  {| daf_statusCode := 500; daf_success := false;
     daf_message := "Internal server error"; daf_data := NoDafData |}.


(** [DAF.findOneAndDelete({ userId })] on the collection: the first
    document of the user is removed. *)
Fixpoint removeFirst (user : string) (ds : list Daf) : list Daf :=
  match ds with
  | [] => []
  | d :: ds' =>
    if bool_decide (daf_userId d = user) then ds' else d :: removeFirst user ds'
  end.

(** [router.delete('/delete', auth, ...)] *)
Definition delete_ (req : DafRequest) (db : Db) : DafReply * Db :=
  if dafreq_dbThrows req DafFindOneAndDelete then (dafInternalError, db)
  else
    match findDaf (dafreq_user req) (dafs db) with
    | None =>
      ({| daf_statusCode := 404; daf_success := false;
          daf_message := "DAF not found"; daf_data := NoDafData |}, db)
    | Some _ =>
      ({| daf_statusCode := 200; daf_success := true;
          daf_message := "DAF deleted successfully"; daf_data := NoDafData |},
       {| interviews := interviews db;
          dafs := removeFirst (dafreq_user req) (dafs db) |})
    end.

End DafRoutes.

(** ** Socket service: handlers that can be suspended

    The handlers of [socketService.js] are [async] functions.  A handler
    runs without interruption up to its next [await]; there it is
    suspended, the event loop handles other events and resumes other
    handlers, and the handler goes on later, in the world they have left.
    The bodies below are those of [SocketService], with a suspension point
    at every [await] of the source and nowhere else.

    A schedule may run other handlers at every [await], also where the
    awaited promise is already settled and the runtime would go on with the
    handler before it takes the next event: the schedules of the runtime
    are among the schedules of the model.  The schedules of the examples
    deliver events only while a call of a service or of the database is
    pending. *)

Module Async.

Import SentimentAnalysisService SocketService.

(** A handler run as far as it has got: finished, normally or by an
    uncaught error, or suspended at an [await], where it has left the world
    [w] and will go on, once it is resumed, from the world of that moment. *)
Inductive Run (A : Type) : Type :=
| Finished (o : outcome A) (w : World)
| Suspended (w : World) (resume : World -> Run A).
Arguments Finished {A} o w.
Arguments Suspended {A} w resume.

Definition T (A : Type) : Type := World -> Run A.

Definition ret {A} (a : A) : T A := fun w => Finished (Returns a) w.

Definition throw {A} (e : Error) : T A := fun w => Finished (Throws e) w.

Fixpoint andThen {A B} (r : Run A) (k : A -> T B) : Run B :=
  match r with
  | Finished (Returns a) w => k a w
  | Finished (Throws e) w => Finished (Throws e) w
  | Suspended w resume => Suspended w (fun w' => andThen (resume w') k)
  end.

Definition bind {A B} (m : T A) (k : A -> T B) : T B :=
  fun w => andThen (m w) k.

Fixpoint orElse {A} (r : Run A) (handler : Error -> T A) : Run A :=
  match r with
  | Finished (Returns a) w => Finished (Returns a) w
  | Finished (Throws e) w => handler e w
  | Suspended w resume => Suspended w (fun w' => orElse (resume w') handler)
  end.

(** [try { body } catch (error) { handler }] *)
Definition tryCatch {A} (body : T A) (handler : Error -> T A) : T A :=
  fun w => orElse (body w) handler.

(** Statements between two [await]s: nothing else runs in between. *)
Definition now {A} (m : M A) : T A :=
  fun w => match m w with (o, w') => Finished o w' end.

Fixpoint thenSuspend {A} (r : Run A) : Run A :=
  match r with
  | Finished o w => Suspended w (fun w' => Finished o w')
  | Suspended w resume => Suspended w (fun w' => thenSuspend (resume w'))
  end.

(** [await promise]: the promise is run as far as it goes by itself; the
    handler is suspended and gets the value, or the error, when it is
    resumed after the promise has completed. *)
Definition await {A} (promise : T A) : T A := fun w => thenSuspend (promise w).

(** The promise of a call of a service, whose completion the environment
    supplies. *)
Definition service {A} (o : outcome A) : T A := fun w => Finished o w.

(** The promise of a database call: the operation takes effect at some
    moment after the call. *)
Definition query {A} (operation : M A) : T A :=
  fun w => Suspended w (now operation).

Declare Scope async_scope.
Delimit Scope async_scope with async.
Notation "x <- m ;; k" := (bind m (fun x => k))
  (at level 100, m at next level, k at level 200, right associativity)
  : async_scope.
Notation "m ;; k" := (bind m (fun _ => k))
  (at level 100, k at level 200, right associativity) : async_scope.
Local Open Scope async_scope.

(** *** The methods of the service *)

(** The fields [interviewId], [userId] and [interview] of a session object
    are never assigned after its creation; they are read once, where the
    handler first reads the object.  [isProcessing] and
    [currentQuestionIndex] are read where the code reads them. *)

(** [generateNextQuestion(session, previousResponse, sentimentAnalysis)] *)
Definition generateNextQuestion (env : Env) (session : nat)
    (previousResponse : jsstring) (sentimentAnalysis : Analysis)
  : T (option Question) :=
  tryCatch
    (s <- now (deref session) ;;
     let interview := interview s in
     match lifecyclePolicy (startedAt interview) (newDate env PolicyTimeElapsed)
             (duration interview) (Z.of_nat (length (questions interview))) with
     | End_ => ret None
     | Continue =>
       await (service (generateFollowUpQuestion env
         {| fu_daf := dafId interview;
            fu_previousQuestions := questions interview;
            fu_previousResponse := previousResponse;
            fu_sentimentAnalysis := sentimentAnalysis;
            fu_type := type interview;
            fu_difficulty := difficulty interview;
            fu_focusAreas := focusAreas interview;
            fu_currentQuestionNumber :=
              Z.of_nat (length (questions interview)) + 1 |}))
     end)
    (fun error => throw error).

(** [endInterview(socket, session)] *)
Definition endInterview (env : Env) (socket : Socket) (session : nat) : T unit :=
  tryCatch
    (s <- now (deref session) ;;
     await (query (findByIdAndUpdate env UpdateCompleted (interviewId s)
       (setCompleted (newDate env EndedAt)
          (roundDiv (newDate env ActualDuration - startedAt (interview s)) 60000)))) ;;
     now (socket_leave socket (roomOf (interviewId s))) ;;
     now (activeInterviews_delete socket) ;;
     s' <- now (deref session) ;;
     now (emit socket
       (interview_ended (interviewId s)
          (Z.of_nat (length (questions (interview s))) + currentQuestionIndex s')
          (roundDiv (newDate env EndedDuration - startedAt (interview s)) 60000))))
    (fun error => throw error).

(** [generateAndSendFirstQuestion(socket, interview)] *)
Definition generateAndSendFirstQuestion (env : Env) (socket : Socket)
    (interview : Interview) : T unit :=
  tryCatch
    (firstQuestion <- await (service (generateFirstQuestion env (dafId interview))) ;;
     audioBuffer <- await (service (synthesizeSpeech env (q_text firstQuestion))) ;;
     await (query (findByIdAndUpdate env PushQuestion (_id interview)
                     (pushQuestion firstQuestion))) ;;
     base64 <- now (toBase64 audioBuffer) ;;
     now (emit socket (first_question firstQuestion 1 base64 (panelists interview))))
    (fun _ => now (emit socket (error "Failed to generate first question"))).

(** *** The handlers registered by [handleConnection] *)

(** [socket.on('join_interview', async (data) => ...)] *)
Definition join_interview (env : Env) (socket : Socket) (data : option string)
  : T unit :=
  tryCatch
    (interviewId <- now (destructure data) ;;
     found <- await (query (findOne env interviewId (socket_userId socket))) ;;
     match found with
     | None => now (emit socket (error "Invalid or inactive interview session"))
     | Some interview =>
       now (socket_join socket (roomOf interviewId)) ;;
       now (activeInterviews_set socket
         {| interviewId := interviewId;
            session_userId := socket_userId socket;
            interview := interview;
            currentQuestionIndex := Z.of_nat (length (questions interview));
            isProcessing := false |}) ;;
       if (length (questions interview) =? 0)%nat
       then await (generateAndSendFirstQuestion env socket interview)
       else
         now (emit socket
           (interview_state (last (questions interview))
              (Z.of_nat (length (questions interview)))
              (Z.of_nat (length (questions interview)))
              (roundDiv (newDate env StateTimeElapsed - startedAt interview) 1000)))
     end)
    (fun _ => now (emit socket (error "Failed to join interview session"))).

(** [socket.on('audio_response', async (data) => ...)] *)
Definition audio_response (env : Env) (socket : Socket) (data : option AudioData)
  : T unit :=
  let rejected :=
    now (emit socket (error "Invalid session or already processing")) in
  tryCatch
    (found <- now (activeInterviews_get socket) ;;
     match found with
     | None => rejected
     | Some session =>
       s <- now (deref session) ;;
       if isProcessing s then rejected
       else
         now (assign_isProcessing session true) ;;
         d <- now (destructure data) ;;
         now (emit socket (processing_response transcribing None)) ;;
         transcription <- await (service (transcribeAudio env (audioData d))) ;;
         checked <- now (checkTranscription transcription) ;;
         match checked with
         | None =>
           now (emit socket
                  (error "Could not transcribe audio. Please try again.")) ;;
           now (assign_isProcessing session false)
         | Some text =>
           now (emit socket (processing_response analyzing (Some text))) ;;
           sentimentAnalysis <- await (service (analyzeSentiment env text)) ;;
           let response :=
             {| r_questionId := questionId d;
                r_transcription := text;
                r_sentiment := sentimentAnalysis;
                r_timestamp := newDate env ResponseTimestamp;
                r_responseTime := default 0 (responseTime d) |} in
           await (query (findByIdAndUpdate env PushResponse (interviewId s)
                           (pushResponse response))) ;;
           now (emit socket (processing_response generating_question None)) ;;
           nextQuestion <-
             await (generateNextQuestion env session text sentimentAnalysis) ;;
           match nextQuestion with
           | Some question =>
             audioBuffer <- await (service (synthesizeSpeech env (q_text question))) ;;
             await (query (findByIdAndUpdate env PushQuestion (interviewId s)
                             (pushQuestion question))) ;;
             now (incr_currentQuestionIndex session) ;;
             s' <- now (deref session) ;;
             base64 <- now (toBase64 audioBuffer) ;;
             now (emit socket
               (next_question question (currentQuestionIndex s' + 1) base64
                  text sentimentAnalysis))
           | None => await (endInterview env socket session)
           end ;;
           now (assign_isProcessing session false)
         end
     end)
    (fun _ =>
       now (emit socket (error "Failed to process response")) ;;
       found <- now (activeInterviews_get socket) ;;
       match found with
       | Some session => now (assign_isProcessing session false)
       | None => ret tt
       end).

(** [socket.on('end_interview', async () => ...)] *)
Definition end_interview (env : Env) (socket : Socket) : T unit :=
  tryCatch
    (found <- now (activeInterviews_get socket) ;;
     match found with
     | Some session => await (endInterview env socket session)
     | None => ret tt
     end)
    (fun _ => now (emit socket (error "Failed to end interview"))).

(** What an inbound event starts.  The handlers of [disconnect] and
    [typing] have no [await]. *)
Definition start (ev : InEvent) : T unit :=
  match ev with
  | JoinInterview env socket data => join_interview env socket data
  | AudioResponse env socket data => audio_response env socket data
  | EndInterview env socket => end_interview env socket
  | Disconnect socket => now (SocketService.bind (leaveAll socket)
                                (fun _ => disconnect socket))
  | Typing socket isTyping => now (typing socket isTyping)
  end.

(** *** The server: the world and the suspended handlers *)

Record Server : Type := {
  world : World;
  suspended : list (World -> Run unit)
}.

(** The server with nothing in flight. *)
Definition idle (w : World) : Server := {| world := w; suspended := [] |}.

(** What the event loop does next: it takes an inbound event and runs its
    handler up to its first [await], or it resumes the suspended handler
    at position [i] up to its next [await]. *)
Inductive Action : Type :=
| Deliver (ev : InEvent)
| Resume (i : nat).

Definition act (a : Action) (s : Server) : Server :=
  match a with
  | Deliver ev =>
    match start ev (world s) with
    | Finished _ w => {| world := w; suspended := suspended s |}
    | Suspended w resume => {| world := w; suspended := suspended s ++ [resume] |}
    end
  | Resume i =>
    match suspended s !! i with
    | Some resume =>
      match resume (world s) with
      | Finished _ w => {| world := w; suspended := delete i (suspended s) |}
      | Suspended w resume' =>
        {| world := w; suspended := <[i := resume']> (suspended s) |}
      end
    | None => s
    end
  end.

(** A schedule, oldest action first. *)
Definition execute (schedule : list Action) (s : Server) : Server :=
  fold_left (fun s a => act a s) schedule s.

(** A run that is resumed at once at every [await]. *)
Fixpoint uninterrupted {A} (r : Run A) : outcome A * World :=
  match r with
  | Finished o w => (o, w)
  | Suspended w resume => uninterrupted (resume w)
  end.

End Async.

(** ** Vocabulary of the statements *)

Module Spec.

Import SentimentAnalysisService SocketService.

(** Weakest precondition of a handler body, with one postcondition for a
    normal completion and one for a thrown error. *)
Definition wp {A} (m : M A) (post : A -> World -> Prop)
    (exc : Error -> World -> Prop) (w : World) : Prop :=
  match m w with
  | (Returns a, w') => post a w'
  | (Throws e, w') => exc e w'
  end.

(** The session object behind [ref] exists and its latch is clear. *)
Definition latchClear (ref : nat) (w : World) : Prop :=
  ∃ s, sessions w !! ref = Some s ∧ isProcessing s = false.

(** The session of [socket] is the object [ref], which exists. *)
Definition liveSession (socket : Socket) (ref : nat) (w : World) : Prop :=
  activeInterviews w !! socket_id socket = Some ref ∧ is_Some (sessions w !! ref).

(** No session object is latched. *)
Definition quiescent (w : World) : Prop :=
  ∀ ref s, sessions w !! ref = Some s -> isProcessing s = false.

(** The world [w] with [evs] appended to the log of emitted events. *)
Definition emitting (evs : list (string * OutEvent)) (w : World) : World :=
  with_emitted (fun log => log ++ evs) w.

(** Every interview of [before] is still there in [after], its responses
    and questions extended at the end by at most [nr] and [nq] elements. *)
Definition grows (nr nq : nat) (before after : gmap string Interview) : Prop :=
  ∀ id iv, before !! id = Some iv ->
    ∃ iv' rs qs,
      after !! id = Some iv' ∧
      responses iv' = responses iv ++ rs ∧
      questions iv' = questions iv ++ qs ∧
      (length rs ≤ nr)%nat ∧ (length qs ≤ nq)%nat.

(** Append-only: the old sequences are prefixes of the new ones. *)
Definition appendOnly (before after : gmap string Interview) : Prop :=
  ∀ id iv, before !! id = Some iv ->
    ∃ iv', after !! id = Some iv' ∧
      responses iv `prefix_of` responses iv' ∧
      questions iv `prefix_of` questions iv'.

(** The lengths of the two sequences differ by at most one. *)
Definition balanced (iv : Interview) : Prop :=
  Z.abs (Z.of_nat (length (questions iv)) - Z.of_nat (length (responses iv))) <= 1.

(** Every session object but [ref] has its latch clear. *)
Definition quiescentBut (ref : nat) (w : World) : Prop :=
  ∀ r s, sessions w !! r = Some s -> r ≠ ref -> isProcessing s = false.

(** What the body of [audio_response] maintains while it can still throw:
    the entry of the socket is the session it works on, and no other
    session is latched. *)
Definition running (socket : Socket) (ref : nat) (w : World) : Prop :=
  activeInterviews w !! socket_id socket = Some ref ∧ quiescentBut ref w.

Definition isEnded (ev : OutEvent) : bool :=
  match ev with
  | interview_ended _ _ _ => true
  | _ => false
  end.

(** What an observer reads of a persisted interview: status, end time,
    recorded duration, number of questions, number of responses. *)
Definition persisted (id : string) (w : World)
  : option (Status * option Z * option Z * nat * nat) :=
  (fun iv => (status iv, endedAt iv, actualDuration iv,
              length (questions iv), length (responses iv)))
  <$> interviews w !! id.

(** Every user has at most one interview in progress. *)
Definition atMostOneInProgress (m : gmap string Interview) : Prop :=
  ∀ user, (size (InterviewRoutes.inProgressOf user m) ≤ 1)%nat.

End Spec.


(** ** Concrete inputs used by the examples and the counterexamples *)

Module Scenario.

Import SentimentAnalysisService SocketService.

Definition alice : Socket :=
  {| socket_id := "socket-1"; socket_userId := "user-1" |}.

(** A second connection of the same user. *)
Definition aliceTablet : Socket :=
  {| socket_id := "socket-2"; socket_userId := "user-1" |}.

Definition questionNo (n : Z) : Question :=
  {| q_id := "question"; q_text := str "Tell me more about it.";
     q_askedAt := 0; q_questionNumber := n |}.

Definition neutralAnalysis : Analysis :=
  {| sentiment := {| score := Fin 0; magnitude := Fin 0; label := neutral |} |}.

Definition answer : AudioData :=
  {| audioData := Some (str "UklGRiQAAABXRUJN");
     questionId := Some "question"%string;
     responseTime := Some 1200 |}.

(** An interview of [user-1] that has just been started: 30 minutes, no
    question asked yet, started at time 0. *)
Definition fresh_interview : Interview :=
  {| _id := "interview-1"; userId := "user-1"; dafId := "daf-1";
     type := "mock"; duration := 30; difficulty := "medium";
     focusAreas := []; status := in_progress; startedAt := 0;
     endedAt := None; actualDuration := None;
     questions := []; responses := [];
     panelists := InterviewRoutes.defaultPanelists |}.

(** The same interview with [n] questions asked and all but the last one
    answered. *)
Definition interview_with (n : nat) : Interview :=
  {| _id := "interview-1"; userId := "user-1"; dafId := "daf-1";
     type := "mock"; duration := 30; difficulty := "medium";
     focusAreas := []; status := in_progress; startedAt := 0;
     endedAt := None; actualDuration := None;
     questions := map (fun k => questionNo (Z.of_nat k)) (seq 1 n);
     responses :=
       replicate (pred n)
         {| r_questionId := Some "question"%string;
            r_transcription := str "My answer";
            r_sentiment := neutralAnalysis;
            r_timestamp := 0; r_responseTime := 1200 |};
     panelists := InterviewRoutes.defaultPanelists |}.

(** Nobody connected, one interview in the database. *)
Definition world_of (iv : Interview) : World :=
  {| interviews := {[ _id iv := iv ]}; sessions := ∅;
     activeInterviews := ∅; rooms := ∅; emitted := [] |}.

(** Every service answers, the transcriber with a text; the clock reads
    [now]. *)
Definition healthyAt (now : Z) : Env :=
  {| transcribeAudio := fun _ => Returns (TString (str "My answer"));
     analyzeSentiment := fun _ => Returns neutralAnalysis;
     generateFirstQuestion := fun _ => Returns (questionNo 1);
     generateFollowUpQuestion :=
       fun a => Returns (Some (questionNo (fu_currentQuestionNumber a)));
     synthesizeSpeech := fun _ => Returns (Some [82; 73; 70; 70]%N);
     dbThrows := fun _ => false;
     newDate := fun _ => now |}.

Definition healthy : Env := healthyAt 0.

(** As [healthy], but the question generator fails. *)
Definition generatorDown : Env :=
  {| transcribeAudio := transcribeAudio healthy;
     analyzeSentiment := analyzeSentiment healthy;
     generateFirstQuestion := generateFirstQuestion healthy;
     generateFollowUpQuestion := fun _ => Throws (Err "generation failed");
     synthesizeSpeech := synthesizeSpeech healthy;
     dbThrows := dbThrows healthy;
     newDate := newDate healthy |}.

(** A speech client that recognises one sentence. *)
Definition recognizeOne (_ : jsstring)
  : outcome SpeechToTextService.RecognizeResponse :=
  Returns
    {| SpeechToTextService.results :=
         Some [ {| SpeechToTextService.alternatives :=
                     [ {| SpeechToTextService.transcript := str "My answer";
                          SpeechToTextService.alt_confidence := (9 # 10)%Q;
                          SpeechToTextService.alt_words := None |} ] |} ] |}.

(** As [healthy], with the speech-to-text service of the repository as
    transcriber. *)
Definition linked : Env :=
  {| transcribeAudio := speechToText recognizeOne;
     analyzeSentiment := analyzeSentiment healthy;
     generateFirstQuestion := generateFirstQuestion healthy;
     generateFollowUpQuestion := generateFollowUpQuestion healthy;
     synthesizeSpeech := synthesizeSpeech healthy;
     dbThrows := dbThrows healthy;
     newDate := newDate healthy |}.

(** Join, then three submissions during which question generation fails. *)
Definition failedRetries : list InEvent :=
  [ JoinInterview healthy alice (Some "interview-1"%string);
    AudioResponse generatorDown alice (Some answer);
    AudioResponse generatorDown alice (Some answer);
    AudioResponse generatorDown alice (Some answer) ].

(** Join an interview without questions and answer [n] times. *)
Definition answered (n : nat) : list InEvent :=
  JoinInterview healthy alice (Some "interview-1"%string)
  :: replicate n (AudioResponse healthy alice (Some answer)).

(** Two connections join an interview that has one question; the first
    ends it after 10 minutes, the second after 20. *)
Definition endedTwice : list InEvent :=
  [ JoinInterview healthy alice (Some "interview-1"%string);
    JoinInterview healthy aliceTablet (Some "interview-1"%string);
    EndInterview (healthyAt 600000) alice;
    EndInterview (healthyAt 1200000) aliceTablet ].

(** The first connection after it has joined the fresh interview and been
    sent the first question. *)
Definition joined : World :=
  handle (JoinInterview healthy alice (Some "interview-1"%string))
    (world_of fresh_interview).

(** The same, observed while a pipeline run is under way: the latch of the
    session is set. *)
Definition midRun : World :=
  with_sessions (alter (set_isProcessing true) 0%nat) joined.

(** As [healthy], but the transcriber hears nothing but blanks. *)
Definition silence : Env :=
  {| transcribeAudio := fun _ => Returns (TString (str "   "));
     analyzeSentiment := analyzeSentiment healthy;
     generateFirstQuestion := generateFirstQuestion healthy;
     generateFollowUpQuestion := generateFollowUpQuestion healthy;
     synthesizeSpeech := synthesizeSpeech healthy;
     dbThrows := dbThrows healthy;
     newDate := newDate healthy |}.

(** A language client that finds the text mildly positive. *)
Definition mildlyPositive : LanguageClient :=
  {| client_analyzeSentiment :=
       fun _ => Returns {| ds_score := Fin (1 # 2); ds_magnitude := Fin (1 # 1) |};
     client_analyzeEntities := fun _ => Returns tt;
     client_analyzeSyntax := fun _ => Returns tt |}.

(** A database with the fresh interview of [user-1] and that user's DAF,
    and a request of the same user to start another interview. *)
Definition oneInProgress : InterviewRoutes.Db :=
  {| InterviewRoutes.interviews := {[ "interview-1"%string := fresh_interview ]};
     InterviewRoutes.dafs :=
       [ {| InterviewRoutes.daf_id := "daf-1";
            InterviewRoutes.daf_userId := "user-1" |} ] |}.

Definition startAgain : InterviewRoutes.Request :=
  {| InterviewRoutes.req_user := "user-1";
     InterviewRoutes.req_body :=
       {| InterviewRoutes.body_type := None;
          InterviewRoutes.body_duration := Some (45 # 1)%Q;
          InterviewRoutes.body_difficulty := Some "hard"%string;
          InterviewRoutes.body_focusAreas := None |};
     InterviewRoutes.newObjectId := "interview-2";
     InterviewRoutes.newDate := 5000;
     InterviewRoutes.dbThrows := fun _ => false |}.

(** A connection of another user. *)
Definition mallory : Socket :=
  {| socket_id := "socket-9"; socket_userId := "user-9" |}.

(** As [healthy], but the synthesizer fails. *)
Definition synthesizerDown : Env :=
  {| transcribeAudio := transcribeAudio healthy;
     analyzeSentiment := analyzeSentiment healthy;
     generateFirstQuestion := generateFirstQuestion healthy;
     generateFollowUpQuestion := generateFollowUpQuestion healthy;
     synthesizeSpeech := fun _ => Throws (Err "Failed to synthesize speech");
     dbThrows := dbThrows healthy;
     newDate := newDate healthy |}.

(** As [healthy], but the scorer fails. *)
Definition scorerDown : Env :=
  {| transcribeAudio := transcribeAudio healthy;
     analyzeSentiment := fun _ => Throws (Err "Failed to analyze sentiment");
     generateFirstQuestion := generateFirstQuestion healthy;
     generateFollowUpQuestion := generateFollowUpQuestion healthy;
     synthesizeSpeech := synthesizeSpeech healthy;
     dbThrows := dbThrows healthy;
     newDate := newDate healthy |}.

(** As [healthy], but the database refuses to mark an interview completed. *)
Definition updateDown : Env :=
  {| transcribeAudio := transcribeAudio healthy;
     analyzeSentiment := analyzeSentiment healthy;
     generateFirstQuestion := generateFirstQuestion healthy;
     generateFollowUpQuestion := generateFollowUpQuestion healthy;
     synthesizeSpeech := synthesizeSpeech healthy;
     dbThrows := fun call =>
       match call with UpdateCompleted => true | _ => false end;
     newDate := newDate healthy |}.

(** The session object [joined] holds for the first connection. *)
Definition session0 : Session :=
  {| interviewId := "interview-1"; session_userId := "user-1";
     interview := fresh_interview; currentQuestionIndex := 0;
     isProcessing := false |}.

(** As [healthy], with the sentiment service of the repository as scorer,
    behind a language client that finds every text mildly positive. *)
Definition scored : Env :=
  {| transcribeAudio := transcribeAudio healthy;
     analyzeSentiment := SentimentAnalysisService.analyzeSentiment mildlyPositive;
     generateFirstQuestion := generateFirstQuestion healthy;
     generateFollowUpQuestion := generateFollowUpQuestion healthy;
     synthesizeSpeech := synthesizeSpeech healthy;
     dbThrows := dbThrows healthy;
     newDate := newDate healthy |}.

(** The owner ends [interview-1] over HTTP after ten minutes. *)
Definition endRequest : InterviewRoutes.IdRequest :=
  {| InterviewRoutes.idreq_user := "user-1";
     InterviewRoutes.idreq_interviewId := "interview-1";
     InterviewRoutes.idreq_newDate := 600000;
     InterviewRoutes.idreq_dbThrows := fun _ => false |}.

(** Another user names the same interview. *)
Definition foreignRequest : InterviewRoutes.IdRequest :=
  {| InterviewRoutes.idreq_user := "user-9";
     InterviewRoutes.idreq_interviewId := "interview-1";
     InterviewRoutes.idreq_newDate := 600000;
     InterviewRoutes.idreq_dbThrows := fun _ => false |}.

(** A database in which [user-1] has a DAF and no interview. *)
Definition registered : InterviewRoutes.Db :=
  {| InterviewRoutes.interviews := ∅;
     InterviewRoutes.dafs := InterviewRoutes.dafs oneInProgress |}.

(** The socket service in front of a database, nobody connected. *)
Definition serving (db : InterviewRoutes.Db) : World :=
  {| interviews := InterviewRoutes.interviews db; sessions := ∅;
     activeInterviews := ∅; rooms := ∅; emitted := [] |}.


Definition aliceDeletes : DafRoutes.DafRequest :=
  {| DafRoutes.dafreq_user := "user-1"; DafRoutes.dafreq_error := None;
     DafRoutes.dafreq_newObjectId := "daf-3";
     DafRoutes.dafreq_dbThrows := fun _ => false |}.

(** Two connections join an interview that has one question; the first
    answers, the second ends the interview and leaves, and a stranger
    tries to join.  The first connection still has its session. *)
Definition busy : list InEvent :=
  [ JoinInterview healthy alice (Some "interview-1"%string);
    JoinInterview healthy aliceTablet (Some "interview-1"%string);
    AudioResponse healthy alice (Some answer);
    Typing aliceTablet true;
    EndInterview (healthyAt 600000) aliceTablet;
    Disconnect aliceTablet;
    JoinInterview healthy mallory (Some "interview-1"%string) ].


(** The first connection submits an answer and is closed while the
    transcriber works; the handler is resumed afterwards.  The transcriber
    is the speech-to-text service of the repository. *)
Definition hangUp : list Async.Action :=
  [ Async.Deliver (AudioResponse linked alice (Some answer));
    Async.Deliver (Disconnect alice);
    Async.Resume 0 ].

(** The same events, each handler run to its end before the next event. *)
Definition hangUpLate : list InEvent :=
  [ AudioResponse linked alice (Some answer); Disconnect alice ].

(** The first connection submits an answer and joins again while the
    transcriber works: the join has run to its end when the submission is
    resumed. *)
Definition rejoin : list Async.Action :=
  [ Async.Deliver (AudioResponse linked alice (Some answer));
    Async.Deliver (JoinInterview healthy alice (Some "interview-1"%string));
    Async.Resume 1; Async.Resume 1;
    Async.Resume 0 ].

(** Two connections of the owner join the interview that has no question
    yet, the second before the first question of the first is stored. *)
Definition joinTwice : list Async.Action :=
  [ Async.Deliver (JoinInterview linked alice (Some "interview-1"%string));
    Async.Resume 0; Async.Resume 0;
    Async.Deliver (JoinInterview linked aliceTablet (Some "interview-1"%string));
    Async.Resume 1; Async.Resume 1 ]
  ++ replicate 5 (Async.Resume 0) ++ replicate 5 (Async.Resume 0).

End Scenario.


(** ** Vocabulary for the further properties *)

Module Paths.

Import SentimentAnalysisService SocketService Spec.

(** The response object the [audio_response] handler builds. *)
Definition responseOf (env : Env) (d : AudioData) (text : jsstring)
    (analysis : Analysis) : Response :=
  {| r_questionId := questionId d;
     r_transcription := text;
     r_sentiment := analysis;
     r_timestamp := newDate env ResponseTimestamp;
     r_responseTime := default 0 (responseTime d) |}.

(** The argument [generateNextQuestion] passes to the question generator. *)
Definition followUpOf (s : Session) (text : jsstring) (analysis : Analysis)
  : FollowUp :=
  {| fu_daf := dafId (interview s);
     fu_previousQuestions := questions (interview s);
     fu_previousResponse := text;
     fu_sentimentAnalysis := analysis;
     fu_type := type (interview s);
     fu_difficulty := difficulty (interview s);
     fu_focusAreas := focusAreas (interview s);
     fu_currentQuestionNumber :=
       Z.of_nat (length (questions (interview s))) + 1 |}.

(** The policy as [generateNextQuestion] evaluates it for a session. *)
Definition policyOf (env : Env) (s : Session) : Decision :=
  lifecyclePolicy (startedAt (interview s)) (newDate env PolicyTimeElapsed)
    (duration (interview s)) (Z.of_nat (length (questions (interview s)))).

(** The submission [d] of [socket] starts a run on the session [s] behind
    [ref] and its transcription [text] passes the check. *)
Definition transcribed (env : Env) (socket : Socket) (d : AudioData) (w : World)
    (ref : nat) (s : Session) (text : jsstring) : Prop :=
  activeInterviews w !! socket_id socket = Some ref ∧
  sessions w !! ref = Some s ∧
  isProcessing s = false ∧
  transcribeAudio env (audioData d) = Returns (TString text) ∧
  trim text ≠ [].

(** The first question cannot be delivered: the generator or the
    synthesizer throws, or the question cannot be stored. *)
Definition firstQuestionFails (env : Env) (iv : Interview) : Prop :=
  match generateFirstQuestion env (dafId iv) with
  | Throws _ => True
  | Returns q =>
    match synthesizeSpeech env (q_text q) with
    | Throws _ => True
    | Returns _ => dbThrows env PushQuestion = true
    end
  end.

(** The next question cannot be delivered although the interview goes on:
    the generator or the synthesizer throws, or the question cannot be
    stored. *)
Definition nextQuestionFails (env : Env) (s : Session) (text : jsstring)
    (analysis : Analysis) : Prop :=
  policyOf env s = Continue ∧
  match generateFollowUpQuestion env (followUpOf s text analysis) with
  | Throws _ => True
  | Returns None => False
  | Returns (Some q) =>
    match synthesizeSpeech env (q_text q) with
    | Throws _ => True
    | Returns _ => dbThrows env PushQuestion = true
    end
  end.

(** The session map refers to existing session objects, and no two
    sockets share one. *)
Definition wellFormed (w : World) : Prop :=
  (∀ sid ref, activeInterviews w !! sid = Some ref -> is_Some (sessions w !! ref)) ∧
  (∀ sid sid' ref, activeInterviews w !! sid = Some ref ->
     activeInterviews w !! sid' = Some ref -> sid = sid').

(** The socket an inbound event comes from. *)
Definition socketOf (ev : InEvent) : Socket :=
  match ev with
  | JoinInterview _ socket _ | AudioResponse _ socket _
  | EndInterview _ socket | Disconnect socket | Typing socket _ => socket
  end.

(** What an event of another connection leaves alone: the entry of
    [sid] in the session map and the session object it refers to. *)
Definition sessionOf (sid : string) (w : World) : option (nat * Session) :=
  match activeInterviews w !! sid with
  | Some ref => (fun s => (ref, s)) <$> sessions w !! ref
  | None => None
  end.

(** What a handler run of the connection [sid] leaves alone, from [w0] to
    [w]: the entries of the other connections in the session map, and
    every session object that existed in [w0], but for the one ([own]) the
    run works on. *)
Definition untouched (sid : string) (own : option nat) (w0 w : World) : Prop :=
  (∀ sid', sid' ≠ sid -> activeInterviews w !! sid' = activeInterviews w0 !! sid') ∧
  (∀ r, is_Some (sessions w0 !! r) -> Some r ≠ own ->
     sessions w !! r = sessions w0 !! r).

(** What the body of [audio_response] maintains while it can still throw:
    the above, and the socket still owns its session. *)
Definition mine (socket : Socket) (ref : nat) (w0 w : World) : Prop :=
  untouched (socket_id socket) (Some ref) w0 w ∧
  activeInterviews w !! socket_id socket = Some ref.

(** The answer event is handled with the speech-to-text service of the
    repository as transcriber. *)
Definition usesRepositoryTranscriber (ev : InEvent) : Prop :=
  match ev with
  | AudioResponse env _ _ =>
    ∃ recognize, transcribeAudio env = speechToText recognize
  | _ => True
  end.

(** The same interviews with the same responses. *)
Definition sameResponses (w0 w : World) : Prop :=
  ∀ id, responses <$> interviews w !! id = responses <$> interviews w0 !! id.

(** The string neither starts nor ends with a white space character. *)
Definition blankFree (s : jsstring) : Prop :=
  ∀ c, head s = Some c ∨ last s = Some c -> isWhiteSpace c = false.

(** The responses stored for an interview. *)
Definition responsesOf (id : string) (w : World) : option (list Response) :=
  responses <$> interviews w !! id.

(** The analysis [analyzeSentiment] builds from the document sentiment the
    language client returns. *)
Definition analysisOf (ds : DocumentSentiment) : Analysis :=
  {| sentiment :=
       {| score := ds_score ds; magnitude := ds_magnitude ds;
          label := getSentimentLabel (ds_score ds) |} |}.

(** The DAFs of a user; every user has at most one. *)
Definition dafsOf (user : string) (ds : list InterviewRoutes.Daf)
  : list InterviewRoutes.Daf :=
  filter (fun d => InterviewRoutes.daf_userId d = user) ds.

Definition oneDafPerUser (ds : list InterviewRoutes.Daf) : Prop :=
  ∀ user, (length (dafsOf user ds) ≤ 1)%nat.

(** Every connection that has a session is a member of the room of the
    interview of that session. *)
Definition inItsRoom (w : World) : Prop :=
  ∀ sid ref s,
    activeInterviews w !! sid = Some ref -> sessions w !! ref = Some s ->
    sid ∈ default ∅ (rooms w !! roomOf (interviewId s)).

(** The fields of an interview that no handler writes are the same, and
    a completed interview is still completed. *)
Definition sameInterview (iv iv' : Interview) : Prop :=
  _id iv' = _id iv ∧ userId iv' = userId iv ∧ dafId iv' = dafId iv ∧
  type iv' = type iv ∧ duration iv' = duration iv ∧
  difficulty iv' = difficulty iv ∧ focusAreas iv' = focusAreas iv ∧
  startedAt iv' = startedAt iv ∧ panelists iv' = panelists iv ∧
  (status iv = completed -> status iv' = completed).

(** The same interviews, none added and none removed, each the same in
    the sense above. *)
Definition settled (m m' : gmap string Interview) : Prop :=
  ∀ id,
    match m !! id, m' !! id with
    | Some iv, Some iv' => sameInterview iv iv'
    | None, None => True
    | _, _ => False
    end.

(** The session object still refers to the same interview of the same
    user and holds the same copy of it; its index has not decreased. *)
Definition frozen (s s' : Session) : Prop :=
  interviewId s' = interviewId s ∧ session_userId s' = session_userId s ∧
  interview s' = interview s ∧
  currentQuestionIndex s <= currentQuestionIndex s'.

Definition snapshotsKept (m m' : gmap nat Session) : Prop :=
  ∀ r s, m !! r = Some s -> ∃ s', m' !! r = Some s' ∧ frozen s s'.

End Paths.

(** ** Vocabulary for the suspended handlers *)

Module Interleaving.

Import SentimentAnalysisService SocketService Spec Async.

(** The handler [m], written without suspension points, is the handler
    [t] resumed at once at every [await]. *)
Definition refines {A} (t : T A) (m : M A) : Prop :=
  ∀ w, uninterrupted (t w) = m w.

(** Every stretch of the run [r] between two [await]s, and the last one,
    takes the world it starts from ([w0] for the first) to a world related
    to it by [G]; at the end [post] holds of the completion, of the world
    the last stretch started from and of the final world. *)
Fixpoint steps {A} (G : World -> World -> Prop) (w0 : World) (r : Run A)
    (post : outcome A -> World -> World -> Prop) : Prop :=
  match r with
  | Finished o w => post o w0 w
  | Suspended w resume => G w0 w ∧ ∀ w', steps G w' (resume w') post
  end.

(** Code without [await] that keeps the world related by [G] to the world
    a stretch started from. *)
Definition keeps {A} (G : World -> World -> Prop) (m : M A) : Prop :=
  ∀ w0 w, G w0 w ->
    wp m (fun _ w' => G w0 w') (fun _ w' => G w0 w') w.

(** The same of a handler that can be suspended: every stretch of it. *)
Definition keepsT {A} (G : World -> World -> Prop) (t : T A) : Prop :=
  ∀ w0 w, G w0 w -> steps G w0 (t w) (fun _ w0' w' => G w0' w').

(** A suspended handler every stretch of which will keep [G], whatever the
    world it is resumed in. *)
Definition safe (G : World -> World -> Prop) (resume : World -> Run unit) : Prop :=
  ∀ w', steps G w' (resume w') (fun _ w0' w'' => G w0' w'').

(** The interviews are only extended: the relation of [appendOnly]
    between two worlds. *)
Definition extended (w0 w : World) : Prop :=
  appendOnly (interviews w0) (interviews w).

(** The events a schedule delivers all satisfy [allowed]. *)
Definition delivers (allowed : InEvent -> Prop) (a : Action) : Prop :=
  match a with
  | Deliver ev => allowed ev
  | Resume _ => True
  end.

End Interleaving.

Module Sequences.

Import SentimentAnalysisService SocketService Spec.

(** The database keys the interviews by their [_id]. *)
Definition keyed (m : gmap string Interview) : Prop :=
  ∀ id iv, m !! id = Some iv -> _id iv = id.

(** No interview has more than one question that is not answered yet, and
    the interview [answered], whose response has just been stored, has
    none. *)
Definition openQuestions (answered : option string) (m : gmap string Interview)
  : Prop :=
  ∀ id iv, m !! id = Some iv ->
    (length (questions iv) + (if bool_decide (answered = Some id) then 1 else 0)
     ≤ length (responses iv) + 1)%nat.

(** The lengths of the two sequences of every interview differ by at most
    one. *)
Definition allBalanced (m : gmap string Interview) : Prop :=
  ∀ id iv, m !! id = Some iv -> balanced iv.

(** No interview has more than one response beyond its questions. *)
Definition responsesWithinOne (m : gmap string Interview) : Prop :=
  ∀ id iv, m !! id = Some iv ->
    (length (responses iv) ≤ length (questions iv) + 1)%nat.

End Sequences.

Module Transcription.

Import SentimentAnalysisService SocketService Spec.

(** The transcription is empty: [null], or a string of blanks. *)
Definition emptyTranscription (t : outcome Transcribed) : Prop :=
  match t with
  | Returns TNull => True
  | Returns (TString text) => trim text = []
  | _ => False
  end.

(** The transcription fails: the transcriber throws, or it returns an
    object, on which the handler's [transcription.trim()] throws. *)
Definition failedTranscription (t : outcome Transcribed) : Prop :=
  match t with
  | Throws _ => True
  | Returns (TObject _) => True
  | _ => False
  end.

(** The world a submission of [socket] on the session object [ref] leaves
    when it is suspended at the call of the transcriber. *)
Definition transcribingIn (socket : Socket) (ref : nat) (w : World) : World :=
  emitting [(socket_id socket, processing_response transcribing None)]
    (with_sessions (alter (set_isProcessing true) ref) w).

(** What the [catch] of the [audio_response] handler does to the world
    [w]: the error event, and the latch of the session the socket has in
    [w], if it has one, is cleared. *)
Definition caught (socket : Socket) (w : World) : World :=
  let w' := emitting [(socket_id socket, error "Failed to process response")] w in
  match activeInterviews w !! socket_id socket with
  | Some current => with_sessions (alter (set_isProcessing false) current) w'
  | None => w'
  end.

(** The submission [d] of [socket] is delivered, the connection is closed
    while the transcriber works, and the submission is resumed when the
    transcriber has completed. *)
Definition hangUpDuring (env : Env) (socket : Socket) (d : AudioData)
  : list Async.Action :=
  [ Async.Deliver (AudioResponse env socket (Some d));
    Async.Deliver (Disconnect socket);
    Async.Resume 0 ].

End Transcription.


(** * Properties *)

Import SentimentAnalysisService SocketService Spec.
Local Open Scope handler_scope.

(** ** Sentiment labels *)




(** Scores that are not finite numbers. *)
Lemma getSentimentLabel_not_finite :
  getSentimentLabel NaN = neutral ∧
  getSentimentLabel PosInf = positive ∧
  getSentimentLabel NegInf = negative.
Proof. repeat split. Qed.




(** ** Lifecycle policy *)

Lemma timeElapsed_ge (startedAt now duration : Z) :
  (inject_Z duration <= timeElapsed now startedAt)%Q <->
  duration * 60000 <= now - startedAt.
Proof. unfold timeElapsed, Qle. simpl. lia. Qed.

Lemma endCondition_true (startedAt now duration questionCount : Z) :
  endCondition startedAt now duration questionCount = true <->
  (inject_Z duration <= timeElapsed now startedAt)%Q ∨ 15 <= questionCount.
Proof.
  unfold endCondition, maxQuestions.
  rewrite orb_true_iff, Qle_bool_iff, Z.leb_le. reflexivity.
Qed.

(** The test at the head of [generateNextQuestion], on its own: End
    exactly when the elapsed minutes are at least the duration or the
    question count is at least 15, Continue otherwise; in particular End
    at 15 questions with no time elapsed, and at zero questions once the
    elapsed time reaches the duration (the duration plus [late]
    milliseconds). *)
Lemma lifecyclePolicy_decision (startedAt now duration questionCount : Z) (late : N) :
  (lifecyclePolicy startedAt now duration questionCount = End_ <->
     (inject_Z duration <= timeElapsed now startedAt)%Q ∨ 15 <= questionCount) ∧
  (lifecyclePolicy startedAt now duration questionCount = Continue <->
     ¬ ((inject_Z duration <= timeElapsed now startedAt)%Q ∨ 15 <= questionCount)) ∧
  lifecyclePolicy startedAt startedAt duration 15 = End_ ∧
  lifecyclePolicy startedAt (startedAt + duration * 60000 + Z.of_N late) duration 0
    = End_.
Proof.
  unfold lifecyclePolicy.
  pose proof (endCondition_true startedAt now duration questionCount) as Hq.
  split; [| split; [| split]].
  - destruct (endCondition _ _ _ questionCount); split; intros H;
      try reflexivity; try discriminate.
    + apply Hq. reflexivity.
    + apply Hq in H. discriminate.
  - destruct (endCondition _ _ _ questionCount); split; intros H;
      try reflexivity; try discriminate.
    + exfalso. apply H, Hq. reflexivity.
    + intros Hc. apply Hq in Hc. discriminate.
  - replace (endCondition startedAt startedAt duration 15) with true;
      [reflexivity |].
    symmetry. apply endCondition_true. right. lia.
  - replace (endCondition startedAt (startedAt + duration * 60000 + Z.of_N late)
               duration 0) with true; [reflexivity |].
    symmetry. apply endCondition_true. left. apply timeElapsed_ge. lia.
Qed.


(** ** Rules of the weakest precondition *)

Section WpRules.
Context {A B : Type}.
Implicit Types (post : A -> World -> Prop) (exc : Error -> World -> Prop).

Lemma wp_ret (a : A) post exc w : post a w -> wp (ret a) post exc w.
Proof. intros H. exact H. Qed.

Lemma wp_throw (e : Error) post exc w : exc e w -> wp (throw e) post exc w.
Proof. intros H. exact H. Qed.

Lemma wp_bind (m : M B) (k : B -> M A) post exc w :
  wp m (fun b w' => wp (k b) post exc w') exc w -> wp (bind m k) post exc w.
Proof.
  unfold wp, bind. destruct (m w) as [[b | e] w']; intros H; exact H.
Qed.

Lemma wp_tryCatch (body : M A) (handler : Error -> M A) post exc w :
  wp body post (fun e w' => wp (handler e) post exc w') w ->
  wp (tryCatch body handler) post exc w.
Proof.
  unfold wp, tryCatch. destruct (body w) as [[a | e] w']; intros H; exact H.
Qed.

Lemma wp_await (o : outcome A) post exc w :
  (∀ a, o = Returns a -> post a w) -> (∀ e, o = Throws e -> exc e w) ->
  wp (await o) post exc w.
Proof.
  unfold wp, await. destruct o as [a | e]; intros Hr Ht; auto.
Qed.

Lemma wp_gets (f : World -> A) post exc w : post (f w) w -> wp (gets f) post exc w.
Proof. intros H. exact H. Qed.

Lemma wp_mono (m : M A) post post' exc exc' w :
  (∀ a w', post a w' -> post' a w') -> (∀ e w', exc e w' -> exc' e w') ->
  wp m post exc w -> wp m post' exc' w.
Proof.
  unfold wp. destruct (m w) as [[a | e] w']; intros Hp He H; auto.
Qed.

(** A property that holds however the body completes holds of the world
    it leaves. *)
Lemma wp_exec (m : M A) (P : World -> Prop) w :
  wp m (fun _ w' => P w') (fun _ w' => P w') w -> P (exec m w).
Proof.
  unfold wp, exec. destruct (m w) as [[a | e] w']; intros H; exact H.
Qed.

End WpRules.

Lemma wp_modify (f : World -> World) post exc w :
  post tt (f w) -> wp (modify f) post exc w.
Proof. intros H. exact H. Qed.

Lemma wp_deref ref post exc w :
  (∀ s, sessions w !! ref = Some s -> post s w) ->
  (sessions w !! ref = None -> ∀ e, exc e w) ->
  wp (deref ref) post exc w.
Proof.
  unfold wp, deref. destruct (sessions w !! ref) as [s |]; intros Hs Hn; auto.
Qed.

Lemma wp_destructure {A} (data : option A) post exc w :
  (∀ d, data = Some d -> post d w) -> (data = None -> ∀ e, exc e w) ->
  wp (destructure data) post exc w.
Proof. destruct data as [d |]; intros Hs Hn; cbn; auto. Qed.

Lemma wp_toBase64 (b : option Buffer) post exc w :
  (∀ buf, b = Some buf -> post buf w) -> (b = None -> ∀ e, exc e w) ->
  wp (toBase64 b) post exc w.
Proof. destruct b as [buf |]; intros Hs Hn; cbn; auto. Qed.

Lemma wp_findByIdAndUpdate env call id update post exc w :
  (dbThrows env call = false -> post tt (with_interviews (alter update id) w)) ->
  (dbThrows env call = true -> ∀ e, exc e w) ->
  wp (findByIdAndUpdate env call id update) post exc w.
Proof.
  unfold findByIdAndUpdate. destruct (dbThrows env call); intros Hs Hn; cbn; auto.
Qed.

Lemma wp_checkTranscription t post exc w :
  (∀ r, post r w) -> (∀ e, exc e w) -> wp (checkTranscription t) post exc w.
Proof.
  intros Hp He. destruct t as [| text | o]; cbn; auto.
  destruct (length (trim text) =? 0)%nat; cbn; auto.
Qed.

(** One step through a handler body. *)
Ltac wp_step :=
  lazymatch goal with
  | |- wp (bind _ _) _ _ _ => apply wp_bind
  | |- wp (tryCatch _ _) _ _ _ => apply wp_tryCatch
  | |- wp (ret _) _ _ _ => apply wp_ret
  | |- wp (throw _) _ _ _ => apply wp_throw
  | |- wp (await _) _ _ _ => apply wp_await; intros
  | |- wp (gets _) _ _ _ => apply wp_gets
  | |- wp (modify _) _ _ _ => apply wp_modify
  | |- wp (deref _) _ _ _ => apply wp_deref; intros
  | |- wp (destructure _) _ _ _ => apply wp_destructure; intros
  | |- wp (toBase64 _) _ _ _ => apply wp_toBase64; intros
  | |- wp (findByIdAndUpdate _ _ _ _) _ _ _ => apply wp_findByIdAndUpdate; intros
  | |- wp (emit _ _) _ _ _ => unfold emit; apply wp_modify
  | |- wp (socket_join _ _) _ _ _ => unfold socket_join; apply wp_modify
  | |- wp (socket_leave _ _) _ _ _ => unfold socket_leave; apply wp_modify
  | |- wp (leaveAll _) _ _ _ => unfold leaveAll; apply wp_modify
  | |- wp (disconnect _) _ _ _ => unfold disconnect
  | |- wp (socket_to_emit _ _ _) _ _ _ => unfold socket_to_emit; apply wp_modify
  | |- wp (activeInterviews_get _) _ _ _ => unfold activeInterviews_get; apply wp_gets
  | |- wp (activeInterviews_set _ _) _ _ _ => unfold activeInterviews_set; apply wp_modify
  | |- wp (activeInterviews_delete _) _ _ _ => unfold activeInterviews_delete; apply wp_modify
  | |- wp (assign_isProcessing _ _) _ _ _ => unfold assign_isProcessing; apply wp_modify
  | |- wp (incr_currentQuestionIndex _) _ _ _ =>
      unfold incr_currentQuestionIndex; apply wp_modify
  end.

(** ** The single-flight latch *)

Lemma latchClear_assign ref w :
  is_Some (sessions w !! ref) ->
  latchClear ref (with_sessions (alter (set_isProcessing false) ref) w).
Proof.
  intros [s Hs]. exists (set_isProcessing false s). cbn.
  rewrite lookup_alter_eq, Hs. split; reflexivity.
Qed.


Lemma generateNextQuestion_world env ref previousResponse sentimentAnalysis
    (P : World -> Prop) w :
  P w ->
  wp (generateNextQuestion env ref previousResponse sentimentAnalysis)
     (fun _ w' => P w') (fun _ w' => P w') w.
Proof.
  intros HP. unfold generateNextQuestion.
  repeat wp_step; try exact HP.
  destruct (lifecyclePolicy _ _ _ _); repeat wp_step; exact HP.
Qed.

Lemma endInterview_latch env socket ref w :
  liveSession socket ref w ->
  wp (endInterview env socket ref)
     (fun _ w' => is_Some (sessions w' !! ref))
     (fun _ w' => liveSession socket ref w') w.
Proof.
  intros Hl. unfold endInterview.
  repeat wp_step; cbn; solve [exact Hl | apply Hl].
Qed.

Ltac live :=
  lazymatch goal with
  | Hl : liveSession _ _ _ |- _ =>
    first
      [ exact Hl
      | intros; unfold liveSession in *; cbn in *;
        rewrite ?lookup_alter_eq, ?fmap_is_Some; solve [tauto | apply Hl] ]
  end.

(** A handler that nothing interrupts clears the latch.  A pipeline run of
    the [audio_response] handler starts when the socket has a session whose
    latch is clear; whatever the payload, and whatever the transcriber, the
    scorer, the question generator, the synthesizer, the database and the
    clock answer or throw, the handler, run to its end before any other
    event is handled, leaves the session object with [isProcessing] equal
    to false. *)
Lemma audio_response_clears_the_latch env socket data w ref :
  activeInterviews w !! socket_id socket = Some ref ->
  latchClear ref w ->
  latchClear ref (exec (audio_response env socket data) w).
Proof.
  intros Ha Hc.
  assert (Hl : liveSession socket ref w).
  { destruct Hc as (s & Hs & _). split; [exact Ha |].
    rewrite Hs. eexists; reflexivity. }
  apply wp_exec. unfold audio_response.
  wp_step.
  apply (wp_mono _ (fun _ w' => latchClear ref w') _
                   (fun _ w' => liveSession socket ref w')).
  { auto. }
  { intros e w' Hl'. repeat wp_step. cbn. destruct Hl' as [-> Hs].
    wp_step. apply latchClear_assign, Hs. }
  repeat wp_step. rewrite Ha.
  wp_step. wp_step; [| destruct Hl as [_ [s0 Hs0]]; congruence].
  destruct Hc as (s0 & Hs0 & Hp0).
  assert (s = s0) as -> by congruence. rewrite Hp0.
  do 4 wp_step; [| live].
  do 4 wp_step; [| live].
  wp_step. apply wp_checkTranscription; [| live].
  intros [text |].
  2:{ do 3 wp_step. apply latchClear_assign. live. }
  do 4 wp_step; [| live].
  do 2 wp_step; [| live].
  do 3 wp_step.
  eapply wp_mono; [| | apply generateNextQuestion_world with
    (P := fun w' => liveSession socket ref w')]; [| auto | live].
  intros [question |] w' Hl'; cbv beta in *.
  - do 3 wp_step; [| exact Hl'].
    do 2 wp_step; [| exact Hl'].
    do 4 wp_step; [| live].
    do 2 wp_step; [| live].
    do 2 wp_step. apply latchClear_assign. live.
  - wp_step. eapply wp_mono; [| | apply endInterview_latch, Hl']; [| auto].
    intros ? w'' Hs. cbv beta in *. wp_step. apply latchClear_assign, Hs.
Qed.

(** *** No latch survives a handler *)

Lemma quiescentBut_alter ref f (w : World) :
  quiescentBut ref w -> quiescentBut ref (with_sessions (alter f ref) w).
Proof.
  intros H r s Hs Hne. cbn in Hs. rewrite lookup_alter_ne in Hs by congruence.
  eapply H; eassumption.
Qed.

Lemma quiescent_assign ref w :
  quiescentBut ref w ->
  quiescent (with_sessions (alter (set_isProcessing false) ref) w).
Proof.
  intros H r s Hs. cbn in Hs. destruct (decide (r = ref)) as [-> | Hne].
  - rewrite lookup_alter_eq in Hs. destruct (sessions w !! ref); [| discriminate].
    cbn in Hs. injection Hs as <-. reflexivity.
  - rewrite lookup_alter_ne in Hs by congruence. eapply H; eassumption.
Qed.

Ltac running_tac :=
  intros; cbv beta in *;
  lazymatch goal with
  | H : running _ _ _ |- running _ _ _ =>
    destruct H as [? ?]; split; cbn;
    [assumption | repeat first [assumption | apply quiescentBut_alter]]
  | H : running _ _ _ |- quiescentBut _ _ =>
    destruct H as [? ?]; cbn; repeat first [assumption | apply quiescentBut_alter]
  end.

Lemma endInterview_quiescentBut env socket ref w :
  running socket ref w ->
  wp (endInterview env socket ref)
     (fun _ w' => quiescentBut ref w')
     (fun _ w' => running socket ref w') w.
Proof.
  intros Hr. unfold endInterview. repeat wp_step; try solve [running_tac].
Qed.

Lemma audio_response_quiescent env socket data w :
  quiescent w -> quiescent (exec (audio_response env socket data) w).
Proof.
  intros Hq. apply wp_exec. unfold audio_response.
  wp_step. repeat wp_step.
  destruct (activeInterviews w !! socket_id socket) as [ref |] eqn:Ha.
  2:{ repeat wp_step. exact Hq. }
  assert (Hr : running socket ref w).
  { split; [exact Ha |]. intros r s Hs _. eapply Hq, Hs. }
  apply (wp_mono _ (fun _ w' => quiescent w') _ (fun _ w' => running socket ref w')).
  { auto. }
  { intros e w' [Ha' Hb']. repeat wp_step. cbn. rewrite Ha'.
    wp_step. apply quiescent_assign, Hb'. }
  repeat wp_step; try solve [running_tac].
  destruct (isProcessing s); repeat wp_step; try solve [running_tac | exact Hq].
  apply wp_checkTranscription; [| solve [running_tac]].
  intros [text |]; repeat wp_step;
    try solve [running_tac | apply quiescent_assign; running_tac].
  eapply wp_mono; [| | apply generateNextQuestion_world with
    (P := fun w' => running socket ref w')]; try solve [running_tac].
  intros [question |] w' Hr'; cbv beta in *; repeat wp_step;
    try solve [running_tac | apply quiescent_assign; running_tac].
  eapply wp_mono; [| | apply endInterview_quiescentBut, Hr']; [| auto].
  intros ? w'' Hs. cbv beta in *. wp_step. apply quiescent_assign, Hs.
Qed.

(** The other handlers do not write [isProcessing]; a join creates its
    session with the latch clear. *)
Lemma endInterview_sessions env socket ref (P : gmap nat Session -> Prop) w :
  P (sessions w) ->
  wp (endInterview env socket ref)
     (fun _ w' => P (sessions w')) (fun _ w' => P (sessions w')) w.
Proof. intros HP. unfold endInterview. repeat wp_step; exact HP. Qed.

Lemma generateAndSendFirstQuestion_sessions env socket iv
    (P : gmap nat Session -> Prop) w :
  P (sessions w) ->
  wp (generateAndSendFirstQuestion env socket iv)
     (fun _ w' => P (sessions w')) (fun _ w' => P (sessions w')) w.
Proof.
  intros HP. unfold generateAndSendFirstQuestion. repeat wp_step; exact HP.
Qed.

Lemma wp_findOne env id user post exc w :
  (dbThrows env FindOne = false -> ∀ r, post r w) ->
  (dbThrows env FindOne = true -> ∀ e, exc e w) ->
  wp (findOne env id user) post exc w.
Proof.
  unfold findOne. destruct (dbThrows env FindOne); intros Hp He; cbn; auto.
Qed.

Lemma quiescent_insert ref s (w : World) :
  quiescent w -> isProcessing s = false ->
  quiescent (with_sessions (insert ref s) w).
Proof.
  intros Hq Hs r s' Hl. cbn in Hl. destruct (decide (ref = r)) as [-> | Hne].
  - rewrite lookup_insert_eq in Hl. congruence.
  - rewrite lookup_insert_ne in Hl by exact Hne. eapply Hq, Hl.
Qed.

Lemma handle_quiescent ev w : quiescent w -> quiescent (handle ev w).
Proof.
  intros Hq.
  destruct ev as [env socket data | env socket data | env socket | socket | socket b];
    cbn [handle].
  - apply wp_exec. unfold join_interview. repeat wp_step; try exact Hq.
    apply wp_findOne; intros; repeat wp_step; try exact Hq.
    destruct r as [iv |]; repeat wp_step; try exact Hq.
    destruct (length (questions iv) =? 0)%nat; repeat wp_step.
    + apply generateAndSendFirstQuestion_sessions with (P := fun m =>
        ∀ r s, m !! r = Some s -> isProcessing s = false).
      apply (quiescent_insert _ _ _ Hq). reflexivity.
    + apply (quiescent_insert _ _ _ Hq). reflexivity.
  - apply audio_response_quiescent, Hq.
  - apply wp_exec. unfold end_interview. repeat wp_step.
    destruct (activeInterviews w !! socket_id socket) as [ref |]; repeat wp_step;
      try exact Hq.
    apply endInterview_sessions with (P := fun m =>
      ∀ r s, m !! r = Some s -> isProcessing s = false). exact Hq.
  - exact Hq.
  - apply wp_exec. unfold typing. repeat wp_step.
    destruct (activeInterviews w !! socket_id socket) as [ref |]; repeat wp_step;
      exact Hq.
Qed.

(** X13: after any sequence of events, handled one after the other, no
    session is left latched. *)
Lemma run_quiescent evs w : quiescent w -> quiescent (run evs w).
Proof.
  revert w. induction evs as [| ev evs IH]; intros w Hq; cbn; [exact Hq |].
  apply IH, handle_quiescent, Hq.
Qed.


(** ** The guard and the transcription check *)

Lemma audio_response_rejected env socket data w :
  activeInterviews w !! socket_id socket = None ∨
  (∃ ref s, activeInterviews w !! socket_id socket = Some ref ∧
            sessions w !! ref = Some s ∧ isProcessing s = true) ->
  audio_response env socket data w =
    (Returns tt,
     emitting [(socket_id socket, error "Invalid session or already processing")] w).
Proof.
  intros [Hn | (ref & s & Ha & Hs & Hp)];
    unfold audio_response, tryCatch, bind, activeInterviews_get, gets, deref.
  - rewrite Hn. reflexivity.
  - rewrite Ha, Hs, Hp. reflexivity.
Qed.

(** C2: when an [audio_response] event arrives while the socket has no
    session, or while its session has [isProcessing] set, the handler
    returns after emitting exactly one event, an error, to the socket:
    the interviews (so their responses and questions), the session
    objects, the session map and the rooms are what they were. *)
Theorem C2_rejected_without_side_effects env socket data w :
  activeInterviews w !! socket_id socket = None ∨
  (∃ ref s, activeInterviews w !! socket_id socket = Some ref ∧
            sessions w !! ref = Some s ∧ isProcessing s = true) ->
  let w' := exec (audio_response env socket data) w in
  (∃ message, emitted w' = emitted w ++ [(socket_id socket, error message)]) ∧
  interviews w' = interviews w ∧
  sessions w' = sessions w ∧
  activeInterviews w' = activeInterviews w ∧
  rooms w' = rooms w.
Proof.
  intros H. unfold exec. rewrite (audio_response_rejected _ _ _ _ H). cbn.
  split; [eexists; reflexivity | repeat split].
Qed.

(** C2 at a second submission arriving in the middle of a run. *)
Lemma C2_witness :
  let w' := exec (audio_response Scenario.healthy Scenario.alice
                    (Some Scenario.answer)) Scenario.midRun in
  (∃ message,
     emitted w' = emitted Scenario.midRun
                  ++ [(socket_id Scenario.alice, error message)]) ∧
  interviews w' = interviews Scenario.midRun ∧
  sessions w' = sessions Scenario.midRun ∧
  activeInterviews w' = activeInterviews Scenario.midRun ∧
  rooms w' = rooms Scenario.midRun.
Proof.
  apply C2_rejected_without_side_effects. right.
  exists 0%nat. eexists. repeat split; vm_compute; reflexivity.
Defined.

Lemma set_isProcessing_restore s :
  isProcessing s = false -> set_isProcessing false (set_isProcessing true s) = s.
Proof. destruct s; cbn; intros ->; reflexivity. Qed.

Lemma latch_set_clear ref s (m : gmap nat Session) :
  m !! ref = Some s -> isProcessing s = false ->
  alter (set_isProcessing false) ref (alter (set_isProcessing true) ref m) = m.
Proof.
  intros Hs Hp. rewrite alter_alter_eq. apply alter_id.
  intros s' Hs'. assert (s' = s) as -> by congruence.
  cbn. apply set_isProcessing_restore, Hp.
Qed.

Lemma latch_round_trip ref s w ev1 ev2 :
  sessions w !! ref = Some s -> isProcessing s = false ->
  with_sessions (alter (set_isProcessing false) ref)
    (with_emitted (fun log => log ++ [ev2])
       (with_emitted (fun log => log ++ [ev1])
          (with_sessions (alter (set_isProcessing true) ref) w))) =
  emitting [ev1; ev2] w.
Proof.
  intros Hs Hp. destruct w as [ivs ss act rms log]. cbn in *.
  unfold emitting, with_sessions, with_emitted. cbn.
  rewrite (latch_set_clear _ _ _ Hs Hp), <- app_assoc. reflexivity.
Qed.

(** A run whose transcription does not pass the check: the status event,
    then an error, and nothing else. *)
Lemma audio_response_unusable env socket d w ref s :
  activeInterviews w !! socket_id socket = Some ref ->
  sessions w !! ref = Some s ->
  isProcessing s = false ->
  match transcribeAudio env (audioData d) with
  | Returns (TString text) => trim text = []
  | _ => True
  end ->
  ∃ message,
    exec (audio_response env socket (Some d)) w =
      emitting [(socket_id socket, processing_response transcribing None);
                (socket_id socket, error message)] w.
Proof.
  intros Ha Hs Hp He.
  unfold exec, audio_response, tryCatch, bind, activeInterviews_get, gets, deref.
  rewrite Ha, Hs, Hp. cbn.
  unfold await.
  destruct (transcribeAudio env (audioData d)) as [[| text | o] | e]; cbn in *;
    try rewrite He; cbn; try rewrite Ha; cbn;
    eexists; apply (latch_round_trip _ _ _ _ _ Hs Hp).
Qed.

(** With the speech-to-text service of the repository as transcriber,
    which returns [null] or an object, no answer passes the check: a run
    ends in an error event and persists nothing. *)
Lemma audio_response_speechToText env recognize socket d w ref s :
  transcribeAudio env = speechToText recognize ->
  activeInterviews w !! socket_id socket = Some ref ->
  sessions w !! ref = Some s ->
  isProcessing s = false ->
  ∃ message,
    exec (audio_response env socket (Some d)) w =
      emitting [(socket_id socket, processing_response transcribing None);
                (socket_id socket, error message)] w.
Proof.
  intros Ht Ha Hs Hp. apply (audio_response_unusable _ _ _ _ _ _ Ha Hs Hp).
  rewrite Ht. unfold speechToText.
  destruct (SpeechToTextService.transcribeAudio recognize (audioData d))
    as [[t |] | e]; exact I.
Qed.


(** ** The persisted sequences *)

Lemma grows_refl nr nq (m : gmap string Interview) : grows nr nq m m.
Proof.
  intros id iv H. exists iv, [], []. rewrite !app_nil_r. cbn.
  repeat split; [exact H | lia | lia].
Qed.

Lemma grows_mono nr nq nr' nq' (m m' : gmap string Interview) :
  (nr ≤ nr')%nat -> (nq ≤ nq')%nat -> grows nr nq m m' -> grows nr' nq' m m'.
Proof.
  intros Hr Hq H id iv Hiv.
  destruct (H id iv Hiv) as (iv' & rs & qs & ? & ? & ? & ? & ?).
  exists iv', rs, qs. repeat split; try assumption; lia.
Qed.

Lemma grows_pushResponse nr nq r id (m m' : gmap string Interview) :
  grows nr nq m m' -> grows (S nr) nq m (alter (pushResponse r) id m').
Proof.
  intros H i iv Hiv.
  destruct (H i iv Hiv) as (iv' & rs & qs & Hl & Hr & Hq & Hnr & Hnq).
  destruct (decide (id = i)) as [-> | Hne].
  - exists (pushResponse r iv'), (rs ++ [r]), qs.
    rewrite lookup_alter_eq, Hl. cbn. rewrite Hr, Hq, <- app_assoc, length_app. cbn.
    repeat split; try assumption; lia.
  - exists iv', rs, qs. rewrite lookup_alter_ne by exact Hne.
    repeat split; try assumption; lia.
Qed.

Lemma grows_pushQuestion nr nq q id (m m' : gmap string Interview) :
  grows nr nq m m' -> grows nr (S nq) m (alter (pushQuestion q) id m').
Proof.
  intros H i iv Hiv.
  destruct (H i iv Hiv) as (iv' & rs & qs & Hl & Hr & Hq & Hnr & Hnq).
  destruct (decide (id = i)) as [-> | Hne].
  - exists (pushQuestion q iv'), rs, (qs ++ [q]).
    rewrite lookup_alter_eq, Hl. cbn. rewrite Hr, Hq, <- app_assoc, length_app. cbn.
    repeat split; try assumption; lia.
  - exists iv', rs, qs. rewrite lookup_alter_ne by exact Hne.
    repeat split; try assumption; lia.
Qed.

Lemma grows_setCompleted nr nq ended actual id (m m' : gmap string Interview) :
  grows nr nq m m' -> grows nr nq m (alter (setCompleted ended actual) id m').
Proof.
  intros H i iv Hiv.
  destruct (H i iv Hiv) as (iv' & rs & qs & Hl & Hr & Hq & Hnr & Hnq).
  destruct (decide (id = i)) as [-> | Hne].
  - exists (setCompleted ended actual iv'), rs, qs.
    rewrite lookup_alter_eq, Hl. cbn. repeat split; assumption.
  - exists iv', rs, qs. rewrite lookup_alter_ne by exact Hne.
    repeat split; assumption.
Qed.

Ltac grows_tac :=
  intros; cbv beta in *; cbn;
  repeat first
    [ assumption
    | apply grows_refl
    | apply grows_setCompleted
    | apply grows_pushQuestion
    | apply grows_pushResponse
    | match goal with
      | H : grows ?a ?b ?m ?m' |- grows _ _ ?m ?m' =>
        apply (grows_mono a b); [lia | lia | exact H]
      end ].

Lemma endInterview_grows env socket ref nr nq m w :
  grows nr nq m (interviews w) ->
  wp (endInterview env socket ref)
     (fun _ w' => grows nr nq m (interviews w'))
     (fun _ w' => grows nr nq m (interviews w')) w.
Proof.
  intros Hg. unfold endInterview. repeat wp_step; grows_tac.
Qed.

Lemma generateAndSendFirstQuestion_grows env socket iv nr nq m w :
  grows nr nq m (interviews w) ->
  wp (generateAndSendFirstQuestion env socket iv)
     (fun _ w' => grows nr (S nq) m (interviews w'))
     (fun _ w' => grows nr (S nq) m (interviews w')) w.
Proof.
  intros Hg. unfold generateAndSendFirstQuestion. repeat wp_step; grows_tac.
Qed.

(** A join appends at most the first question. *)
Lemma join_interview_grows env socket data w :
  grows 0 1 (interviews w) (interviews (exec (join_interview env socket data) w)).
Proof.
  apply wp_exec. unfold join_interview.
  repeat wp_step; try solve [grows_tac].
  apply wp_findOne; intros; repeat wp_step; try solve [grows_tac].
  destruct r as [iv |]; repeat wp_step; try solve [grows_tac].
  destruct (length (questions iv) =? 0)%nat; repeat wp_step; try solve [grows_tac].
  eapply wp_mono;
    [| | apply generateAndSendFirstQuestion_grows
           with (nr := 0%nat) (nq := 0%nat) (m := interviews w)];
    try solve [grows_tac].
Qed.

(** A submission appends at most one response and one question. *)
Lemma audio_response_grows env socket data w :
  grows 1 1 (interviews w) (interviews (exec (audio_response env socket data) w)).
Proof.
  apply wp_exec. unfold audio_response.
  wp_step.
  apply (wp_mono _ (fun _ w' => grows 1 1 (interviews w) (interviews w')) _
                   (fun _ w' => grows 1 1 (interviews w) (interviews w'))).
  { auto. }
  { intros e w' Hg. repeat wp_step. cbn.
    destruct (activeInterviews w' !! socket_id socket); repeat wp_step; grows_tac. }
  repeat wp_step.
  destruct (activeInterviews w !! socket_id socket) as [ref |];
    repeat wp_step; try solve [grows_tac].
  destruct (isProcessing s); repeat wp_step; try solve [grows_tac].
  apply wp_checkTranscription; [| solve [grows_tac]].
  intros [text |]; repeat wp_step; try solve [grows_tac].
  eapply wp_mono; [| | apply generateNextQuestion_world with
    (P := fun w' => grows 1 0 (interviews w) (interviews w'))];
    try solve [grows_tac].
  intros [question |] w' Hg; cbv beta in *; repeat wp_step; try solve [grows_tac].
  eapply wp_mono; [| | apply endInterview_grows, Hg]; try solve [grows_tac].
Qed.

Lemma handle_grows ev w : grows 1 1 (interviews w) (interviews (handle ev w)).
Proof.
  destruct ev as [env socket data | env socket data | env socket | socket | socket b];
    cbn [handle].
  - eapply grows_mono; [| | apply join_interview_grows]; lia.
  - apply audio_response_grows.
  - apply wp_exec. unfold end_interview. repeat wp_step.
    destruct (activeInterviews w !! socket_id socket) as [ref |]; repeat wp_step;
      try solve [grows_tac].
    eapply wp_mono;
      [| | apply endInterview_grows
             with (nr := 1%nat) (nq := 1%nat) (m := interviews w)];
      try solve [grows_tac].
  - apply wp_exec. unfold disconnect. repeat wp_step. grows_tac.
  - apply wp_exec. unfold typing. repeat wp_step.
    destruct (activeInterviews w !! socket_id socket) as [ref |]; repeat wp_step;
      try solve [grows_tac].
Qed.

Lemma grows_appendOnly nr nq (m m' : gmap string Interview) :
  grows nr nq m m' -> appendOnly m m'.
Proof.
  intros H id iv Hiv. destruct (H id iv Hiv) as (iv' & rs & qs & Hl & Hr & Hq & _).
  exists iv'. rewrite Hr, Hq.
  repeat split; [exact Hl | |]; apply prefix_app_r; reflexivity.
Qed.

Lemma appendOnly_trans (m1 m2 m3 : gmap string Interview) :
  appendOnly m1 m2 -> appendOnly m2 m3 -> appendOnly m1 m3.
Proof.
  intros H12 H23 id iv Hiv.
  destruct (H12 id iv Hiv) as (iv2 & H2 & Hr2 & Hq2).
  destruct (H23 id iv2 H2) as (iv3 & H3 & Hr3 & Hq3).
  exists iv3. repeat split; [exact H3 | |]; etrans; eassumption.
Qed.

Lemma run_appendOnly evs w : appendOnly (interviews w) (interviews (run evs w)).
Proof.
  revert w. induction evs as [| ev evs IH]; intros w; cbn.
  - eapply grows_appendOnly, (grows_refl 0 0).
  - eapply appendOnly_trans; [| apply IH].
    eapply grows_appendOnly, handle_grows.
Qed.

Lemma appendOnly_lengths (m m' : gmap string Interview) id iv :
  appendOnly m m' -> m !! id = Some iv ->
  ∃ iv', m' !! id = Some iv' ∧
    (length (responses iv) ≤ length (responses iv'))%nat ∧
    (length (questions iv) ≤ length (questions iv'))%nat.
Proof.
  intros H Hiv. destruct (H id iv Hiv) as (iv' & Hl & Hr & Hq).
  exists iv'. repeat split; [exact Hl | |]; apply prefix_length; assumption.
Qed.

(** With a transcriber that returns a text, which is what the check of the
    handler expects and what the speech-to-text service of the repository
    never returns, the responses can outnumber the questions: the interview
    starts with no question and no response; after a join and three
    submissions during which question generation throws, it has one
    question and three responses. *)
Lemma retries_pile_up_responses :
  balanced Scenario.fresh_interview ∧
  ∃ iv,
    interviews (run Scenario.failedRetries
                  (Scenario.world_of Scenario.fresh_interview))
      !! "interview-1"%string = Some iv ∧
    length (questions iv) = 1%nat ∧
    length (responses iv) = 3%nat ∧
    ¬ balanced iv.
Proof.
  split; [unfold balanced; cbn; lia |].
  eexists. split; [vm_compute; reflexivity |].
  split; [reflexivity |]. split; [reflexivity |].
  unfold balanced. cbn. lia.
Qed.


(** ** First question, continuation and end *)

(** C8, as the code has it: a join of an in-progress interview of the
    user that has no question yet, when the generator, the synthesizer and
    the database answer, registers a new session with [isProcessing] false
    and [currentQuestionIndex] 0, the length of the question sequence;
    persists the first question; and emits [first_question] with
    [questionNumber] 1.  The session's [currentQuestionIndex] is still 0
    afterwards: sending the first question does not increment it. *)
Theorem C8_join_without_questions env socket id w iv q buf :
  dbThrows env FindOne = false ->
  interviews w !! id = Some iv ->
  _id iv = id ->
  userId iv = socket_userId socket ->
  status iv = in_progress ->
  questions iv = [] ->
  generateFirstQuestion env (dafId iv) = Returns q ->
  synthesizeSpeech env (q_text q) = Returns (Some buf) ->
  dbThrows env PushQuestion = false ->
  let w' := handle (JoinInterview env socket (Some id)) w in
  let ref := fresh (dom (sessions w)) in
  activeInterviews w' !! socket_id socket = Some ref ∧
  sessions w' !! ref =
    Some {| interviewId := id; session_userId := socket_userId socket;
            interview := iv; currentQuestionIndex := 0;
            isProcessing := false |} ∧
  emitted w' =
    emitted w ++ [(socket_id socket, first_question q 1 buf (panelists iv))] ∧
  interviews w' !! id = Some (pushQuestion q iv).
Proof.
  intros Hf Hiv Hid Hu Hst Hq Hg Hsy Hp. cbv zeta. cbn [handle].
  unfold exec, join_interview, tryCatch, bind, destructure, ret, findOne, gets.
  rewrite Hf, Hiv, Hu, Hst.
  rewrite !bool_decide_eq_true_2 by reflexivity. cbn.
  rewrite Hq. cbn.
  unfold generateAndSendFirstQuestion, tryCatch, bind, await, findByIdAndUpdate.
  rewrite Hg, Hsy, Hp. cbn.
  rewrite !lookup_insert_eq, Hid, lookup_alter_eq, Hiv.
  repeat split.
Qed.

(** C8 at the first join of the fresh interview. *)
Lemma C8_witness :
  let w := Scenario.world_of Scenario.fresh_interview in
  let w' := handle (JoinInterview Scenario.healthy Scenario.alice
                      (Some "interview-1"%string)) w in
  let ref := fresh (dom (sessions w)) in
  activeInterviews w' !! socket_id Scenario.alice = Some ref ∧
  sessions w' !! ref =
    Some {| interviewId := "interview-1";
            session_userId := socket_userId Scenario.alice;
            interview := Scenario.fresh_interview; currentQuestionIndex := 0;
            isProcessing := false |} ∧
  emitted w' =
    emitted w ++
      [(socket_id Scenario.alice,
        first_question (Scenario.questionNo 1) 1 [82; 73; 70; 70]%N
          (panelists Scenario.fresh_interview))] ∧
  interviews w' !! "interview-1"%string
    = Some (pushQuestion (Scenario.questionNo 1) Scenario.fresh_interview).
Proof.
  apply (C8_join_without_questions Scenario.healthy Scenario.alice
           "interview-1"%string (Scenario.world_of Scenario.fresh_interview)
           Scenario.fresh_interview (Scenario.questionNo 1) [82; 73; 70; 70]%N);
    reflexivity.
Defined.

(** The claim of C8 fails in its last part: after the join of the fresh
    interview and the [first_question] event with number 1, the session's
    [currentQuestionIndex] is 0, not 1. *)
Lemma C8_counterexample :
  ∃ s,
    activeInterviews Scenario.joined !! "socket-1"%string = Some 0%nat ∧
    sessions Scenario.joined !! 0%nat = Some s ∧
    emitted Scenario.joined =
      [("socket-1"%string,
        first_question (Scenario.questionNo 1) 1 [82; 73; 70; 70]%N
          InterviewRoutes.defaultPanelists)] ∧
    persisted "interview-1" Scenario.joined = Some (in_progress, None, None, 1%nat, 0%nat) ∧
    isProcessing s = false ∧
    currentQuestionIndex s = 0 ∧
    currentQuestionIndex s ≠ 1.
Proof.
  eexists. split; [vm_compute; reflexivity |].
  split; [vm_compute; reflexivity |].
  split; [vm_compute; reflexivity |].
  split; [vm_compute; reflexivity |].
  split; [reflexivity |]. split; [reflexivity |]. cbn. lia.
Qed.

(** [generateNextQuestion] follows the policy, evaluated on the interview
    the session holds: [null] on End, the generator's answer on Continue;
    it changes nothing. *)
Lemma generateNextQuestion_decision env ref s previousResponse analysis w :
  sessions w !! ref = Some s ->
  generateNextQuestion env ref previousResponse analysis w =
    (match lifecyclePolicy (startedAt (interview s)) (newDate env PolicyTimeElapsed)
             (duration (interview s))
             (Z.of_nat (length (questions (interview s)))) with
     | End_ => Returns None
     | Continue =>
       generateFollowUpQuestion env
         {| fu_daf := dafId (interview s);
            fu_previousQuestions := questions (interview s);
            fu_previousResponse := previousResponse;
            fu_sentimentAnalysis := analysis;
            fu_type := type (interview s);
            fu_difficulty := difficulty (interview s);
            fu_focusAreas := focusAreas (interview s);
            fu_currentQuestionNumber :=
              Z.of_nat (length (questions (interview s))) + 1 |}
     end, w).
Proof.
  intros Hs. unfold generateNextQuestion, tryCatch, bind, deref. rewrite Hs.
  destruct (lifecyclePolicy _ _ _ _); cbn; [| reflexivity].
  unfold await. destruct (generateFollowUpQuestion env _); reflexivity.
Qed.

(** C5: the continuation decision of [generateNextQuestion] is a function
    of the start time, the current time, the duration and the question
    count of the interview the session holds, with the ceiling 15.  The
    method returns [null] (End), without consulting the question
    generator, exactly when the elapsed time is at least the duration
    (in milliseconds: [duration * 60000 <= now - startedAt]) or the
    question count is at least 15; otherwise (Continue) it returns what
    the generator answers for the follow-up, a thrown error included.  In
    particular it ends at 15 questions with no time elapsed, and at zero
    questions once the elapsed time has reached the duration.  The world
    is left as it is. *)
Theorem C5_lifecycle_policy env ref s previousResponse analysis w :
  sessions w !! ref = Some s ->
  let elapsed := newDate env PolicyTimeElapsed - startedAt (interview s) in
  let limit := duration (interview s) * 60000 in
  let count := Z.of_nat (length (questions (interview s))) in
  let decision := generateNextQuestion env ref previousResponse analysis w in
  (limit <= elapsed ∨ 15 <= count -> decision = (Returns None, w)) ∧
  (elapsed < limit ∧ count < 15 ->
     decision =
       (generateFollowUpQuestion env
          (Paths.followUpOf s previousResponse analysis), w)) ∧
  (count = 15 -> elapsed = 0 -> decision = (Returns None, w)) ∧
  (count = 0 -> limit <= elapsed -> decision = (Returns None, w)).
Proof.
  intros Hs. cbv zeta.
  rewrite (generateNextQuestion_decision env ref s previousResponse analysis w Hs).
  unfold lifecyclePolicy.
  pose proof (endCondition_true (startedAt (interview s))
                (newDate env PolicyTimeElapsed) (duration (interview s))
                (Z.of_nat (length (questions (interview s))))) as Hend.
  rewrite timeElapsed_ge in Hend.
  assert (Hyes : duration (interview s) * 60000
                   <= newDate env PolicyTimeElapsed - startedAt (interview s)
                 ∨ 15 <= Z.of_nat (length (questions (interview s))) ->
                 endCondition (startedAt (interview s))
                   (newDate env PolicyTimeElapsed) (duration (interview s))
                   (Z.of_nat (length (questions (interview s)))) = true)
    by apply Hend.
  split; [| split; [| split]].
  - intros H. rewrite (Hyes H). reflexivity.
  - intros [Ht Hc].
    destruct (endCondition _ _ _ _); [| reflexivity].
    destruct Hend as [Hno _]. specialize (Hno eq_refl). lia.
  - intros Hc Ht. rewrite Hyes by (right; lia). reflexivity.
  - intros Hc Ht. rewrite Hyes by (left; exact Ht). reflexivity.
Qed.

(** C5 at the session of [Scenario.joined]: no time elapsed and no
    question in the session's copy, so the generator is asked; thirty
    minutes later the method returns [null]. *)
Lemma C5_witness :
  generateNextQuestion Scenario.healthy 0%nat (str "My answer")
    Scenario.neutralAnalysis Scenario.joined =
    (Returns (Some (Scenario.questionNo 1)), Scenario.joined) ∧
  generateNextQuestion (Scenario.healthyAt 1800000) 0%nat (str "My answer")
    Scenario.neutralAnalysis Scenario.joined =
    (Returns None, Scenario.joined).
Proof.
  assert (Hs : sessions Scenario.joined !! 0%nat = Some Scenario.session0)
    by (vm_compute; reflexivity).
  destruct (C5_lifecycle_policy Scenario.healthy 0%nat Scenario.session0
              (str "My answer") Scenario.neutralAnalysis Scenario.joined Hs)
    as (_ & Hcontinue & _ & _).
  destruct (C5_lifecycle_policy (Scenario.healthyAt 1800000) 0%nat
              Scenario.session0 (str "My answer") Scenario.neutralAnalysis
              Scenario.joined Hs)
    as (Hend & _ & _ & _).
  split.
  - apply Hcontinue. cbn. lia.
  - apply Hend. left. cbn. lia.
Defined.

(** The branch of [audio_response] that ends the interview: taken when the
    policy, evaluated on the interview as the session loaded it at join
    time, says End. *)
Lemma audio_response_end_branch env socket d w ref s text analysis :
  activeInterviews w !! socket_id socket = Some ref ->
  sessions w !! ref = Some s ->
  isProcessing s = false ->
  transcribeAudio env (audioData d) = Returns (TString text) ->
  trim text ≠ [] ->
  analyzeSentiment env text = Returns analysis ->
  dbThrows env PushResponse = false ->
  dbThrows env UpdateCompleted = false ->
  lifecyclePolicy (startedAt (interview s)) (newDate env PolicyTimeElapsed)
    (duration (interview s)) (Z.of_nat (length (questions (interview s)))) = End_ ->
  let w' := exec (audio_response env socket (Some d)) w in
  emitted w' = emitted w ++
    [(socket_id socket, processing_response transcribing None);
     (socket_id socket, processing_response analyzing (Some text));
     (socket_id socket, processing_response generating_question None);
     (socket_id socket,
      interview_ended (interviewId s)
        (Z.of_nat (length (questions (interview s))) + currentQuestionIndex s)
        (roundDiv (newDate env EndedDuration - startedAt (interview s)) 60000))] ∧
  status <$> interviews w' !! interviewId s
    = (fun _ => completed) <$> interviews w !! interviewId s.
Proof.
  intros Ha Hs Hp Ht Hne Hsa Hpr Hup Hend. cbv zeta.
  unfold exec, audio_response, tryCatch, bind, activeInterviews_get, gets, deref.
  rewrite Ha, Hs, Hp. cbn. unfold await. rewrite Ht. cbn.
  destruct (length (trim text) =? 0)%nat eqn:Hl.
  { apply Nat.eqb_eq, length_zero_iff_nil in Hl. contradiction. }
  cbn. rewrite Hsa. unfold findByIdAndUpdate. rewrite Hpr. cbn.
  unfold generateNextQuestion, tryCatch, bind, deref. cbn.
  rewrite lookup_alter_eq, Hs. cbn. rewrite Hend. cbn.
  unfold endInterview, tryCatch, bind, deref, findByIdAndUpdate. cbn.
  rewrite lookup_alter_eq, Hs. cbn. rewrite Hup. cbn.
  split.
  - rewrite <- !app_assoc. reflexivity.
  - rewrite !lookup_alter_eq. destruct (interviews w !! interviewId s); reflexivity.
Qed.

(** C6, evaluated on the code.  A connection joins the fresh interview
    and answers; after 14 answers 15 questions have been asked.  The
    answer to the 15th question is followed by [next_question] with number
    16, no [interview_ended] is emitted and the interview stays in
    progress with 16 questions: the ceiling is compared with the number of
    questions the interview had when the session joined.  With the
    transcriber of the repository the answer of a session that joined at 15
    questions only produces an error event, and the interview stays in
    progress as well. *)
Theorem C6_fifteenth_answer_on_the_code :
  let before := run (Scenario.answered 14) (Scenario.world_of Scenario.fresh_interview) in
  let after := handle (AudioResponse Scenario.healthy Scenario.alice
                         (Some Scenario.answer)) before in
  let before' := handle (JoinInterview Scenario.healthy Scenario.alice
                           (Some "interview-1"%string))
                   (Scenario.world_of (Scenario.interview_with 15)) in
  let after' := handle (AudioResponse Scenario.linked Scenario.alice
                          (Some Scenario.answer)) before' in
  persisted "interview-1" before = Some (in_progress, None, None, 15%nat, 14%nat) ∧
  last (emitted after) =
    Some ("socket-1"%string,
          next_question (Scenario.questionNo 1) 16 [82; 73; 70; 70]%N
            (str "My answer") Scenario.neutralAnalysis) ∧
  List.filter (fun e => isEnded e.2) (emitted after) = [] ∧
  persisted "interview-1" after = Some (in_progress, None, None, 16%nat, 15%nat) ∧
  persisted "interview-1" before' = Some (in_progress, None, None, 15%nat, 14%nat) ∧
  emitted after' = emitted before' ++
    [("socket-1"%string, processing_response transcribing None);
     ("socket-1"%string, error "Failed to process response")] ∧
  persisted "interview-1" after' = Some (in_progress, None, None, 15%nat, 14%nat).
Proof.
  cbv zeta. repeat split; vm_compute; reflexivity.
Qed.

(** *** Ending an interview *)

Lemma endInterview_run env socket ref s w :
  sessions w !! ref = Some s ->
  dbThrows env UpdateCompleted = false ->
  endInterview env socket ref w =
    (Returns tt,
     emitting
       [(socket_id socket,
         interview_ended (interviewId s)
           (Z.of_nat (length (questions (interview s))) + currentQuestionIndex s)
           (roundDiv (newDate env EndedDuration - startedAt (interview s)) 60000))]
       (with_activeInterviews (delete (socket_id socket))
          (with_rooms
             (alter (fun members => members ∖ {[socket_id socket]})
                (roomOf (interviewId s)))
             (with_interviews
                (alter (setCompleted (newDate env EndedAt)
                          (roundDiv (newDate env ActualDuration
                                     - startedAt (interview s)) 60000))
                   (interviewId s)) w)))).
Proof.
  intros Hs Hdb.
  unfold endInterview, tryCatch, bind, deref, findByIdAndUpdate.
  rewrite Hs, Hdb. reflexivity.
Qed.

Lemma end_interview_no_session env socket w :
  activeInterviews w !! socket_id socket = None ->
  end_interview env socket w = (Returns tt, w).
Proof.
  intros Hn. unfold end_interview, tryCatch, bind, activeInterviews_get, gets.
  rewrite Hn. reflexivity.
Qed.

(** C7, as the code has it: [endInterview] has no guard on the status.
    An [end_interview] event of a connection with a session sets the
    status to completed, stores [endedAt] and [actualDuration] computed
    from the clock, removes the session and emits the summary; it appends
    nothing.  A further [end_interview] event on that connection finds no
    session and changes and emits nothing.  A further call of the method
    on the same session with the same clock readings leaves the persisted
    interviews as they are and emits the same summary again. *)
Theorem C7_end_interview_repeated env socket w ref s :
  activeInterviews w !! socket_id socket = Some ref ->
  sessions w !! ref = Some s ->
  dbThrows env UpdateCompleted = false ->
  let summary :=
    interview_ended (interviewId s)
      (Z.of_nat (length (questions (interview s))) + currentQuestionIndex s)
      (roundDiv (newDate env EndedDuration - startedAt (interview s)) 60000) in
  let w1 := handle (EndInterview env socket) w in
  interviews w1 =
    alter (setCompleted (newDate env EndedAt)
             (roundDiv (newDate env ActualDuration - startedAt (interview s)) 60000))
      (interviewId s) (interviews w) ∧
  emitted w1 = emitted w ++ [(socket_id socket, summary)] ∧
  (∀ env', handle (EndInterview env' socket) w1 = w1) ∧
  (let w2 := exec (endInterview env socket ref) w1 in
   interviews w2 = interviews w1 ∧
   emitted w2 = emitted w1 ++ [(socket_id socket, summary)]).
Proof.
  intros Ha Hs Hdb. cbv zeta.
  assert (Hw1 : handle (EndInterview env socket) w =
                (endInterview env socket ref w).2).
  { cbn [handle].
    unfold exec, end_interview, tryCatch, bind, activeInterviews_get, gets.
    rewrite Ha. rewrite (endInterview_run _ _ _ _ _ Hs Hdb). reflexivity. }
  rewrite Hw1, (endInterview_run _ _ _ _ _ Hs Hdb). cbn [snd].
  split; [reflexivity |]. split; [reflexivity |].
  split.
  - intros env'. cbn [handle]. unfold exec.
    rewrite end_interview_no_session; [reflexivity |].
    cbn. apply lookup_delete_eq.
  - unfold exec. rewrite (endInterview_run _ _ _ s); [| exact Hs | exact Hdb].
    cbn. split; [| reflexivity].
    rewrite alter_alter_eq. apply alter_ext. intros iv _. reflexivity.
Qed.

(** C7 at the end of the interview joined in [Scenario.joined], after ten
    minutes. *)
Lemma C7_witness :
  let env := Scenario.healthyAt 600000 in
  let summary := interview_ended "interview-1" 0 10 in
  let w1 := handle (EndInterview env Scenario.alice) Scenario.joined in
  interviews w1 =
    alter (setCompleted 600000 10) "interview-1"%string
      (interviews Scenario.joined) ∧
  emitted w1 = emitted Scenario.joined ++ [("socket-1"%string, summary)] ∧
  (∀ env', handle (EndInterview env' Scenario.alice) w1 = w1) ∧
  (let w2 := exec (endInterview env Scenario.alice 0%nat) w1 in
   interviews w2 = interviews w1 ∧
   emitted w2 = emitted w1 ++ [("socket-1"%string, summary)]).
Proof.
  apply (C7_end_interview_repeated (Scenario.healthyAt 600000) Scenario.alice
           Scenario.joined 0%nat
           {| interviewId := "interview-1"; session_userId := "user-1";
              interview := Scenario.fresh_interview; currentQuestionIndex := 0;
              isProcessing := false |});
    vm_compute; reflexivity.
Defined.

(** The claim of C7 fails: two connections of the user have joined the
    interview; the first ends it after 10 minutes, which leaves it
    completed; the end requested by the second after 20 minutes rewrites
    [endedAt] and [actualDuration], and its summary reports another
    duration.  Likewise when the method is called twice on one session. *)
Lemma C7_counterexample :
  let start := Scenario.world_of (Scenario.interview_with 1) in
  let once := run (take 3 Scenario.endedTwice) start in
  let twice := run Scenario.endedTwice start in
  let again :=
    exec (endInterview (Scenario.healthyAt 1200000) Scenario.alice 0%nat) once in
  persisted "interview-1" once
    = Some (completed, Some 600000, Some 10, 1%nat, 0%nat) ∧
  persisted "interview-1" twice
    = Some (completed, Some 1200000, Some 20, 1%nat, 0%nat) ∧
  List.filter (fun e => isEnded e.2) (emitted twice) =
    [("socket-1"%string, interview_ended "interview-1" 2 10);
     ("socket-2"%string, interview_ended "interview-1" 2 20)] ∧
  persisted "interview-1" again
    = Some (completed, Some 1200000, Some 20, 1%nat, 0%nat) ∧
  List.filter (fun e => isEnded e.2) (emitted again) =
    [("socket-1"%string, interview_ended "interview-1" 2 10);
     ("socket-1"%string, interview_ended "interview-1" 2 20)].
Proof.
  cbv zeta. repeat split; vm_compute; reflexivity.
Qed.


(** ** Starting an interview *)

Module StartRoute.

Import InterviewRoutes.

Lemma findOngoing_None user (m : gmap string Interview) :
  findOngoing user m = None <-> inProgressOf user m = ∅.
Proof.
  unfold findOngoing. rewrite <- map_to_list_empty_iff.
  destruct (map_to_list (inProgressOf user m)) as [| kv l]; cbn; split;
    intros H; try reflexivity; discriminate.
Qed.

(** The interview reported by the 400 reply is one of the user's
    interviews in progress. *)
Lemma findOngoing_Some user (m : gmap string Interview) iv :
  findOngoing user m = Some iv ->
  ∃ id, m !! id = Some iv ∧ userId iv = user ∧ status iv = in_progress.
Proof.
  unfold findOngoing.
  destruct (map_to_list (inProgressOf user m)) as [| [id iv'] l] eqn:Hl;
    cbn; [discriminate |].
  intros [= <-]. exists id.
  assert (Hin : (id, iv') ∈ map_to_list (inProgressOf user m))
    by (rewrite Hl; left).
  apply elem_of_map_to_list in Hin. unfold inProgressOf in Hin.
  apply map_lookup_filter_Some in Hin. cbn in Hin. tauto.
Qed.

Lemma inProgressOf_insert_same user id iv (m : gmap string Interview) :
  m !! id = None -> userId iv = user -> status iv = in_progress ->
  inProgressOf user m = ∅ ->
  size (inProgressOf user (<[id := iv]> m)) = 1%nat.
Proof.
  intros Hf Hu Hs He. unfold inProgressOf in *.
  rewrite map_filter_insert_True by (cbn; tauto).
  rewrite He, insert_empty. apply map_size_singleton.
Qed.


Lemma atMostOneInProgress_singleton id iv :
  atMostOneInProgress {[ id := iv ]}.
Proof.
  intros user. unfold inProgressOf. rewrite map_filter_singleton.
  case_decide; [rewrite map_size_singleton | rewrite map_size_empty]; lia.
Qed.



(** When nothing is in progress for the user, the request is valid and the
    database answers, the interview is created with status 201. *)
Example start_creates :
  let db := {| interviews := ∅; dafs := dafs Scenario.oneInProgress |} in
  statusCode (start Scenario.startAgain db).1 = 201 ∧
  (status <$> interviews (start Scenario.startAgain db).2 !! "interview-2"%string)
    = Some in_progress ∧
  (duration <$> interviews (start Scenario.startAgain db).2 !! "interview-2"%string)
    = Some 45.
Proof. cbv zeta. repeat split; vm_compute; reflexivity. Qed.

End StartRoute.


(** * Further properties of the socket service *)

Import Paths.

(** ** Joining *)

Lemma findOne_run env id user w :
  dbThrows env FindOne = false ->
  findOne env id user w =
    (Returns
       match interviews w !! id with
       | Some iv =>
         if bool_decide (userId iv = user) && bool_decide (status iv = in_progress)
         then Some iv else None
       | None => None
       end, w).
Proof. intros H. unfold findOne. rewrite H. reflexivity. Qed.

(** X1: a join that names an interview which does not exist, belongs to
    another user or is no longer in progress only sends the error
    'Invalid or inactive interview session' to the socket: no session is
    registered, no room is joined and nothing is stored. *)
Theorem join_interview_rejected env socket id w :
  dbThrows env FindOne = false ->
  (∀ iv, interviews w !! id = Some iv ->
     userId iv ≠ socket_userId socket ∨ status iv ≠ in_progress) ->
  handle (JoinInterview env socket (Some id)) w =
    emitting [(socket_id socket, error "Invalid or inactive interview session")] w.
Proof.
  intros Hdb Hno. cbn [handle].
  unfold exec, join_interview, tryCatch, bind, destructure, ret.
  rewrite (findOne_run _ _ _ _ Hdb).
  destruct (interviews w !! id) as [iv |] eqn:Hiv; [| reflexivity].
  destruct (Hno iv eq_refl) as [Hu | Hs].
  - rewrite (bool_decide_eq_false_2 _ Hu). reflexivity.
  - rewrite (bool_decide_eq_false_2 _ Hs), andb_false_r. reflexivity.
Qed.

(** X1 at a join of somebody else's interview. *)
Lemma join_interview_rejected_witness :
  handle (JoinInterview Scenario.healthy Scenario.mallory
            (Some "interview-1"%string))
    (Scenario.world_of Scenario.fresh_interview) =
  emitting [("socket-9"%string, error "Invalid or inactive interview session")]
    (Scenario.world_of Scenario.fresh_interview).
Proof.
  apply (join_interview_rejected Scenario.healthy Scenario.mallory
           "interview-1"%string (Scenario.world_of Scenario.fresh_interview));
    [reflexivity |].
  intros iv Hiv. vm_compute in Hiv. injection Hiv as <-. left. discriminate.
Defined.

(** X2: a join of an in-progress interview of the user that already has
    questions asks for no question and stores nothing: it registers a new
    session whose [currentQuestionIndex] is the number of questions, with
    the latch clear, puts the socket in the interview's room and sends
    [interview_state] with the last question, its number and the total
    both equal to the number of questions. *)
Theorem join_interview_rejoin env socket id w iv :
  dbThrows env FindOne = false ->
  interviews w !! id = Some iv ->
  userId iv = socket_userId socket ->
  status iv = in_progress ->
  questions iv ≠ [] ->
  let n := Z.of_nat (length (questions iv)) in
  let ref := fresh (dom (sessions w)) in
  let w' := handle (JoinInterview env socket (Some id)) w in
  interviews w' = interviews w ∧
  activeInterviews w' = <[socket_id socket := ref]> (activeInterviews w) ∧
  sessions w' =
    <[ref := {| interviewId := id; session_userId := socket_userId socket;
                interview := iv; currentQuestionIndex := n;
                isProcessing := false |}]> (sessions w) ∧
  socket_id socket ∈ default ∅ (rooms w' !! roomOf id) ∧
  emitted w' = emitted w ++
    [(socket_id socket,
      interview_state (last (questions iv)) n n
        (roundDiv (newDate env StateTimeElapsed - startedAt iv) 1000))] ∧
  is_Some (last (questions iv)).
Proof.
  intros Hdb Hiv Hu Hs Hq. cbv zeta. cbn [handle].
  unfold exec, join_interview, tryCatch, bind, destructure, ret.
  rewrite (findOne_run _ _ _ _ Hdb), Hiv, Hu, Hs.
  rewrite !bool_decide_eq_true_2 by reflexivity. cbn.
  destruct (questions iv) as [| q qs] eqn:Hqs; [contradiction |]. cbn.
  repeat split.
  - rewrite lookup_insert_eq. cbn. set_solver.
  - apply last_is_Some. discriminate.
Qed.

(** X2 at a join of an interview with three questions. *)
Lemma join_interview_rejoin_witness :
  let w := Scenario.world_of (Scenario.interview_with 3) in
  let iv := Scenario.interview_with 3 in
  let ref := fresh (dom (sessions w)) in
  let w' := handle (JoinInterview Scenario.healthy Scenario.alice
                      (Some "interview-1"%string)) w in
  interviews w' = interviews w ∧
  activeInterviews w' = <["socket-1"%string := ref]> (activeInterviews w) ∧
  sessions w' =
    <[ref := {| interviewId := "interview-1"; session_userId := "user-1";
                interview := iv; currentQuestionIndex := 3;
                isProcessing := false |}]> (sessions w) ∧
  "socket-1"%string ∈ default ∅ (rooms w' !! roomOf "interview-1") ∧
  emitted w' = emitted w ++
    [("socket-1"%string,
      interview_state (last (questions iv)) 3 3
        (roundDiv (0 - startedAt iv) 1000))] ∧
  is_Some (last (questions iv)).
Proof.
  apply (join_interview_rejoin Scenario.healthy Scenario.alice
           "interview-1"%string (Scenario.world_of (Scenario.interview_with 3))
           (Scenario.interview_with 3));
    [reflexivity | reflexivity | reflexivity | reflexivity | discriminate].
Defined.

(** X3: when the first question of a joined interview cannot be delivered
    (the generator or the synthesizer throws, or the question cannot be
    stored), the socket gets the error 'Failed to generate first question'
    and nothing is stored, but the join is not undone: the session stays
    registered with [currentQuestionIndex] 0 and the latch clear. *)
Theorem join_interview_first_question_fails env socket id w iv :
  dbThrows env FindOne = false ->
  interviews w !! id = Some iv ->
  userId iv = socket_userId socket ->
  status iv = in_progress ->
  questions iv = [] ->
  firstQuestionFails env iv ->
  let ref := fresh (dom (sessions w)) in
  let w' := handle (JoinInterview env socket (Some id)) w in
  interviews w' = interviews w ∧
  activeInterviews w' !! socket_id socket = Some ref ∧
  sessions w' !! ref =
    Some {| interviewId := id; session_userId := socket_userId socket;
            interview := iv; currentQuestionIndex := 0;
            isProcessing := false |} ∧
  emitted w' = emitted w ++
    [(socket_id socket, error "Failed to generate first question")].
Proof.
  intros Hdb Hiv Hu Hs Hq Hf. cbv zeta. cbn [handle].
  unfold exec, join_interview, tryCatch, bind, destructure, ret.
  rewrite (findOne_run _ _ _ _ Hdb), Hiv, Hu, Hs.
  rewrite !bool_decide_eq_true_2 by reflexivity. cbn.
  rewrite Hq. cbn.
  unfold generateAndSendFirstQuestion, tryCatch, bind, await, findByIdAndUpdate.
  unfold firstQuestionFails in Hf.
  destruct (generateFirstQuestion env (dafId iv)) as [q | e]; cbn.
  - destruct (synthesizeSpeech env (q_text q)) as [b | e]; cbn.
    + rewrite Hf. cbn. rewrite !lookup_insert_eq. repeat split.
    + rewrite !lookup_insert_eq. repeat split.
  - rewrite !lookup_insert_eq. repeat split.
Qed.

(** X3 at a join during which the synthesizer is down. *)
Lemma join_interview_first_question_fails_witness :
  let w := Scenario.world_of Scenario.fresh_interview in
  let ref := fresh (dom (sessions w)) in
  let w' := handle (JoinInterview Scenario.synthesizerDown Scenario.alice
                      (Some "interview-1"%string)) w in
  interviews w' = interviews w ∧
  activeInterviews w' !! "socket-1"%string = Some ref ∧
  sessions w' !! ref =
    Some {| interviewId := "interview-1"; session_userId := "user-1";
            interview := Scenario.fresh_interview; currentQuestionIndex := 0;
            isProcessing := false |} ∧
  emitted w' = emitted w ++
    [("socket-1"%string, error "Failed to generate first question")].
Proof.
  apply (join_interview_first_question_fails Scenario.synthesizerDown
           Scenario.alice "interview-1"%string
           (Scenario.world_of Scenario.fresh_interview) Scenario.fresh_interview);
    [reflexivity | reflexivity | reflexivity | reflexivity | reflexivity
    | exact I].
Defined.


(** ** Answers *)

Lemma World_ext (w1 w2 : World) :
  interviews w1 = interviews w2 -> sessions w1 = sessions w2 ->
  activeInterviews w1 = activeInterviews w2 -> rooms w1 = rooms w2 ->
  emitted w1 = emitted w2 -> w1 = w2.
Proof. destruct w1, w2. cbn. intros; subst; reflexivity. Qed.

(** Reading the fields of a world written with the setters. *)
Ltac fields :=
  cbn [fst snd interviews sessions activeInterviews rooms emitted with_interviews
       with_sessions with_activeInterviews with_rooms with_emitted emitting].

(** Entering the run: the guard passes and the transcription is accepted. *)
Ltac enter_run Ht :=
  let Ha := fresh "Ha" in let Hs := fresh "Hs" in let Hp := fresh "Hp" in
  let Htr := fresh "Htr" in let Hne := fresh "Hne" in let Hl := fresh "Hl" in
  destruct Ht as (Ha & Hs & Hp & Htr & Hne);
  unfold exec, audio_response, tryCatch, bind, activeInterviews_get, gets, deref;
  rewrite Ha, Hs, Hp; cbn; unfold await; rewrite Htr; cbn;
  match goal with
  | |- context [(length (trim ?t) =? 0)%nat] =>
    destruct (length (trim t) =? 0)%nat eqn:Hl;
    [apply Nat.eqb_eq, length_zero_iff_nil in Hl; contradiction |]
  end; cbn.

(** X4: an answer that is transcribed and scored while the policy says
    Continue, and whose next question is generated, synthesized and stored,
    appends exactly one response and then one question to the session's
    interview, increments the session's [currentQuestionIndex] by one with
    the latch clear again, and sends the three status events followed by
    [next_question], whose [questionNumber] is the old index plus two. *)
Theorem audio_response_continues env socket d w ref s text analysis q buf :
  transcribed env socket d w ref s text ->
  analyzeSentiment env text = Returns analysis ->
  dbThrows env PushResponse = false ->
  policyOf env s = Continue ->
  generateFollowUpQuestion env (followUpOf s text analysis) = Returns (Some q) ->
  synthesizeSpeech env (q_text q) = Returns (Some buf) ->
  dbThrows env PushQuestion = false ->
  exec (audio_response env socket (Some d)) w =
    with_sessions (alter increment_currentQuestionIndex ref)
      (with_interviews
         (alter (fun iv => pushQuestion q (pushResponse (responseOf env d text analysis) iv))
            (interviewId s))
         (emitting
            [(socket_id socket, processing_response transcribing None);
             (socket_id socket, processing_response analyzing (Some text));
             (socket_id socket, processing_response generating_question None);
             (socket_id socket,
              next_question q (currentQuestionIndex s + 2) buf text analysis)] w)).
Proof.
  intros Ht Hsa Hpr Hpol Hg Hsy Hpq. enter_run Ht. rewrite Hsa.
  unfold findByIdAndUpdate. rewrite Hpr. cbn.
  unfold generateNextQuestion, tryCatch, bind, deref. cbn.
  rewrite lookup_alter_eq, Hs. cbn.
  unfold policyOf in Hpol. rewrite Hpol. unfold await.
  unfold followUpOf in Hg. rewrite Hg. cbn. rewrite Hsy. cbn. rewrite Hpq. cbn.
  rewrite !lookup_alter_eq, Hs. cbn.
  apply World_ext; fields; try reflexivity.
  - rewrite alter_alter_eq. reflexivity.
  - rewrite !alter_alter_eq. apply alter_ext. intros s' Hs'.
    assert (s' = s) as -> by congruence.
    destruct s; cbn in Hp |- *; subst; reflexivity.
  - rewrite <- !app_assoc.
    replace (currentQuestionIndex s + 1 + 1) with (currentQuestionIndex s + 2)
      by lia.
    reflexivity.
Qed.

(** X4 at the first answer of the connection of [Scenario.joined]. *)
Lemma audio_response_continues_witness :
  exec (audio_response Scenario.healthy Scenario.alice (Some Scenario.answer))
    Scenario.joined =
  with_sessions (alter increment_currentQuestionIndex 0%nat)
    (with_interviews
       (alter
          (fun iv =>
             pushQuestion (Scenario.questionNo 1)
               (pushResponse
                  (responseOf Scenario.healthy Scenario.answer (str "My answer")
                     Scenario.neutralAnalysis) iv))
          "interview-1"%string)
       (emitting
          [("socket-1"%string, processing_response transcribing None);
           ("socket-1"%string,
            processing_response analyzing (Some (str "My answer")));
           ("socket-1"%string, processing_response generating_question None);
           ("socket-1"%string,
            next_question (Scenario.questionNo 1) (0 + 2) [82; 73; 70; 70]%N
              (str "My answer") Scenario.neutralAnalysis)] Scenario.joined)).
Proof.
  apply (audio_response_continues Scenario.healthy Scenario.alice Scenario.answer
           Scenario.joined 0%nat Scenario.session0 (str "My answer")
           Scenario.neutralAnalysis (Scenario.questionNo 1) [82; 73; 70; 70]%N);
    try reflexivity.
  repeat split; try (vm_compute; reflexivity). discriminate.
Defined.

(** X5: an answer that is transcribed and scored once the interview's
    duration has elapsed, or once the interview as the session loaded it
    has 15 questions, ends the interview: the response is stored, the
    interview is marked completed with [endedAt] and [actualDuration], the
    socket leaves the room, its session is removed from the map, and the
    three status events are followed by [interview_ended] and by no
    question. *)
Theorem audio_response_ends_interview env socket d w ref s text analysis :
  transcribed env socket d w ref s text ->
  analyzeSentiment env text = Returns analysis ->
  dbThrows env PushResponse = false ->
  dbThrows env UpdateCompleted = false ->
  duration (interview s) * 60000
    <= newDate env PolicyTimeElapsed - startedAt (interview s)
  ∨ 15 <= Z.of_nat (length (questions (interview s))) ->
  exec (audio_response env socket (Some d)) w =
    with_activeInterviews (delete (socket_id socket))
      (with_rooms
         (alter (fun members => members ∖ {[socket_id socket]})
            (roomOf (interviewId s)))
         (with_interviews
            (alter
               (fun iv =>
                  setCompleted (newDate env EndedAt)
                    (roundDiv (newDate env ActualDuration - startedAt (interview s))
                       60000)
                    (pushResponse (responseOf env d text analysis) iv))
               (interviewId s))
            (emitting
               [(socket_id socket, processing_response transcribing None);
                (socket_id socket, processing_response analyzing (Some text));
                (socket_id socket, processing_response generating_question None);
                (socket_id socket,
                 interview_ended (interviewId s)
                   (Z.of_nat (length (questions (interview s)))
                    + currentQuestionIndex s)
                   (roundDiv (newDate env EndedDuration - startedAt (interview s))
                      60000))] w))).
Proof.
  intros Ht Hsa Hpr Hup Hend.
  assert (Hpol : policyOf env s = End_).
  { unfold policyOf, lifecyclePolicy.
    replace (endCondition _ _ _ _) with true; [reflexivity |].
    symmetry. apply endCondition_true.
    destruct Hend as [Htime | Hcount]; [left | right; exact Hcount].
    apply timeElapsed_ge, Htime. }
  enter_run Ht. rewrite Hsa.
  unfold findByIdAndUpdate. rewrite Hpr. cbn.
  unfold generateNextQuestion, tryCatch, bind, deref. cbn.
  rewrite lookup_alter_eq, Hs. cbn.
  unfold policyOf in Hpol. rewrite Hpol. cbn.
  unfold endInterview, tryCatch, bind, deref, findByIdAndUpdate. cbn.
  rewrite lookup_alter_eq, Hs. cbn. rewrite Hup. cbn.
  apply World_ext; fields; try reflexivity.
  - rewrite alter_alter_eq. reflexivity.
  - apply (latch_set_clear _ _ _ Hs Hp).
  - rewrite <- !app_assoc. reflexivity.
Qed.

(** X5 at an answer given 30 minutes after the start of a 30 minute
    interview. *)
Lemma audio_response_ends_interview_witness :
  let env := Scenario.healthyAt 1800000 in
  exec (audio_response env Scenario.alice (Some Scenario.answer)) Scenario.joined =
  with_activeInterviews (delete "socket-1"%string)
    (with_rooms
       (alter (fun members => members ∖ {["socket-1"%string]})
          (roomOf "interview-1"))
       (with_interviews
          (alter
             (fun iv =>
                setCompleted 1800000 (roundDiv (1800000 - 0) 60000)
                  (pushResponse
                     (responseOf env Scenario.answer (str "My answer")
                        Scenario.neutralAnalysis) iv))
             "interview-1"%string)
          (emitting
             [("socket-1"%string, processing_response transcribing None);
              ("socket-1"%string,
               processing_response analyzing (Some (str "My answer")));
              ("socket-1"%string, processing_response generating_question None);
              ("socket-1"%string,
               interview_ended "interview-1" (0 + 0)
                 (roundDiv (1800000 - 0) 60000))] Scenario.joined))).
Proof.
  apply (audio_response_ends_interview (Scenario.healthyAt 1800000) Scenario.alice
           Scenario.answer Scenario.joined 0%nat Scenario.session0
           (str "My answer") Scenario.neutralAnalysis);
    try reflexivity.
  - repeat split; try (vm_compute; reflexivity). discriminate.
  - left. cbn. lia.
Defined.

(** X6: when the scorer throws, the transcript is not stored: the socket
    gets the two status events and the error 'Failed to process
    response', and the interviews, the session objects (latch clear), the
    session map and the rooms are what they were. *)
Theorem audio_response_scorer_fails env socket d w ref s text e :
  transcribed env socket d w ref s text ->
  analyzeSentiment env text = Throws e ->
  exec (audio_response env socket (Some d)) w =
    emitting
      [(socket_id socket, processing_response transcribing None);
       (socket_id socket, processing_response analyzing (Some text));
       (socket_id socket, error "Failed to process response")] w.
Proof.
  intros Ht Hsa. enter_run Ht. rewrite Hsa. cbn. rewrite Ha. cbn.
  apply World_ext; fields; try reflexivity.
  - apply (latch_set_clear _ _ _ Hs Hp).
  - rewrite <- !app_assoc. reflexivity.
Qed.

(** X6 at an answer given while the scorer is down. *)
Lemma audio_response_scorer_fails_witness :
  exec (audio_response Scenario.scorerDown Scenario.alice (Some Scenario.answer))
    Scenario.joined =
  emitting
    [("socket-1"%string, processing_response transcribing None);
     ("socket-1"%string, processing_response analyzing (Some (str "My answer")));
     ("socket-1"%string, error "Failed to process response")] Scenario.joined.
Proof.
  apply (audio_response_scorer_fails Scenario.scorerDown Scenario.alice
           Scenario.answer Scenario.joined 0%nat Scenario.session0
           (str "My answer") (Err "Failed to analyze sentiment"));
    [| reflexivity].
  repeat split; try (vm_compute; reflexivity). discriminate.
Defined.

(** X7: when the answer is transcribed, scored and stored, the policy says
    Continue, and then the next question cannot be delivered (the generator
    or the synthesizer throws, or the question cannot be stored), the
    response stays stored and no question is: the only changes are the
    appended response and the events, which end with the error 'Failed to
    process response'; the session keeps its index and its latch is
    clear. *)
Theorem audio_response_next_question_fails env socket d w ref s text analysis :
  transcribed env socket d w ref s text ->
  analyzeSentiment env text = Returns analysis ->
  dbThrows env PushResponse = false ->
  nextQuestionFails env s text analysis ->
  exec (audio_response env socket (Some d)) w =
    with_interviews
      (alter (pushResponse (responseOf env d text analysis)) (interviewId s))
      (emitting
         [(socket_id socket, processing_response transcribing None);
          (socket_id socket, processing_response analyzing (Some text));
          (socket_id socket, processing_response generating_question None);
          (socket_id socket, error "Failed to process response")] w).
Proof.
  intros Ht Hsa Hpr [Hpol Hf]. enter_run Ht. rewrite Hsa.
  unfold findByIdAndUpdate. rewrite Hpr. cbn.
  unfold generateNextQuestion, tryCatch, bind, deref. cbn.
  rewrite lookup_alter_eq, Hs. cbn.
  unfold policyOf in Hpol. rewrite Hpol. unfold await.
  unfold followUpOf in Hf.
  assert (Hfin :
    with_sessions (alter (set_isProcessing false) ref)
      (with_emitted (fun log => log ++ [(socket_id socket, error "Failed to process response")])
        (with_emitted (fun log => log ++ [(socket_id socket, processing_response generating_question None)])
          (with_interviews (alter (pushResponse (responseOf env d text analysis)) (interviewId s))
            (with_emitted (fun log => log ++ [(socket_id socket, processing_response analyzing (Some text))])
              (with_emitted (fun log => log ++ [(socket_id socket, processing_response transcribing None)])
                (with_sessions (alter (set_isProcessing true) ref) w)))))) =
    with_interviews
      (alter (pushResponse (responseOf env d text analysis)) (interviewId s))
      (emitting
         [(socket_id socket, processing_response transcribing None);
          (socket_id socket, processing_response analyzing (Some text));
          (socket_id socket, processing_response generating_question None);
          (socket_id socket, error "Failed to process response")] w)).
  { apply World_ext; fields; try reflexivity.
    - apply (latch_set_clear _ _ _ Hs Hp).
    - rewrite <- !app_assoc. reflexivity. }
  destruct (generateFollowUpQuestion env _) as [[q |] | e]; cbn.
  - destruct (synthesizeSpeech env (q_text q)) as [b | e]; cbn.
    + rewrite Hf. cbn. rewrite Ha. cbn. exact Hfin.
    + rewrite Ha. cbn. exact Hfin.
  - contradiction.
  - rewrite Ha. cbn. exact Hfin.
Qed.

(** X7 at an answer given while the question generator is down. *)
Lemma audio_response_next_question_fails_witness :
  exec (audio_response Scenario.generatorDown Scenario.alice (Some Scenario.answer))
    Scenario.joined =
  with_interviews
    (alter
       (pushResponse
          (responseOf Scenario.generatorDown Scenario.answer (str "My answer")
             Scenario.neutralAnalysis))
       "interview-1"%string)
    (emitting
       [("socket-1"%string, processing_response transcribing None);
        ("socket-1"%string, processing_response analyzing (Some (str "My answer")));
        ("socket-1"%string, processing_response generating_question None);
        ("socket-1"%string, error "Failed to process response")] Scenario.joined).
Proof.
  apply (audio_response_next_question_fails Scenario.generatorDown Scenario.alice
           Scenario.answer Scenario.joined 0%nat Scenario.session0
           (str "My answer") Scenario.neutralAnalysis);
    try reflexivity.
  - repeat split; try (vm_compute; reflexivity). discriminate.
  - split; [reflexivity | exact I].
Defined.

(** ** Ending, leaving, typing *)

(** X8: the handler of a disconnect removes the socket's entry from the
    session map: the interviews (which stay in progress), the session
    objects and the log are untouched, and so are the entries of the other
    sockets.  Afterwards an [audio_response] of the socket is rejected
    with the error event, and its [end_interview] and [typing] events
    change nothing. *)
Theorem disconnect_then_ignored socket w :
  let w1 := handle (Disconnect socket) w in
  interviews w1 = interviews w ∧
  sessions w1 = sessions w ∧
  emitted w1 = emitted w ∧
  activeInterviews w1 !! socket_id socket = None ∧
  (∀ sid, sid ≠ socket_id socket ->
     activeInterviews w1 !! sid = activeInterviews w !! sid) ∧
  (∀ env data,
     handle (AudioResponse env socket data) w1 =
     emitting [(socket_id socket, error "Invalid session or already processing")] w1) ∧
  (∀ env, handle (EndInterview env socket) w1 = w1) ∧
  (∀ isTyping, handle (Typing socket isTyping) w1 = w1).
Proof.
  cbv zeta.
  assert (Hn : activeInterviews (handle (Disconnect socket) w) !! socket_id socket
               = None) by (cbn; apply lookup_delete_eq).
  split; [reflexivity |]. split; [reflexivity |]. split; [reflexivity |].
  split; [exact Hn |].
  split; [intros sid Hne; cbn; rewrite lookup_delete_ne by congruence; reflexivity |].
  generalize dependent (handle (Disconnect socket) w). intros w1 Hn.
  split; [| split].
  - intros env data. cbn [handle]. unfold exec.
    rewrite audio_response_rejected; [reflexivity | left; exact Hn].
  - intros env. cbn [handle]. unfold exec.
    rewrite end_interview_no_session by exact Hn. reflexivity.
  - intros b. cbn [handle]. unfold exec, typing, bind, activeInterviews_get, gets.
    rewrite Hn. reflexivity.
Qed.

(** X9: a [typing] event of a socket with a session is forwarded as
    [user_typing], with the sender's user id and the flag, exactly once to
    every other member of the interview's room and never to the sender;
    nothing but the log changes. *)
Theorem typing_reaches_the_others socket isTyping w ref s :
  activeInterviews w !! socket_id socket = Some ref ->
  sessions w !! ref = Some s ->
  ∃ sent,
    handle (Typing socket isTyping) w = emitting sent w ∧
    NoDup sent ∧
    ∀ sid ev, (sid, ev) ∈ sent <->
      ev = user_typing (socket_userId socket) isTyping ∧
      sid ∈ default ∅ (rooms w !! roomOf (interviewId s)) ∧
      sid ≠ socket_id socket.
Proof.
  intros Ha Hs.
  exists (map (fun sid => (sid, user_typing (socket_userId socket) isTyping))
            (elements (default ∅ (rooms w !! roomOf (interviewId s))
                       ∖ {[socket_id socket]}))).
  split; [| split].
  - cbn [handle]. unfold exec, typing, bind, activeInterviews_get, gets, deref.
    rewrite Ha, Hs. reflexivity.
  - apply NoDup_fmap_2; [| apply NoDup_elements].
    intros a b [= ->]. reflexivity.
  - intros sid ev. rewrite list_elem_of_fmap. split.
    + intros (sid' & [= -> ->] & Hin). apply elem_of_elements in Hin.
      split; [reflexivity |]. set_solver.
    + intros (-> & Hin & Hne). exists sid. split; [reflexivity |].
      apply elem_of_elements. set_solver.
Qed.

(** X9 after two connections have joined the same interview. *)
Lemma typing_reaches_the_others_witness :
  let w := run (take 2 Scenario.endedTwice)
             (Scenario.world_of (Scenario.interview_with 1)) in
  ∃ sent,
    handle (Typing Scenario.alice true) w = emitting sent w ∧
    NoDup sent ∧
    ∀ sid ev, (sid, ev) ∈ sent <->
      ev = user_typing "user-1" true ∧
      sid ∈ default ∅ (rooms w !! roomOf "interview-1") ∧
      sid ≠ "socket-1"%string.
Proof.
  cbv zeta.
  apply (typing_reaches_the_others Scenario.alice true
           (run (take 2 Scenario.endedTwice)
              (Scenario.world_of (Scenario.interview_with 1)))
           0%nat
           {| interviewId := "interview-1"; session_userId := "user-1";
              interview := Scenario.interview_with 1; currentQuestionIndex := 1;
              isProcessing := false |});
    vm_compute; reflexivity.
Defined.

(** X10: when the database update of [endInterview] throws, an
    [end_interview] event only sends the error 'Failed to end interview':
    the session stays registered, the socket stays in the room and the
    interview stays as it was. *)
Theorem end_interview_update_fails env socket w ref s :
  activeInterviews w !! socket_id socket = Some ref ->
  sessions w !! ref = Some s ->
  dbThrows env UpdateCompleted = true ->
  handle (EndInterview env socket) w =
    emitting [(socket_id socket, error "Failed to end interview")] w.
Proof.
  intros Ha Hs Hup. cbn [handle].
  unfold exec, end_interview, tryCatch, bind, activeInterviews_get, gets.
  rewrite Ha. unfold endInterview, tryCatch, bind, deref, findByIdAndUpdate.
  rewrite Hs, Hup. reflexivity.
Qed.

(** X10 at an end requested while the update fails. *)
Lemma end_interview_update_fails_witness :
  handle (EndInterview Scenario.updateDown Scenario.alice) Scenario.joined =
  emitting [("socket-1"%string, error "Failed to end interview")] Scenario.joined.
Proof.
  apply (end_interview_update_fails Scenario.updateDown Scenario.alice
           Scenario.joined 0%nat Scenario.session0);
    vm_compute; reflexivity.
Defined.

(** * Isolation of the sessions *)

(** ** Well-formedness of the session map *)

Lemma wellFormed_alter f ref w :
  wellFormed w -> wellFormed (with_sessions (alter f ref) w).
Proof.
  intros [Hex Hinj]. split; cbn.
  - intros sid r Hr. destruct (Hex sid r Hr) as [s Hs].
    destruct (decide (ref = r)) as [-> | Hne].
    + rewrite lookup_alter_eq, Hs. eexists; reflexivity.
    + rewrite lookup_alter_ne by exact Hne. rewrite Hs. eexists; reflexivity.
  - exact Hinj.
Qed.

Lemma wellFormed_delete sid w :
  wellFormed w -> wellFormed (with_activeInterviews (delete sid) w).
Proof.
  intros [Hex Hinj]. split; cbn.
  - intros sid' r Hr. apply lookup_delete_Some in Hr as [_ Hr]. eapply Hex, Hr.
  - intros a b r Ha Hb. apply lookup_delete_Some in Ha as [_ Ha].
    apply lookup_delete_Some in Hb as [_ Hb]. eapply Hinj; eassumption.
Qed.

Lemma wellFormed_set sid s w :
  wellFormed w ->
  wellFormed
    (with_activeInterviews (insert sid (fresh (dom (sessions w))))
       (with_sessions (insert (fresh (dom (sessions w))) s) w)).
Proof.
  intros [Hex Hinj].
  assert (Hfresh : sessions w !! fresh (dom (sessions w)) = None).
  { apply not_elem_of_dom, is_fresh. }
  split; cbn.
  - intros sid' r Hr. apply lookup_insert_Some in Hr as [[_ <-] | [_ Hr]].
    + rewrite lookup_insert_eq. eexists; reflexivity.
    + destruct (Hex sid' r Hr) as [s' Hs'].
      rewrite lookup_insert_ne; [rewrite Hs'; eexists; reflexivity |].
      intros <-. congruence.
  - intros a b r Ha Hb.
    apply lookup_insert_Some in Ha as [[<- <-] | [Hna Ha]];
      apply lookup_insert_Some in Hb as [[<- Hb] | [Hnb Hb]]; try reflexivity.
    + destruct (Hex b _ Hb) as [s' Hs']. congruence.
    + subst r. destruct (Hex a _ Ha) as [s' Hs']. congruence.
    + eapply Hinj; eassumption.
Qed.

Ltac wf_tac :=
  intros; cbv beta in *;
  repeat first
    [ assumption
    | apply wellFormed_set
    | apply wellFormed_delete
    | apply wellFormed_alter
    | match goal with
      | |- wellFormed (with_emitted _ ?w) => change (wellFormed w)
      | |- wellFormed (with_interviews _ ?w) => change (wellFormed w)
      | |- wellFormed (with_rooms _ ?w) => change (wellFormed w)
      end ].

Lemma endInterview_wellFormed env socket ref w :
  wellFormed w ->
  wp (endInterview env socket ref)
     (fun _ w' => wellFormed w') (fun _ w' => wellFormed w') w.
Proof. intros H. unfold endInterview. repeat wp_step; wf_tac. Qed.

Lemma generateAndSendFirstQuestion_wellFormed env socket iv w :
  wellFormed w ->
  wp (generateAndSendFirstQuestion env socket iv)
     (fun _ w' => wellFormed w') (fun _ w' => wellFormed w') w.
Proof. intros H. unfold generateAndSendFirstQuestion. repeat wp_step; wf_tac. Qed.

Lemma handle_wellFormed ev w : wellFormed w -> wellFormed (handle ev w).
Proof.
  intros Hwf.
  destruct ev as [env socket data | env socket data | env socket | socket | socket b];
    cbn [handle]; apply wp_exec.
  - unfold join_interview. repeat wp_step; try solve [wf_tac].
    apply wp_findOne; intros; repeat wp_step; try solve [wf_tac].
    destruct r as [iv |]; repeat wp_step; try solve [wf_tac].
    destruct (length (questions iv) =? 0)%nat; repeat wp_step; try solve [wf_tac].
    apply generateAndSendFirstQuestion_wellFormed. wf_tac.
  - unfold audio_response. wp_step.
    apply (wp_mono _ (fun _ w' => wellFormed w') _ (fun _ w' => wellFormed w')).
    { auto. }
    { intros e w' H. repeat wp_step. cbn.
      destruct (activeInterviews w' !! socket_id socket); repeat wp_step; wf_tac. }
    repeat wp_step.
    destruct (activeInterviews w !! socket_id socket) as [ref |];
      repeat wp_step; try solve [wf_tac].
    destruct (isProcessing s); repeat wp_step; try solve [wf_tac].
    apply wp_checkTranscription; [| solve [wf_tac]].
    intros [text |]; repeat wp_step; try solve [wf_tac].
    eapply wp_mono; [| | apply generateNextQuestion_world with
      (P := fun w' => wellFormed w')]; try solve [wf_tac].
    intros [question |] w' H'; cbv beta in *; repeat wp_step; try solve [wf_tac].
    eapply wp_mono; [| | apply endInterview_wellFormed, H']; try solve [wf_tac].
  - unfold end_interview. repeat wp_step.
    destruct (activeInterviews w !! socket_id socket) as [ref |]; repeat wp_step;
      try solve [wf_tac].
    apply endInterview_wellFormed, Hwf.
  - unfold disconnect. repeat wp_step. wf_tac.
  - unfold typing. repeat wp_step.
    destruct (activeInterviews w !! socket_id socket) as [ref |]; repeat wp_step;
      try solve [wf_tac].
Qed.

(** ** What a run leaves alone *)

Lemma untouched_refl sid own w : untouched sid own w w.
Proof. split; reflexivity. Qed.

Lemma untouched_alter sid ref f w0 w :
  untouched sid (Some ref) w0 w ->
  untouched sid (Some ref) w0 (with_sessions (alter f ref) w).
Proof.
  intros [Ha Hs]. split; [exact Ha |]. cbn. intros r Hr Hne.
  rewrite lookup_alter_ne by congruence. apply Hs; assumption.
Qed.

Lemma untouched_delete sid own w0 w :
  untouched sid own w0 w ->
  untouched sid own w0 (with_activeInterviews (delete sid) w).
Proof.
  intros [Ha Hs]. split; [| exact Hs]. cbn. intros sid' Hne.
  rewrite lookup_delete_ne by congruence. apply Ha, Hne.
Qed.

Lemma untouched_set sid s own w0 w :
  activeInterviews w = activeInterviews w0 ->
  sessions w = sessions w0 ->
  untouched sid own w0
    (with_activeInterviews (insert sid (fresh (dom (sessions w))))
       (with_sessions (insert (fresh (dom (sessions w))) s) w)).
Proof.
  intros Ha Hs. split; cbn.
  - intros sid' Hne. rewrite lookup_insert_ne by congruence. rewrite Ha. reflexivity.
  - intros r [s' Hr] _. rewrite Hs. rewrite lookup_insert_ne; [reflexivity |].
    intros <-. pose proof (is_fresh (dom (sessions w0))) as Hf.
    apply not_elem_of_dom in Hf. congruence.
Qed.

Ltac untouched_tac :=
  intros; cbv beta in *;
  repeat first
    [ assumption
    | apply untouched_refl
    | apply untouched_delete
    | apply untouched_alter
    | match goal with
      | |- untouched ?sid ?own ?w0 (with_emitted _ ?w) => change (untouched sid own w0 w)
      | |- untouched ?sid ?own ?w0 (with_interviews _ ?w) => change (untouched sid own w0 w)
      | |- untouched ?sid ?own ?w0 (with_rooms _ ?w) => change (untouched sid own w0 w)
      end ].

Lemma endInterview_untouched env socket ref own w0 w :
  untouched (socket_id socket) own w0 w ->
  wp (endInterview env socket ref)
     (fun _ w' => untouched (socket_id socket) own w0 w')
     (fun _ w' => untouched (socket_id socket) own w0 w' ∧
                  activeInterviews w' = activeInterviews w) w.
Proof.
  intros H. unfold endInterview. repeat wp_step; try solve [untouched_tac].
  all: split; [untouched_tac | reflexivity].
Qed.

Lemma generateAndSendFirstQuestion_untouched env socket iv own w0 w :
  untouched (socket_id socket) own w0 w ->
  wp (generateAndSendFirstQuestion env socket iv)
     (fun _ w' => untouched (socket_id socket) own w0 w')
     (fun _ w' => untouched (socket_id socket) own w0 w') w.
Proof.
  intros H. unfold generateAndSendFirstQuestion. repeat wp_step; untouched_tac.
Qed.

Ltac mine_tac :=
  intros; cbv beta in *;
  lazymatch goal with
  | H : mine _ _ _ _ |- mine _ _ _ _ =>
    destruct H as [? ?]; split; [untouched_tac | cbn; assumption]
  | H : mine _ _ _ _ |- untouched _ _ _ _ =>
    destruct H as [? ?]; untouched_tac
  end.

Lemma audio_response_untouched env socket data w :
  ∃ own, untouched (socket_id socket) own w (exec (audio_response env socket data) w) ∧
         (∀ ref, own = Some ref -> activeInterviews w !! socket_id socket = Some ref).
Proof.
  destruct (activeInterviews w !! socket_id socket) as [ref |] eqn:Ha.
  2:{ exists None. split; [| discriminate].
      unfold exec. rewrite audio_response_rejected by (left; exact Ha).
      cbn. unfold emitting. untouched_tac. }
  exists (Some ref). split; [| intros r [= <-]; reflexivity].
  assert (Hm : mine socket ref w w) by (split; [apply untouched_refl | exact Ha]).
  apply wp_exec. unfold audio_response. wp_step.
  apply (wp_mono _ (fun _ w' => untouched (socket_id socket) (Some ref) w w') _
                   (fun _ w' => mine socket ref w w')).
  { auto. }
  { intros e w' [Hu Ha']. repeat wp_step. cbn. rewrite Ha'. wp_step. untouched_tac. }
  repeat wp_step. rewrite Ha. repeat wp_step; try solve [mine_tac].
  destruct (isProcessing s); repeat wp_step; try solve [mine_tac].
  apply wp_checkTranscription; [| solve [mine_tac]].
  intros [text |]; repeat wp_step; try solve [mine_tac].
  eapply wp_mono; [| | apply generateNextQuestion_world with
    (P := fun w' => mine socket ref w w')]; try solve [mine_tac].
  intros [question |] w' Hm'; cbv beta in *; repeat wp_step; try solve [mine_tac].
  destruct Hm' as [Hu' Ha'].
  eapply wp_mono; [| | apply endInterview_untouched, Hu'].
  - intros ? w'' H''. cbv beta in *. repeat wp_step. untouched_tac.
  - intros ? w'' [Hx Hy]. split; [exact Hx | rewrite Hy; exact Ha'].
Qed.

Lemma handle_untouched ev w :
  ∃ own,
    untouched (socket_id (socketOf ev)) own w (handle ev w) ∧
    (∀ ref, own = Some ref ->
       activeInterviews w !! socket_id (socketOf ev) = Some ref).
Proof.
  destruct ev as [env socket data | env socket data | env socket | socket | socket b];
    cbn [handle socketOf].
  - exists None. split; [| discriminate].
    apply wp_exec. unfold join_interview. repeat wp_step; try solve [untouched_tac].
    apply wp_findOne; intros; repeat wp_step; try solve [untouched_tac].
    destruct r as [iv |]; repeat wp_step; try solve [untouched_tac].
    destruct (length (questions iv) =? 0)%nat; repeat wp_step.
    + apply generateAndSendFirstQuestion_untouched.
      apply (untouched_set _ _ _ w (with_rooms _ w)); reflexivity.
    + match goal with
      | |- untouched ?a ?b ?c (with_emitted _ ?x) => change (untouched a b c x)
      end.
      apply (untouched_set _ _ _ w (with_rooms _ w)); reflexivity.
  - apply audio_response_untouched.
  - exists None. split; [| discriminate].
    apply wp_exec. unfold end_interview. repeat wp_step.
    destruct (activeInterviews w !! socket_id socket) as [ref |]; repeat wp_step;
      try solve [untouched_tac].
    eapply wp_mono; [| | apply (endInterview_untouched env socket ref None w w), untouched_refl];
      cbv beta; [auto | intros ? ? [? ?]; repeat wp_step; untouched_tac].
  - exists None. split; [| discriminate]. cbn. untouched_tac.
  - exists None. split; [| discriminate].
    apply wp_exec. unfold typing. repeat wp_step.
    destruct (activeInterviews w !! socket_id socket) as [ref |]; repeat wp_step;
      try solve [untouched_tac].
Qed.

(** One event of another connection. *)
Lemma sessions_are_isolated ev sid w :
  wellFormed w ->
  sid ≠ socket_id (socketOf ev) ->
  wellFormed (handle ev w) ∧ sessionOf sid (handle ev w) = sessionOf sid w.
Proof.
  intros Hwf Hne. split; [apply handle_wellFormed, Hwf |].
  destruct (handle_untouched ev w) as (own & [Ha Hs] & Hown).
  unfold sessionOf. rewrite (Ha sid Hne).
  destruct (activeInterviews w !! sid) as [ref |] eqn:Hsid; [| reflexivity].
  destruct Hwf as [Hex Hinj].
  rewrite Hs; [reflexivity | eapply Hex, Hsid |].
  intros <-. apply Hne. eapply Hinj; [exact Hsid | apply Hown; reflexivity].
Qed.

(** X11: the session map stays well formed whatever the connections send:
    after any sequence of inbound events every entry of [activeInterviews]
    refers to an existing session object and no two sockets share one. *)
Theorem sessions_stay_wellFormed evs w :
  wellFormed w -> wellFormed (run evs w).
Proof.
  revert w. induction evs as [| ev evs IH]; intros w Hwf; [exact Hwf |].
  change (run (ev :: evs) w) with (run evs (handle ev w)).
  apply IH, handle_wellFormed, Hwf.
Qed.

Lemma wellFormed_world_of iv : wellFormed (Scenario.world_of iv).
Proof.
  split; cbn; intros *; rewrite lookup_empty; discriminate.
Qed.

(** X11 at two connections of which one answers and the other ends the
    interview: the first still has its session. *)
Lemma sessions_stay_wellFormed_witness :
  wellFormed (run Scenario.busy (Scenario.world_of (Scenario.interview_with 1))) ∧
  sessionOf "socket-1"
    (run Scenario.busy (Scenario.world_of (Scenario.interview_with 1)))
    ≠ None.
Proof.
  split; [| vm_compute; discriminate].
  apply (sessions_stay_wellFormed Scenario.busy
           (Scenario.world_of (Scenario.interview_with 1))).
  apply wellFormed_world_of.
Defined.

(** X12: the events of the other connections never change what a
    connection's session holds: whatever sockets other than [sid] send
    (joins, answers, ends, disconnects, typing, also on the same
    interview), the entry of [sid] in [activeInterviews] and the session
    object behind it (interview snapshot, question index, latch) are the
    same afterwards. *)
Theorem others_cannot_touch_a_session evs sid w :
  wellFormed w ->
  Forall (fun ev => sid ≠ socket_id (socketOf ev)) evs ->
  sessionOf sid (run evs w) = sessionOf sid w.
Proof.
  revert w. induction evs as [| ev evs IH]; intros w Hwf Hall; [reflexivity |].
  apply Forall_cons in Hall as [Hne Hall].
  change (run (ev :: evs) w) with (run evs (handle ev w)).
  destruct (sessions_are_isolated ev sid w Hwf Hne) as [Hwf' Heq].
  rewrite (IH _ Hwf' Hall). exact Heq.
Qed.

(** X12 at a second connection of the same user that joins the interview,
    answers, ends it and leaves, and a stranger who tries to join. *)
Lemma others_cannot_touch_a_session_witness :
  sessionOf "socket-1"
    (run [ JoinInterview Scenario.healthy Scenario.mallory
             (Some "interview-1"%string);
           JoinInterview Scenario.healthy Scenario.aliceTablet
             (Some "interview-1"%string);
           AudioResponse Scenario.healthy Scenario.aliceTablet
             (Some Scenario.answer);
           Typing Scenario.aliceTablet true;
           EndInterview Scenario.healthy Scenario.aliceTablet;
           Disconnect Scenario.aliceTablet ] Scenario.joined) =
  sessionOf "socket-1" Scenario.joined.
Proof.
  apply (others_cannot_touch_a_session _ "socket-1"%string Scenario.joined).
  - apply handle_wellFormed, wellFormed_world_of.
  - repeat constructor; discriminate.
Defined.

(** * Further properties of runs *)

(** X13 at a join followed by three answers whose question generation
    fails. *)
Lemma run_quiescent_witness :
  quiescent (run Scenario.failedRetries (Scenario.world_of Scenario.fresh_interview)).
Proof.
  apply (run_quiescent Scenario.failedRetries
           (Scenario.world_of Scenario.fresh_interview)).
  intros ref s Hs. cbn in Hs. rewrite lookup_empty in Hs. discriminate Hs.
Defined.

Lemma wp_findOne_run env id user post exc w :
  dbThrows env FindOne = false ->
  post match interviews w !! id with
       | Some iv =>
         if bool_decide (userId iv = user) && bool_decide (status iv = in_progress)
         then Some iv else None
       | None => None
       end w ->
  wp (findOne env id user) post exc w.
Proof. intros H Hp. unfold wp. rewrite findOne_run by exact H. exact Hp. Qed.

Lemma generateAndSendFirstQuestion_activeInterviews env socket iv
    (P : gmap string nat -> Prop) w :
  P (activeInterviews w) ->
  wp (generateAndSendFirstQuestion env socket iv)
     (fun _ w' => P (activeInterviews w')) (fun _ w' => P (activeInterviews w')) w.
Proof.
  intros HP. unfold generateAndSendFirstQuestion. repeat wp_step; exact HP.
Qed.

Lemma join_interview_registers env socket id w iv :
  dbThrows env FindOne = false ->
  interviews w !! id = Some iv ->
  userId iv = socket_userId socket ->
  status iv = in_progress ->
  activeInterviews (handle (JoinInterview env socket (Some id)) w) =
    <[socket_id socket := fresh (dom (sessions w))]> (activeInterviews w).
Proof.
  intros Hdb Hiv Hu Hs. cbn [handle]. apply wp_exec. unfold join_interview.
  wp_step. wp_step. wp_step; [| discriminate].
  match goal with H : Some _ = Some _ |- _ => injection H as <- end.
  wp_step. apply wp_findOne_run; [exact Hdb |].
  rewrite Hiv, Hu, Hs, !bool_decide_eq_true_2 by reflexivity. cbn [andb].
  repeat wp_step.
  destruct (length (questions iv) =? 0)%nat; repeat wp_step; [| reflexivity].
  apply (generateAndSendFirstQuestion_activeInterviews env socket iv
           (fun m => m = <[socket_id socket := fresh (dom (sessions w))]>
                           (activeInterviews w))).
  reflexivity.
Qed.

(** X14: [getActiveInterviewCount] counts connections, not interviews: a
    join that finds the interview raises the count by one when the socket
    had no session and leaves it as it is when it had one (the entry is
    replaced), whether or not the first question can be delivered; a
    disconnect of the socket then removes exactly that entry. *)
Theorem join_interview_counts_connections env socket id w iv :
  dbThrows env FindOne = false ->
  interviews w !! id = Some iv ->
  userId iv = socket_userId socket ->
  status iv = in_progress ->
  let w' := handle (JoinInterview env socket (Some id)) w in
  getActiveInterviewCount w' =
    match activeInterviews w !! socket_id socket with
    | Some _ => getActiveInterviewCount w
    | None => S (getActiveInterviewCount w)
    end ∧
  activeInterviews (handle (Disconnect socket) w') =
    delete (socket_id socket) (activeInterviews w).
Proof.
  intros Hdb Hiv Hu Hs. cbv zeta. unfold getActiveInterviewCount.
  change (activeInterviews (handle (Disconnect socket) ?x))
    with (delete (socket_id socket) (activeInterviews x)).
  rewrite (join_interview_registers env socket id w iv Hdb Hiv Hu Hs). split.
  - rewrite map_size_insert.
    destruct (activeInterviews w !! socket_id socket); reflexivity.
  - apply delete_insert_eq.
Qed.

(** X14 at a second connection joining the interview of [Scenario.joined]. *)
Lemma join_interview_counts_connections_witness :
  let w := Scenario.joined in
  let w' := handle (JoinInterview Scenario.healthy Scenario.aliceTablet
                      (Some "interview-1"%string)) w in
  getActiveInterviewCount w' =
    match activeInterviews w !! "socket-2"%string with
    | Some _ => getActiveInterviewCount w
    | None => S (getActiveInterviewCount w)
    end ∧
  activeInterviews (handle (Disconnect Scenario.aliceTablet) w') =
    delete "socket-2"%string (activeInterviews w).
Proof.
  apply (join_interview_counts_connections Scenario.healthy Scenario.aliceTablet
           "interview-1"%string Scenario.joined
           (pushQuestion (Scenario.questionNo 1) Scenario.fresh_interview));
    [reflexivity | vm_compute; reflexivity | reflexivity | reflexivity].
Defined.

(** ** Answers and the transcriber of the repository *)

Lemma sameResponses_refl w : sameResponses w w.
Proof. intros id. reflexivity. Qed.

Lemma sameResponses_alter f id w0 w :
  (∀ iv, responses (f iv) = responses iv) ->
  sameResponses w0 w ->
  sameResponses w0 (with_interviews (alter f id) w).
Proof.
  intros Hf H id'. rewrite <- (H id'). cbn.
  destruct (decide (id = id')) as [-> | Hne].
  - rewrite lookup_alter_eq. destruct (interviews w !! id') as [iv |]; cbn;
      [rewrite Hf |]; reflexivity.
  - rewrite lookup_alter_ne by exact Hne. reflexivity.
Qed.

Ltac same_tac :=
  intros; cbv beta in *;
  repeat first
    [ assumption
    | apply sameResponses_refl
    | apply sameResponses_alter; [intros []; reflexivity |]
    | match goal with
      | |- sameResponses ?w0 (with_emitted _ ?w) => change (sameResponses w0 w)
      | |- sameResponses ?w0 (with_sessions _ ?w) => change (sameResponses w0 w)
      | |- sameResponses ?w0 (with_activeInterviews _ ?w) => change (sameResponses w0 w)
      | |- sameResponses ?w0 (with_rooms _ ?w) => change (sameResponses w0 w)
      end ].

Lemma endInterview_sameResponses env socket ref w0 w :
  sameResponses w0 w ->
  wp (endInterview env socket ref)
     (fun _ w' => sameResponses w0 w') (fun _ w' => sameResponses w0 w') w.
Proof. intros H. unfold endInterview. repeat wp_step; same_tac. Qed.

Lemma generateAndSendFirstQuestion_sameResponses env socket iv w0 w :
  sameResponses w0 w ->
  wp (generateAndSendFirstQuestion env socket iv)
     (fun _ w' => sameResponses w0 w') (fun _ w' => sameResponses w0 w') w.
Proof.
  intros H. unfold generateAndSendFirstQuestion. repeat wp_step; same_tac.
Qed.

Lemma speechToText_not_a_string recognize audio text :
  speechToText recognize audio ≠ Returns (TString text).
Proof.
  unfold speechToText.
  destruct (SpeechToTextService.transcribeAudio recognize audio) as [[t |] | e];
    discriminate.
Qed.

(** With the transcriber of the repository an answer never reaches the
    database, whatever the state and the payload. *)
Lemma audio_response_repository env recognize socket data w :
  transcribeAudio env = speechToText recognize ->
  interviews (exec (audio_response env socket data) w) = interviews w.
Proof.
  intros Ht. apply wp_exec. unfold audio_response. wp_step.
  apply (wp_mono _ (fun _ w' => interviews w' = interviews w) _
                   (fun _ w' => interviews w' = interviews w)).
  { auto. }
  { intros e w' H. repeat wp_step. cbn.
    destruct (activeInterviews w' !! socket_id socket); repeat wp_step; exact H. }
  repeat wp_step.
  destruct (activeInterviews w !! socket_id socket) as [ref |];
    repeat wp_step; try reflexivity.
  destruct (isProcessing s); repeat wp_step; try reflexivity.
  destruct a as [| text | o]; cbn [checkTranscription]; repeat wp_step;
    try reflexivity.
  exfalso. rewrite Ht in H1. exact (speechToText_not_a_string _ _ _ H1).
Qed.

Lemma handle_sameResponses ev w0 w :
  usesRepositoryTranscriber ev ->
  sameResponses w0 w -> sameResponses w0 (handle ev w).
Proof.
  intros Hev Hw.
  destruct ev as [env socket data | env socket data | env socket | socket | socket b];
    cbn [handle].
  - apply wp_exec. unfold join_interview. repeat wp_step; try solve [same_tac].
    apply wp_findOne; intros; repeat wp_step; try solve [same_tac].
    destruct r as [iv |]; repeat wp_step; try solve [same_tac].
    destruct (length (questions iv) =? 0)%nat; repeat wp_step; try solve [same_tac].
    apply generateAndSendFirstQuestion_sameResponses. same_tac.
  - destruct Hev as [recognize Ht]. intros id.
    rewrite (audio_response_repository _ _ _ _ _ Ht). apply Hw.
  - apply wp_exec. unfold end_interview. repeat wp_step.
    destruct (activeInterviews w !! socket_id socket) as [ref |]; repeat wp_step;
      try solve [same_tac].
    apply endInterview_sameResponses, Hw.
  - exact Hw.
  - apply wp_exec. unfold typing. repeat wp_step.
    destruct (activeInterviews w !! socket_id socket) as [ref |]; repeat wp_step;
      try solve [same_tac].
Qed.

(** X15: with the speech-to-text service of the repository behind the
    handler ([transcribeAudio] returns [null] or an object, never a
    string), no answer is ever recorded: after any sequence of joins,
    answers, ends, disconnects and typing events, every interview has the
    responses it had before, whatever the speech client recognises. *)
Theorem no_answer_is_recorded evs w :
  Forall usesRepositoryTranscriber evs ->
  ∀ id, responses <$> interviews (run evs w) !! id = responses <$> interviews w !! id.
Proof.
  intros Hall. change (sameResponses w (run evs w)).
  assert (H : ∀ w', sameResponses w w' -> sameResponses w (run evs w')).
  { induction Hall as [| ev evs Hev Hall IH]; intros w' Hw'; [exact Hw' |].
    change (run (ev :: evs) w') with (run evs (handle ev w')).
    apply IH, handle_sameResponses; assumption. }
  apply H, sameResponses_refl.
Qed.

(** X15 at a join, two answers that the speech client recognises, and an
    end. *)
Lemma no_answer_is_recorded_witness :
    responses <$> interviews
      (run [ JoinInterview Scenario.healthy Scenario.alice (Some "interview-1"%string);
             AudioResponse Scenario.linked Scenario.alice (Some Scenario.answer);
             AudioResponse Scenario.linked Scenario.alice (Some Scenario.answer);
             EndInterview Scenario.healthy Scenario.alice ]
         (Scenario.world_of Scenario.fresh_interview)) !! "interview-1"%string =
    responses <$> interviews (Scenario.world_of Scenario.fresh_interview)
      !! "interview-1"%string.
Proof.
  apply (no_answer_is_recorded _ (Scenario.world_of Scenario.fresh_interview)).
  repeat constructor; try exact I; exists Scenario.recognizeOne; reflexivity.
Defined.

(** * Further properties of the services *)

(** ** [String.prototype.trim] *)

Lemma trimStart_head s c : head (trimStart s) = Some c -> isWhiteSpace c = false.
Proof.
  induction s as [| x s IH]; cbn; [discriminate |].
  destruct (isWhiteSpace x) eqn:Hx; [exact IH |].
  cbn. intros [= <-]. exact Hx.
Qed.

Lemma trimStart_snoc s c :
  isWhiteSpace c = false -> trimStart (s ++ [c]) = trimStart s ++ [c].
Proof.
  intros Hc. induction s as [| x s IH]; cbn; [rewrite Hc; reflexivity |].
  destruct (isWhiteSpace x); [exact IH | reflexivity].
Qed.

Lemma last_rev {A} (l : list A) : last (rev l) = head l.
Proof. destruct l as [| x l]; cbn; [reflexivity | apply last_snoc]. Qed.

Lemma trimEnd_last s c : last (trimEnd s) = Some c -> isWhiteSpace c = false.
Proof. unfold trimEnd. rewrite last_rev. apply trimStart_head. Qed.

Lemma trimEnd_head s c :
  isWhiteSpace c = false -> head (trimEnd (c :: s)) = Some c.
Proof.
  intros Hc. unfold trimEnd. cbn [rev].
  rewrite (trimStart_snoc _ _ Hc), rev_app_distr. reflexivity.
Qed.

Lemma trim_blankFree s : blankFree (trim s).
Proof.
  intros c [Hh | Hl].
  - unfold trim in Hh. destruct (trimStart s) as [| x r] eqn:Hs; [discriminate Hh |].
    assert (Hx : isWhiteSpace x = false)
      by (apply (trimStart_head s); rewrite Hs; reflexivity).
    rewrite (trimEnd_head _ _ Hx) in Hh. congruence.
  - apply (trimEnd_last _ _ Hl).
Qed.

(** ** Speech to text *)

Lemma firstAlternatives_None rs :
  SpeechToTextService.firstAlternatives rs = None ->
  Exists (fun r => SpeechToTextService.alternatives r = []) rs.
Proof.
  induction rs as [| r rs IH]; cbn; [discriminate |].
  destruct (SpeechToTextService.alternatives r) as [| a l] eqn:Ha;
    [intros _; left; exact Ha |].
  destruct (SpeechToTextService.firstAlternatives rs); [discriminate |].
  intros _. right. apply IH. reflexivity.
Qed.

Lemma firstAlternatives_Some rs alts :
  SpeechToTextService.firstAlternatives rs = Some alts ->
  Forall (fun r => SpeechToTextService.alternatives r ≠ []) rs.
Proof.
  revert alts. induction rs as [| r rs IH]; cbn; intros alts H; [constructor |].
  destruct (SpeechToTextService.alternatives r) as [| a l] eqn:Ha; [discriminate |].
  destruct (SpeechToTextService.firstAlternatives rs) as [l' |]; [| discriminate].
  constructor; [rewrite Ha; discriminate | eapply IH; reflexivity].
Qed.

(** X16: what [transcribeAudio] answers, whatever the speech client does.
    It throws only the error 'Failed to transcribe audio', and exactly
    when the audio is missing, the client throws or a result has no
    alternative; it returns [null] exactly when the client returns no
    results; otherwise it returns an object whose transcription neither
    starts nor ends with white space. *)
Theorem transcribeAudio_outcome recognize audio :
  match SpeechToTextService.transcribeAudio recognize audio with
  | Throws e =>
    e = Err "Failed to transcribe audio" ∧
    (audio = None ∨
     ∃ bytes, audio = Some bytes ∧
       ((∃ e', recognize bytes = Throws e') ∨
        ∃ response rs,
          recognize bytes = Returns response ∧
          SpeechToTextService.results response = Some rs ∧
          Exists (fun r => SpeechToTextService.alternatives r = []) rs))
  | Returns None =>
    ∃ bytes response,
      audio = Some bytes ∧ recognize bytes = Returns response ∧
      (SpeechToTextService.results response = None ∨
       SpeechToTextService.results response = Some [])
  | Returns (Some t) =>
    ∃ bytes response rs,
      audio = Some bytes ∧ recognize bytes = Returns response ∧
      SpeechToTextService.results response = Some rs ∧ rs ≠ [] ∧
      Forall (fun r => SpeechToTextService.alternatives r ≠ []) rs ∧
      blankFree (SpeechToTextService.transcription t)
  end.
Proof.
  unfold SpeechToTextService.transcribeAudio.
  destruct audio as [bytes |]; [| split; [reflexivity | left; reflexivity]].
  destruct (recognize bytes) as [response | e'] eqn:Hr.
  2:{ split; [reflexivity |]. right. exists bytes. split; [reflexivity |].
      left. eexists; exact Hr. }
  destruct (SpeechToTextService.results response) as [[| r0 rest] |] eqn:Hres.
  - exists bytes, response. auto.
  - destruct (SpeechToTextService.firstAlternatives (r0 :: rest)) as [alts |] eqn:Hf.
    + exists bytes, response, (r0 :: rest).
      repeat split; try assumption; try discriminate.
      * eapply firstAlternatives_Some, Hf.
      * apply trim_blankFree.
    + split; [reflexivity |]. right. exists bytes. split; [reflexivity |].
      right. exists response, (r0 :: rest). repeat split; try assumption.
      apply firstAlternatives_None, Hf.
  - exists bytes, response. auto.
Qed.

(** X17: [validateAudioFormat] accepts exactly the buffers of 1 KiB to
    10 MiB (1024 to 10485760 bytes, both included), and reports an error
    exactly when it does not accept. *)
Theorem validateAudioFormat_accepts audioBuffer :
  let r := SpeechToTextService.validateAudioFormat audioBuffer in
  (SpeechToTextService.fc_valid r = true <->
   ∃ b, audioBuffer = Some b ∧
        1024 <= Z.of_nat (length b) <= 10 * 1024 * 1024) ∧
  (SpeechToTextService.fc_valid r = true <->
   SpeechToTextService.fc_error r = None).
Proof.
  cbv zeta. unfold SpeechToTextService.validateAudioFormat.
  destruct audioBuffer as [b |].
  2:{ cbn. split; split; try discriminate. intros (b & ? & _). discriminate. }
  cbv zeta.
  destruct (Z.of_nat (length b) =? 0) eqn:H0;
    [| destruct (Z.of_nat (length b) <? 1024) eqn:H1;
       [| destruct (10 * 1024 * 1024 <? Z.of_nat (length b)) eqn:H2]];
    cbn [SpeechToTextService.fc_valid SpeechToTextService.fc_error];
    (split; split; try discriminate; try reflexivity).
  all: try (intros (b' & [= <-] & Hb); lia).
  intros _. exists b. split; [reflexivity | lia].
Qed.

(** ** The scorer behind the handler *)

Lemma analyzeSentiment_run client text ds :
  trim text ≠ [] ->
  client_analyzeSentiment client text = Returns ds ->
  client_analyzeEntities client text = Returns tt ->
  client_analyzeSyntax client text = Returns tt ->
  SentimentAnalysisService.analyzeSentiment client text = Returns (analysisOf ds).
Proof.
  intros Hne H1 H2 H3. unfold SentimentAnalysisService.analyzeSentiment.
  destruct (length (trim text) =? 0)%nat eqn:Hl.
  { apply Nat.eqb_eq, length_zero_iff_nil in Hl. contradiction. }
  rewrite H1, H2, H3. reflexivity.
Qed.

Lemma responsesOf_alter f id id' w :
  (∀ iv, responses (f iv) = responses iv) ->
  responsesOf id (with_interviews (alter f id') w) = responsesOf id w.
Proof.
  intros Hf. unfold responsesOf. cbn.
  destruct (decide (id' = id)) as [-> | Hne].
  - rewrite lookup_alter_eq. destruct (interviews w !! id) as [iv |]; cbn;
      [rewrite Hf |]; reflexivity.
  - rewrite lookup_alter_ne by exact Hne. reflexivity.
Qed.

Ltac kept_tac :=
  intros; cbv beta in *;
  repeat first
    [ assumption
    | rewrite responsesOf_alter by (intros []; reflexivity)
    | match goal with
      | |- responsesOf ?id (with_emitted _ ?w) = ?R => change (responsesOf id w = R)
      | |- responsesOf ?id (with_sessions _ ?w) = ?R => change (responsesOf id w = R)
      | |- responsesOf ?id (with_activeInterviews _ ?w) = ?R => change (responsesOf id w = R)
      | |- responsesOf ?id (with_rooms _ ?w) = ?R => change (responsesOf id w = R)
      end ].

Lemma endInterview_responsesOf env socket ref id R w :
  responsesOf id w = R ->
  wp (endInterview env socket ref)
     (fun _ w' => responsesOf id w' = R) (fun _ w' => responsesOf id w' = R) w.
Proof. intros H. unfold endInterview. repeat wp_step; kept_tac. Qed.

(** X18: with the sentiment service of the repository as scorer, an
    answer whose transcription passed the handler's check is never
    refused by the scorer's own blank check; when the language client
    answers and the response can be stored, it is stored, carrying the
    label of the client's score, whatever happens afterwards in the run
    (next question, end of the interview, or a failure of the generator,
    the synthesizer or the database). *)
Theorem answer_recorded_with_its_label env client socket d w ref s text ds iv :
  transcribed env socket d w ref s text ->
  analyzeSentiment env = SentimentAnalysisService.analyzeSentiment client ->
  client_analyzeSentiment client text = Returns ds ->
  client_analyzeEntities client text = Returns tt ->
  client_analyzeSyntax client text = Returns tt ->
  dbThrows env PushResponse = false ->
  interviews w !! interviewId s = Some iv ->
  responsesOf (interviewId s) (exec (audio_response env socket (Some d)) w) =
    Some (responses iv ++ [responseOf env d text (analysisOf ds)]).
Proof.
  intros (Ha & Hs & Hp & Htr & Hne) Henv Hc1 Hc2 Hc3 Hpr Hiv.
  pose proof (analyzeSentiment_run client text ds Hne Hc1 Hc2 Hc3) as Hsa.
  rewrite <- Henv in Hsa.
  set (R := Some (responses iv ++ [responseOf env d text (analysisOf ds)])).
  apply (wp_exec _ (fun w' => responsesOf (interviewId s) w' = R)).
  unfold audio_response. wp_step.
  apply (wp_mono _ (fun _ w' => responsesOf (interviewId s) w' = R) _
                   (fun _ w' => responsesOf (interviewId s) w' = R)).
  { auto. }
  { intros e w' H. repeat wp_step. cbn.
    destruct (activeInterviews w' !! socket_id socket); repeat wp_step; kept_tac. }
  wp_step. wp_step. rewrite Ha. wp_step. wp_step; [| congruence].
  match goal with H : sessions w !! ref = Some ?s0 |- _ =>
    assert (s0 = s) as -> by congruence end.
  rewrite Hp. wp_step. wp_step. wp_step. wp_step; [| discriminate].
  match goal with H : Some _ = Some _ |- _ => injection H as <- end.
  wp_step. wp_step. wp_step. wp_step; [| congruence].
  match goal with H : transcribeAudio env _ = Returns ?a |- _ =>
    assert (a = TString text) as -> by congruence end.
  wp_step. cbn [checkTranscription].
  destruct (length (trim text) =? 0)%nat eqn:Hl.
  { apply Nat.eqb_eq, length_zero_iff_nil in Hl. contradiction. }
  wp_step. wp_step. wp_step. wp_step. wp_step; [| congruence].
  match goal with H : analyzeSentiment env text = Returns ?a |- _ =>
    assert (a = analysisOf ds) as -> by congruence end.
  wp_step. wp_step; [| congruence].
  match goal with
  | |- wp _ _ _ ?w1 =>
    assert (Hrec : responsesOf (interviewId s) w1 = R)
  end.
  { unfold responsesOf. cbn. rewrite lookup_alter_eq, Hiv. reflexivity. }
  repeat wp_step; try solve [kept_tac].
  - eapply wp_mono; [| | apply generateNextQuestion_world with
      (P := fun w' => responsesOf (interviewId s) w' = R)]; try solve [kept_tac].
    intros [question |] w' H'; cbv beta in *; repeat wp_step; try solve [kept_tac].
    eapply wp_mono; [| | apply endInterview_responsesOf, H']; try solve [kept_tac].
Qed.

(** X18 at the first answer of [Scenario.joined], scored by the service. *)
Lemma answer_recorded_with_its_label_witness :
  responsesOf "interview-1"
    (exec (audio_response Scenario.scored Scenario.alice (Some Scenario.answer))
       Scenario.joined) =
    Some [responseOf Scenario.scored Scenario.answer (str "My answer")
            (analysisOf {| ds_score := Fin (1 # 2); ds_magnitude := Fin (1 # 1) |})].
Proof.
  apply (answer_recorded_with_its_label Scenario.scored Scenario.mildlyPositive
           Scenario.alice Scenario.answer Scenario.joined 0%nat Scenario.session0
           (str "My answer")
           {| ds_score := Fin (1 # 2); ds_magnitude := Fin (1 # 1) |}
           (pushQuestion (Scenario.questionNo 1) Scenario.fresh_interview));
    try reflexivity.
  repeat split; try (vm_compute; reflexivity). discriminate.
Defined.

(** * Further properties of the interview routes *)

Module IdRoutes.

Import InterviewRoutes StartRoute.

(** [Math.round] gives the nearest integer. *)
Lemma roundDiv_nearest n d :
  0 < d -> 2 * d * roundDiv n d - d <= 2 * n < 2 * d * roundDiv n d + d.
Proof.
  intros Hd. unfold roundDiv.
  pose proof (Z.div_mod (2 * n + d) (2 * d) ltac:(lia)) as Hdm.
  pose proof (Z.mod_pos_bound (2 * n + d) (2 * d) ltac:(lia)) as Hb.
  lia.
Qed.

Lemma endById_success req db :
  id_statusCode (endById req db).1 = 200 ->
  ∃ iv,
    interviews db !! idreq_interviewId req = Some iv ∧
    userId iv = idreq_user req ∧ status iv = in_progress ∧
    endById req db =
      ({| id_statusCode := 200; id_success := true;
          id_message := Some "Interview session ended successfully"%string;
          id_data :=
            EndedData (_id iv) (idreq_newDate req)
              (roundDiv (idreq_newDate req - startedAt iv) 60000)
              (length (questions iv)) (length (responses iv)) |},
       {| interviews :=
            <[idreq_interviewId req :=
                setCompleted (idreq_newDate req)
                  (roundDiv (idreq_newDate req - startedAt iv) 60000) iv]>
              (interviews db);
          dafs := dafs db |}).
Proof.
  unfold endById.
  destruct (idreq_dbThrows req FindById); [discriminate |].
  destruct (interviews db !! idreq_interviewId req) as [iv |]; [| discriminate].
  case_bool_decide as Hu; [| discriminate].
  case_bool_decide as Hs; [| discriminate]. cbn.
  destruct (idreq_dbThrows req SaveEnded); [discriminate |].
  intros _. exists iv. auto.
Qed.

Lemma endById_failure req db :
  id_statusCode (endById req db).1 ≠ 200 -> (endById req db).2 = db.
Proof.
  unfold endById.
  destruct (idreq_dbThrows req FindById); [reflexivity |].
  destruct (interviews db !! idreq_interviewId req) as [iv |]; [| reflexivity].
  destruct (bool_decide (userId iv = idreq_user req)
            && bool_decide (status iv = in_progress)); [| reflexivity].
  cbn. destruct (idreq_dbThrows req SaveEnded); [reflexivity |].
  cbn. intros H. contradiction H. reflexivity.
Qed.

(** X19: a 200 reply of [POST /:interviewId/end] means that the interview
    was the user's and in progress; it is stored as completed with
    [endedAt] the time of the request and [actualDuration] the elapsed
    time rounded to the nearest minute, its questions and responses
    untouched, and the reply reports that duration and the two lengths.
    Any other reply leaves the database as it was; the DAFs are never
    touched. *)
Theorem endById_records_the_end req db :
  let after := endById req db in
  (id_statusCode after.1 = 200 ->
   ∃ iv minutes,
     interviews db !! idreq_interviewId req = Some iv ∧
     userId iv = idreq_user req ∧ status iv = in_progress ∧
     60000 * minutes - 30000 <= idreq_newDate req - startedAt iv
       < 60000 * minutes + 30000 ∧
     interviews after.2 =
       <[idreq_interviewId req := setCompleted (idreq_newDate req) minutes iv]>
         (interviews db) ∧
     id_data after.1 =
       EndedData (_id iv) (idreq_newDate req) minutes
         (length (questions iv)) (length (responses iv))) ∧
  (id_statusCode after.1 ≠ 200 -> after.2 = db) ∧
  dafs after.2 = dafs db.
Proof.
  cbv zeta. split; [| split].
  - intros H. destruct (endById_success req db H) as (iv & Hiv & Hu & Hs & He).
    exists iv, (roundDiv (idreq_newDate req - startedAt iv) 60000).
    rewrite He. cbn.
    pose proof (roundDiv_nearest (idreq_newDate req - startedAt iv) 60000
                  ltac:(lia)).
    repeat split; try assumption; lia.
  - apply endById_failure.
  - destruct (decide (id_statusCode (endById req db).1 = 200)) as [H | H].
    + destruct (endById_success req db H) as (iv & _ & _ & _ & He).
      rewrite He. reflexivity.
    + rewrite (endById_failure req db H). reflexivity.
Qed.

(** X20: over HTTP an interview is ended once: after a 200 reply, every
    further end request for the same interview, by anybody and at any
    time, is answered 404 'Active interview session not found' (the
    lookup answering) and changes nothing. *)
Theorem endById_ends_once req req' db :
  id_statusCode (endById req db).1 = 200 ->
  idreq_interviewId req' = idreq_interviewId req ->
  idreq_dbThrows req' FindById = false ->
  endById req' (endById req db).2 =
    (idNotFound "Active interview session not found", (endById req db).2).
Proof.
  intros H Hid Hdb. destruct (endById_success req db H) as (iv & _ & _ & _ & He).
  rewrite He. cbn [snd]. unfold endById at 1. rewrite Hdb, Hid. cbn.
  rewrite lookup_insert_eq. cbn. rewrite andb_false_r. reflexivity.
Qed.

(** X20 at the owner ending the interview twice. *)
Lemma endById_ends_once_witness :
  endById Scenario.endRequest (endById Scenario.endRequest Scenario.oneInProgress).2 =
    (idNotFound "Active interview session not found",
     (endById Scenario.endRequest Scenario.oneInProgress).2).
Proof.
  apply (endById_ends_once Scenario.endRequest Scenario.endRequest Scenario.oneInProgress);
    reflexivity.
Defined.

Lemma inProgressOf_insert_completed user id iv (m : gmap string Interview) :
  status iv = completed ->
  inProgressOf user (<[id := iv]> m) = delete id (inProgressOf user m).
Proof.
  intros Hs. unfold inProgressOf.
  rewrite map_filter_insert_False by (cbn; rewrite Hs; intros [_ ?]; discriminate).
  apply map_filter_delete.
Qed.

Lemma size_delete_le {A} (i : string) (m : gmap string A) :
  (size (delete i m) ≤ size m)%nat.
Proof. rewrite map_size_delete. destruct (m !! i); cbn; lia. Qed.

Lemma endById_frees_the_user req db :
  atMostOneInProgress (interviews db) ->
  id_statusCode (endById req db).1 = 200 ->
  inProgressOf (idreq_user req) (interviews (endById req db).2) = ∅.
Proof.
  intros Hinv H.
  destruct (endById_success req db H) as (iv & Hiv & Hu & Hs & He).
  rewrite He. cbn [snd interviews].
  rewrite inProgressOf_insert_completed by reflexivity.
  apply map_size_empty_iff.
  rewrite map_size_delete_Some.
  - specialize (Hinv (idreq_user req)). lia.
  - exists iv. apply map_lookup_filter_Some. cbn. auto.
Qed.

(** X21: [POST /:interviewId/end] preserves "every user has at most one
    interview in progress", whatever the request and whichever database
    call fails; after a 200 reply the requesting user has no interview in
    progress. *)
Theorem endById_keeps_one_in_progress req db :
  atMostOneInProgress (interviews db) ->
  atMostOneInProgress (interviews (endById req db).2) ∧
  (id_statusCode (endById req db).1 = 200 ->
   inProgressOf (idreq_user req) (interviews (endById req db).2) = ∅).
Proof.
  intros Hinv. split; [| apply endById_frees_the_user, Hinv].
  destruct (decide (id_statusCode (endById req db).1 = 200)) as [H | H].
  2:{ rewrite (endById_failure req db H). exact Hinv. }
  destruct (endById_success req db H) as (iv & Hiv & Hu & Hs & He).
  rewrite He. cbn [snd interviews].
  intros user. rewrite inProgressOf_insert_completed by reflexivity.
  etrans; [apply size_delete_le | apply Hinv].
Qed.

(** X21 at the owner ending the only interview. *)
Lemma endById_keeps_one_in_progress_witness :
  atMostOneInProgress (interviews (endById Scenario.endRequest Scenario.oneInProgress).2) ∧
  (id_statusCode (endById Scenario.endRequest Scenario.oneInProgress).1 = 200 ->
   inProgressOf "user-1" (interviews (endById Scenario.endRequest Scenario.oneInProgress).2)
     = ∅).
Proof.
  apply (endById_keeps_one_in_progress Scenario.endRequest Scenario.oneInProgress).
  apply atMostOneInProgress_singleton.
Defined.

(** X22: ending frees the user: when every user has at most one interview
    in progress and a user's end request is answered 200, a valid start
    request of that user (the DAF present, the database answering, the new
    id unused) is answered 201, after which the user has exactly one
    interview in progress and the ended one is completed. *)
Theorem end_then_start req sreq db value :
  atMostOneInProgress (interviews db) ->
  id_statusCode (endById req db).1 = 200 ->
  req_user sreq = idreq_user req ->
  validate (req_body sreq) = inr value ->
  is_Some (findDaf (req_user sreq) (dafs db)) ->
  (∀ call, dbThrows sreq call = false) ->
  interviews db !! newObjectId sreq = None ->
  let after := start sreq (endById req db).2 in
  statusCode after.1 = 201 ∧
  size (inProgressOf (req_user sreq) (interviews after.2)) = 1%nat ∧
  (status <$> interviews after.2 !! idreq_interviewId req) = Some completed.
Proof.
  intros Hinv H Hu Hv [daf Hdaf] Hdb Hnew.
  pose proof (endById_frees_the_user req db Hinv H) as Hfree.
  rewrite <- Hu in Hfree.
  destruct (endById_success req db H) as (iv & Hiv & _ & _ & He).
  rewrite He in *. cbn [snd interviews] in *. cbv zeta.
  assert (Hne : idreq_interviewId req ≠ newObjectId sreq) by congruence.
  unfold start. rewrite Hv, !Hdb. cbn [dafs interviews]. rewrite Hdaf.
  apply findOngoing_None in Hfree. rewrite Hfree. cbn [orb].
  rewrite bool_decide_eq_false_2.
  2:{ rewrite lookup_insert_ne by exact Hne. rewrite Hnew. intros [? ?]. discriminate. }
  cbn [fst snd statusCode interviews]. split; [reflexivity |]. split.
  - apply inProgressOf_insert_same; try reflexivity.
    + rewrite lookup_insert_ne by exact Hne. exact Hnew.
    + apply findOngoing_None, Hfree.
  - rewrite lookup_insert_ne by (intros E; apply Hne; symmetry; exact E).
    rewrite lookup_insert_eq. reflexivity.
Qed.

(** X22 at the owner ending [interview-1] and starting [interview-2]. *)
Lemma end_then_start_witness :
  let after := start Scenario.startAgain (endById Scenario.endRequest Scenario.oneInProgress).2 in
  statusCode after.1 = 201 ∧
  size (inProgressOf "user-1" (interviews after.2)) = 1%nat ∧
  (status <$> interviews after.2 !! "interview-1"%string) = Some completed.
Proof.
  apply (end_then_start Scenario.endRequest Scenario.startAgain Scenario.oneInProgress
           {| v_type := "mock"; v_duration := 45; v_difficulty := "hard";
              v_focusAreas := [] |}).
  - apply atMostOneInProgress_singleton.
  - reflexivity.
  - reflexivity.
  - vm_compute. reflexivity.
  - eexists. vm_compute. reflexivity.
  - intros call. reflexivity.
  - vm_compute. reflexivity.
Defined.

(** X23: the interview of another user is treated as a missing one:
    [GET /:interviewId] and [POST /:interviewId/end] answer a request that
    names somebody else's interview exactly as they would if that
    interview were not in the database, and the end request changes
    nothing. *)
Theorem routes_hide_foreign_interviews req db iv :
  interviews db !! idreq_interviewId req = Some iv ->
  userId iv ≠ idreq_user req ->
  let gone := {| interviews := delete (idreq_interviewId req) (interviews db);
                 dafs := dafs db |} in
  getById req db = getById req gone ∧
  (endById req db).1 = (endById req gone).1 ∧
  (endById req db).2 = db.
Proof.
  intros Hiv Hu. cbv zeta. unfold getById, endById. cbn [interviews].
  rewrite Hiv, lookup_delete_eq, (bool_decide_eq_false_2 _ Hu). cbn [andb].
  destruct (idreq_dbThrows req FindById); repeat split.
Qed.

(** X23 at a stranger naming the interview of [user-1]. *)
Lemma routes_hide_foreign_interviews_witness :
  let gone := {| interviews := delete "interview-1"%string
                                 (interviews Scenario.oneInProgress);
                 dafs := dafs Scenario.oneInProgress |} in
  getById Scenario.foreignRequest Scenario.oneInProgress =
    getById Scenario.foreignRequest gone ∧
  (endById Scenario.foreignRequest Scenario.oneInProgress).1 =
    (endById Scenario.foreignRequest gone).1 ∧
  (endById Scenario.foreignRequest Scenario.oneInProgress).2 =
    Scenario.oneInProgress.
Proof.
  apply (routes_hide_foreign_interviews Scenario.foreignRequest
           Scenario.oneInProgress Scenario.fresh_interview);
    [vm_compute; reflexivity | discriminate].
Defined.

End IdRoutes.

(** * Starting, joining and the DAF *)

Module StartAndJoin.

Import InterviewRoutes StartRoute.

Lemma validate_bounds body value :
  validate body = inr value ->
  15 <= v_duration value <= 60 ∧
  v_type value ∈ ["mock"; "practice"]%string ∧
  v_difficulty value ∈ ["easy"; "medium"; "hard"]%string.
Proof.
  unfold validate, oneOf. cbv zeta.
  case_bool_decide as Ht; cbn [negb]; [| discriminate].
  destruct (Qle_bool (inject_Z (- maxSafeInteger))
              (default (30 # 1)%Q (body_duration body))
            && Qle_bool (default (30 # 1)%Q (body_duration body))
                 (inject_Z maxSafeInteger)); cbn [negb]; [| discriminate].
  destruct (Z.pos (Qden (Qred (default (30 # 1)%Q (body_duration body)))) =? 1)
    eqn:Hden; cbn [negb]; [| discriminate].
  destruct (Qle_bool (15 # 1) (default (30 # 1)%Q (body_duration body)))
    eqn:Hlo; cbn [negb]; [| discriminate].
  destruct (Qle_bool (default (30 # 1)%Q (body_duration body)) (60 # 1))
    eqn:Hhi; cbn [negb]; [| discriminate].
  case_bool_decide as Hd; cbn [negb]; [| discriminate].
  destruct (firstEmpty (default [] (body_focusAreas body))); [discriminate |].
  intros [= <-]. cbn. split; [| split; assumption].
  apply Z.eqb_eq in Hden. apply Qle_bool_iff in Hlo, Hhi.
  rewrite <- (Qred_correct (default (30 # 1)%Q (body_duration body))) in Hlo, Hhi.
  unfold Qle in Hlo, Hhi. cbn in Hlo, Hhi. rewrite Hden in Hlo. lia.
Qed.

Lemma findDaf_Some user ds daf :
  findDaf user ds = Some daf -> daf ∈ ds ∧ daf_userId daf = user.
Proof.
  unfold findDaf. intros H. apply head_Some_elem_of in H.
  apply list_elem_of_filter in H. tauto.
Qed.

Lemma start_success req db :
  statusCode (start req db).1 = 201 ->
  ∃ value daf,
    validate (req_body req) = inr value ∧
    findDaf (req_user req) (dafs db) = Some daf ∧
    findOngoing (req_user req) (interviews db) = None ∧
    interviews db !! newObjectId req = None ∧
    (start req db).2 =
      {| interviews :=
           <[newObjectId req :=
               {| _id := newObjectId req; userId := req_user req;
                  dafId := daf_id daf; type := v_type value;
                  duration := v_duration value; difficulty := v_difficulty value;
                  focusAreas := v_focusAreas value; status := in_progress;
                  startedAt := newDate req; endedAt := None;
                  actualDuration := None; questions := []; responses := [];
                  panelists := defaultPanelists |}]> (interviews db);
         dafs := dafs db |}.
Proof.
  unfold start.
  destruct (validate (req_body req)) as [e | value]; [discriminate |].
  destruct (dbThrows req DafFindOne); [discriminate |].
  destruct (findDaf (req_user req) (dafs db)) as [daf |]; [| discriminate].
  destruct (dbThrows req InterviewFindOne); [discriminate |].
  destruct (findOngoing (req_user req) (interviews db)) as [o |]; [discriminate |].
  destruct (dbThrows req InterviewSave); [discriminate |]. cbn [orb].
  case_bool_decide as Hnew; [discriminate |].
  intros _. exists value, daf. repeat split.
  destruct (interviews db !! newObjectId req) eqn:E; [| reflexivity].
  exfalso. apply Hnew. eexists; reflexivity.
Qed.

Lemma start_failure req db :
  statusCode (start req db).1 ≠ 201 -> (start req db).2 = db.
Proof.
  unfold start.
  destruct (validate (req_body req)) as [e | value]; [reflexivity |].
  destruct (dbThrows req DafFindOne); [reflexivity |].
  destruct (findDaf (req_user req) (dafs db)) as [daf |]; [| reflexivity].
  destruct (dbThrows req InterviewFindOne); [reflexivity |].
  destruct (findOngoing (req_user req) (interviews db)) as [o |]; [reflexivity |].
  destruct (dbThrows req InterviewSave
            || bool_decide (is_Some (interviews db !! newObjectId req)));
    [reflexivity |].
  cbn. intros H. contradiction H. reflexivity.
Qed.

(** X24: a 201 reply of [POST /start] means that exactly one interview
    was added, under an id that was not in use: it belongs to the
    requesting user and refers to a DAF of that user, is in progress,
    started at the time of the request, has no question and no response,
    a duration of 15 to 60 minutes and a type and a difficulty from the
    schema's lists; and the user had no interview in progress.  Any other
    reply leaves the database as it was; the DAFs are never touched. *)
Theorem start_creates_a_valid_interview req db :
  let after := start req db in
  (statusCode after.1 = 201 ->
   ∃ iv daf,
     interviews db !! newObjectId req = None ∧
     interviews after.2 = <[newObjectId req := iv]> (interviews db) ∧
     _id iv = newObjectId req ∧ userId iv = req_user req ∧
     daf ∈ dafs db ∧ daf_userId daf = req_user req ∧ dafId iv = daf_id daf ∧
     status iv = in_progress ∧ startedAt iv = newDate req ∧
     endedAt iv = None ∧ actualDuration iv = None ∧
     questions iv = [] ∧ responses iv = [] ∧
     15 <= duration iv <= 60 ∧
     type iv ∈ ["mock"; "practice"]%string ∧
     difficulty iv ∈ ["easy"; "medium"; "hard"]%string ∧
     inProgressOf (req_user req) (interviews db) = ∅) ∧
  (statusCode after.1 ≠ 201 -> after.2 = db) ∧
  dafs after.2 = dafs db.
Proof.
  cbv zeta. split; [| split].
  - intros H.
    destruct (start_success req db H) as (value & daf & Hv & Hd & Ho & Hn & He).
    rewrite He. cbn [snd interviews].
    destruct (validate_bounds _ _ Hv) as (Hdur & Hty & Hdi).
    destruct (findDaf_Some _ _ _ Hd) as [Hin Hdu].
    eexists _, daf. split; [exact Hn |]. split; [reflexivity |]. cbn.
    repeat split; try assumption; try lia.
    apply findOngoing_None, Ho.
  - apply start_failure.
  - destruct (decide (statusCode (start req db).1 = 201)) as [H | H].
    + destruct (start_success req db H) as (? & ? & _ & _ & _ & _ & He).
      rewrite He. reflexivity.
    + rewrite (start_failure req db H). reflexivity.
Qed.

(** X25: an interview created by [POST /start] can be joined by a socket
    of the same user: when the question generator, the synthesizer and
    the database answer, the socket is sent [first_question] with number
    1 and the three default panelists, the stored interview has exactly
    that question and no response, and the socket has a new session for
    it with index 0 and the latch clear. *)
Theorem start_then_join req db env socket w q buf :
  statusCode (start req db).1 = 201 ->
  SocketService.interviews w = interviews (start req db).2 ->
  socket_userId socket = req_user req ->
  SocketService.dbThrows env FindOne = false ->
  (∀ daf, generateFirstQuestion env daf = Returns q) ->
  synthesizeSpeech env (q_text q) = Returns (Some buf) ->
  SocketService.dbThrows env PushQuestion = false ->
  let w' := handle (JoinInterview env socket (Some (newObjectId req))) w in
  emitted w' =
    emitted w ++ [(socket_id socket, first_question q 1 buf defaultPanelists)] ∧
  (questions <$> SocketService.interviews w' !! newObjectId req) = Some [q] ∧
  (responses <$> SocketService.interviews w' !! newObjectId req) = Some [] ∧
  ∃ s, sessionOf (socket_id socket) w' = Some (fresh (dom (sessions w)), s) ∧
       interviewId s = newObjectId req ∧ currentQuestionIndex s = 0 ∧
       isProcessing s = false.
Proof.
  intros H Hw Hu Hf Hg Hsy Hp.
  destruct (start_success req db H) as (value & daf & _ & _ & _ & _ & He).
  rewrite He in Hw. cbn [snd interviews] in Hw.
  assert (Hiv : SocketService.interviews w !! newObjectId req = Some
    {| _id := newObjectId req; userId := req_user req;
       dafId := daf_id daf; type := v_type value;
       duration := v_duration value; difficulty := v_difficulty value;
       focusAreas := v_focusAreas value; status := in_progress;
       startedAt := newDate req; endedAt := None;
       actualDuration := None; questions := []; responses := [];
       panelists := defaultPanelists |})
    by (rewrite Hw; apply lookup_insert_eq).
  cbv zeta. cbn [handle].
  unfold exec, join_interview, tryCatch, bind, destructure, ret, findOne, gets.
  rewrite Hf, Hiv. cbn [userId status]. rewrite Hu.
  rewrite !bool_decide_eq_true_2 by reflexivity. cbn.
  unfold generateAndSendFirstQuestion, tryCatch, bind, await, findByIdAndUpdate.
  rewrite Hg. cbn. rewrite Hsy, Hp. cbn.
  unfold sessionOf. cbn.
  rewrite !lookup_insert_eq, lookup_alter_eq, Hiv. cbn.
  repeat split. eexists. repeat split.
Qed.

(** X25 at [user-1] starting [interview-2] and joining it. *)
Lemma start_then_join_witness :
  let w := Scenario.serving (start Scenario.startAgain Scenario.registered).2 in
  let w' := handle (JoinInterview Scenario.healthy Scenario.alice
                      (Some "interview-2"%string)) w in
  emitted w' =
    emitted w ++
      [("socket-1"%string,
        first_question (Scenario.questionNo 1) 1 [82; 73; 70; 70]%N
          defaultPanelists)] ∧
  (questions <$> SocketService.interviews w' !! "interview-2"%string)
    = Some [Scenario.questionNo 1] ∧
  (responses <$> SocketService.interviews w' !! "interview-2"%string) = Some [] ∧
  ∃ s, sessionOf "socket-1" w' = Some (fresh (dom (sessions w)), s) ∧
       interviewId s = "interview-2"%string ∧ currentQuestionIndex s = 0 ∧
       isProcessing s = false.
Proof.
  apply (start_then_join Scenario.startAgain Scenario.registered Scenario.healthy
           Scenario.alice
           (Scenario.serving (start Scenario.startAgain Scenario.registered).2)
           (Scenario.questionNo 1) [82; 73; 70; 70]%N);
    reflexivity.
Defined.

End StartAndJoin.

Module DafProps.

Import InterviewRoutes DafRoutes.

Lemma findDaf_None user ds : findDaf user ds = None <-> dafsOf user ds = [].
Proof.
  unfold findDaf, dafsOf.
  destruct (filter _ ds) as [| d l]; cbn; split; intros H;
    try reflexivity; discriminate.
Qed.


Lemma dafsOf_removeFirst_other user user' ds :
  user ≠ user' -> dafsOf user (removeFirst user' ds) = dafsOf user ds.
Proof.
  intros Hne. unfold dafsOf. induction ds as [| d ds IH]; cbn [removeFirst];
    [reflexivity |].
  case_bool_decide as Hd.
  - rewrite filter_cons_False by congruence. reflexivity.
  - rewrite !filter_cons. rewrite IH. reflexivity.
Qed.

Lemma dafsOf_removeFirst_same user ds :
  length (dafsOf user (removeFirst user ds)) = pred (length (dafsOf user ds)).
Proof.
  unfold dafsOf. induction ds as [| d ds IH]; cbn [removeFirst]; [reflexivity |].
  case_bool_decide as Hd.
  - rewrite filter_cons_True by exact Hd. reflexivity.
  - rewrite !filter_cons_False by exact Hd. exact IH.
Qed.


Lemma dafsOf_one_other user d : daf_userId d ≠ user -> dafsOf user [d] = [].
Proof.
  intros H. unfold dafsOf. rewrite filter_cons_False by exact H. reflexivity.
Qed.




(** X27: [DELETE /delete] does not look at the interviews: after a 200
    reply they are all still there (also one in progress that refers to
    the deleted DAF), the user has no DAF left, and a valid start request
    of that user is answered 400 'Please submit your DAF before starting
    an interview' (the lookup answering) and changes nothing. *)
Theorem delete_then_start req sreq db value :
  oneDafPerUser (dafs db) ->
  daf_statusCode (delete_ req db).1 = 200 ->
  req_user sreq = dafreq_user req ->
  validate (req_body sreq) = inr value ->
  dbThrows sreq DafFindOne = false ->
  let db' := (delete_ req db).2 in
  interviews db' = interviews db ∧
  oneDafPerUser (dafs db') ∧
  start sreq db' =
    ({| statusCode := 400; success := false;
        message := "Please submit your DAF before starting an interview";
        data := NoData |}, db').
Proof.
  intros Hinv H Hu Hv Hdb. cbv zeta.
  assert (He : (delete_ req db).2 =
    {| interviews := interviews db;
       dafs := removeFirst (dafreq_user req) (dafs db) |}).
  { revert H. unfold delete_.
    destruct (dafreq_dbThrows req DafFindOneAndDelete); [discriminate |].
    destruct (findDaf (dafreq_user req) (dafs db)); [reflexivity | discriminate]. }
  rewrite He. cbn [interviews dafs]. split; [reflexivity |].
  assert (Hgone : dafsOf (dafreq_user req)
                    (removeFirst (dafreq_user req) (dafs db)) = []).
  { apply length_zero_iff_nil. rewrite dafsOf_removeFirst_same.
    specialize (Hinv (dafreq_user req)). lia. }
  split.
  - intros user. destruct (decide (user = dafreq_user req)) as [-> | Hne].
    + rewrite Hgone. cbn. lia.
    + rewrite dafsOf_removeFirst_other by exact Hne. apply Hinv.
  - unfold start. rewrite Hv, Hdb, Hu. cbn [dafs].
    apply findDaf_None in Hgone. rewrite Hgone. reflexivity.
Qed.

Lemma oneDafPerUser_one d : oneDafPerUser [d].
Proof.
  intros user. destruct (decide (daf_userId d = user)) as [H | H].
  - unfold dafsOf. rewrite filter_cons_True by exact H. cbn. lia.
  - rewrite dafsOf_one_other by exact H. cbn. lia.
Qed.


(** X27 at [user-1] deleting the DAF while [interview-1] is in progress. *)
Lemma delete_then_start_witness :
  let db' := (delete_ Scenario.aliceDeletes Scenario.oneInProgress).2 in
  interviews db' = interviews Scenario.oneInProgress ∧
  oneDafPerUser (dafs db') ∧
  start Scenario.startAgain db' =
    ({| statusCode := 400; success := false;
        message := "Please submit your DAF before starting an interview";
        data := NoData |}, db').
Proof.
  apply (delete_then_start Scenario.aliceDeletes Scenario.startAgain
           Scenario.oneInProgress
           {| v_type := "mock"; v_duration := 45; v_difficulty := "hard";
              v_focusAreas := [] |});
    try reflexivity.
  apply oneDafPerUser_one.
Defined.

End DafProps.

(** * What the handlers never change *)

(** ** The interviews *)

Lemma sameInterview_refl iv : sameInterview iv iv.
Proof. repeat split; auto. Qed.

Lemma sameInterview_trans iv1 iv2 iv3 :
  sameInterview iv1 iv2 -> sameInterview iv2 iv3 -> sameInterview iv1 iv3.
Proof.
  unfold sameInterview. intros H1 H2.
  destruct H1 as (?&?&?&?&?&?&?&?&?&?), H2 as (?&?&?&?&?&?&?&?&?&?).
  repeat split; try congruence. auto.
Qed.

Lemma settled_refl m : settled m m.
Proof.
  intros id. destruct (m !! id); [apply sameInterview_refl | exact I].
Qed.

Lemma settled_alter f id m m' :
  (∀ iv, sameInterview iv (f iv)) ->
  settled m m' -> settled m (alter f id m').
Proof.
  intros Hf H id'. specialize (H id').
  destruct (decide (id = id')) as [-> | Hne].
  - rewrite lookup_alter_eq.
    destruct (m !! id') as [iv |], (m' !! id') as [iv' |]; cbn; try exact H.
    eapply sameInterview_trans; [exact H | apply Hf].
  - rewrite lookup_alter_ne by exact Hne. exact H.
Qed.

Lemma sameInterview_pushResponse r iv : sameInterview iv (pushResponse r iv).
Proof. repeat split; auto. Qed.

Lemma sameInterview_pushQuestion q iv : sameInterview iv (pushQuestion q iv).
Proof. repeat split; auto. Qed.

Lemma sameInterview_setCompleted e a iv : sameInterview iv (setCompleted e a iv).
Proof. repeat split; auto. Qed.

Ltac settled_tac :=
  intros; cbv beta in *;
  repeat first
    [ assumption
    | apply settled_refl
    | match goal with
      | |- settled ?m (interviews (with_emitted _ ?w)) =>
        change (settled m (interviews w))
      | |- settled ?m (interviews (with_sessions _ ?w)) =>
        change (settled m (interviews w))
      | |- settled ?m (interviews (with_activeInterviews _ ?w)) =>
        change (settled m (interviews w))
      | |- settled ?m (interviews (with_rooms _ ?w)) =>
        change (settled m (interviews w))
      | |- settled ?m (interviews (with_interviews (alter ?f ?id) ?w)) =>
        change (settled m (alter f id (interviews w)));
        apply settled_alter;
        [first [apply sameInterview_pushResponse | apply sameInterview_pushQuestion
               | apply sameInterview_setCompleted] |]
      end ].

Lemma endInterview_settled env socket ref m w :
  settled m (interviews w) ->
  wp (endInterview env socket ref)
     (fun _ w' => settled m (interviews w'))
     (fun _ w' => settled m (interviews w')) w.
Proof. intros H. unfold endInterview. repeat wp_step; settled_tac. Qed.

Lemma generateAndSendFirstQuestion_settled env socket iv m w :
  settled m (interviews w) ->
  wp (generateAndSendFirstQuestion env socket iv)
     (fun _ w' => settled m (interviews w'))
     (fun _ w' => settled m (interviews w')) w.
Proof.
  intros H. unfold generateAndSendFirstQuestion. repeat wp_step; settled_tac.
Qed.

Lemma handle_settled ev m w :
  settled m (interviews w) -> settled m (interviews (handle ev w)).
Proof.
  intros Hw.
  destruct ev as [env socket data | env socket data | env socket | socket | socket b];
    cbn [handle].
  - apply (wp_exec _ (fun w' => settled m (interviews w'))).
    unfold join_interview. repeat wp_step; try solve [settled_tac].
    apply wp_findOne; intros; repeat wp_step; try solve [settled_tac].
    destruct r as [iv |]; repeat wp_step; try solve [settled_tac].
    destruct (length (questions iv) =? 0)%nat; repeat wp_step;
      try solve [settled_tac].
    apply generateAndSendFirstQuestion_settled. settled_tac.
  - apply (wp_exec _ (fun w' => settled m (interviews w'))).
    unfold audio_response. wp_step.
    apply (wp_mono _ (fun _ w' => settled m (interviews w')) _
                     (fun _ w' => settled m (interviews w'))).
    { auto. }
    { intros e w' H. repeat wp_step. cbn.
      destruct (activeInterviews w' !! socket_id socket); repeat wp_step;
        settled_tac. }
    repeat wp_step.
    destruct (activeInterviews w !! socket_id socket) as [ref |];
      repeat wp_step; try solve [settled_tac].
    destruct (isProcessing s); repeat wp_step; try solve [settled_tac].
    apply wp_checkTranscription; [| solve [settled_tac]].
    intros [text |]; repeat wp_step; try solve [settled_tac].
    eapply wp_mono; [| | apply generateNextQuestion_world with
      (P := fun w' => settled m (interviews w'))]; try solve [settled_tac].
    intros [question |] w' H'; cbv beta in *; repeat wp_step;
      try solve [settled_tac].
    eapply wp_mono; [| | apply endInterview_settled, H']; try solve [settled_tac].
  - apply (wp_exec _ (fun w' => settled m (interviews w'))).
    unfold end_interview. repeat wp_step.
    destruct (activeInterviews w !! socket_id socket) as [ref |]; repeat wp_step;
      try solve [settled_tac].
    apply endInterview_settled, Hw.
  - exact Hw.
  - apply (wp_exec _ (fun w' => settled m (interviews w'))).
    unfold typing. repeat wp_step.
    destruct (activeInterviews w !! socket_id socket) as [ref |]; repeat wp_step;
      try solve [settled_tac].
Qed.

(** X28: the socket service neither creates nor deletes an interview, and
    after any sequence of events every interview has the id, the owner,
    the DAF, the type, the planned duration, the difficulty, the focus
    areas, the start time and the panelists it had; an interview that was
    completed is still completed. *)
Theorem interviews_keep_their_identity evs w id :
  match interviews w !! id, interviews (run evs w) !! id with
  | Some iv, Some iv' => sameInterview iv iv'
  | None, None => True
  | _, _ => False
  end.
Proof.
  assert (H : ∀ w', settled (interviews w) (interviews w') ->
                    settled (interviews w) (interviews (run evs w'))).
  { induction evs as [| ev evs IH]; intros w' Hw'; [exact Hw' |].
    change (run (ev :: evs) w') with (run evs (handle ev w')).
    apply IH, handle_settled, Hw'. }
  apply (H w (settled_refl _)).
Qed.

(** ** The session objects *)

Lemma frozen_refl s : frozen s s.
Proof. repeat split; lia. Qed.

Lemma frozen_trans s1 s2 s3 : frozen s1 s2 -> frozen s2 s3 -> frozen s1 s3.
Proof.
  intros (?&?&?&?) (?&?&?&?). repeat split; try congruence. lia.
Qed.

Lemma snapshotsKept_refl m : snapshotsKept m m.
Proof. intros r s Hs. exists s. split; [exact Hs | apply frozen_refl]. Qed.

Lemma snapshotsKept_alter f ref m m' :
  (∀ s, frozen s (f s)) -> snapshotsKept m m' -> snapshotsKept m (alter f ref m').
Proof.
  intros Hf H r s Hs. destruct (H r s Hs) as (s' & Hs' & Hfr).
  destruct (decide (ref = r)) as [-> | Hne].
  - exists (f s'). rewrite lookup_alter_eq, Hs'. split; [reflexivity |].
    eapply frozen_trans; [exact Hfr | apply Hf].
  - exists s'. rewrite lookup_alter_ne by exact Hne. split; assumption.
Qed.

Lemma snapshotsKept_insert s0 m m' :
  snapshotsKept m m' -> snapshotsKept m (<[fresh (dom m') := s0]> m').
Proof.
  intros H r s Hs. destruct (H r s Hs) as (s' & Hs' & Hfr).
  exists s'. split; [| exact Hfr].
  rewrite lookup_insert_ne; [exact Hs' |].
  intros <-. pose proof (is_fresh (dom m')) as Hf.
  apply not_elem_of_dom in Hf. congruence.
Qed.

Lemma frozen_set_isProcessing b s : frozen s (set_isProcessing b s).
Proof. repeat split; cbn; lia. Qed.

Lemma frozen_increment s : frozen s (increment_currentQuestionIndex s).
Proof. repeat split; cbn; lia. Qed.

Ltac kept_sessions_tac :=
  intros; cbv beta in *;
  repeat first
    [ assumption
    | apply snapshotsKept_refl
    | match goal with
      | |- snapshotsKept ?m (sessions (with_emitted _ ?w)) =>
        change (snapshotsKept m (sessions w))
      | |- snapshotsKept ?m (sessions (with_interviews _ ?w)) =>
        change (snapshotsKept m (sessions w))
      | |- snapshotsKept ?m (sessions (with_activeInterviews _ ?w)) =>
        change (snapshotsKept m (sessions w))
      | |- snapshotsKept ?m (sessions (with_rooms _ ?w)) =>
        change (snapshotsKept m (sessions w))
      | |- snapshotsKept ?m (sessions (with_sessions (alter ?f ?r) ?w)) =>
        change (snapshotsKept m (alter f r (sessions w)));
        apply snapshotsKept_alter;
        [first [apply frozen_set_isProcessing | apply frozen_increment] |]
      | |- snapshotsKept ?m (sessions (with_sessions (insert _ ?s) ?w)) =>
        apply (snapshotsKept_insert s m (sessions w))
      end ].

Lemma endInterview_snapshotsKept env socket ref m w :
  snapshotsKept m (sessions w) ->
  wp (endInterview env socket ref)
     (fun _ w' => snapshotsKept m (sessions w'))
     (fun _ w' => snapshotsKept m (sessions w')) w.
Proof. intros H. unfold endInterview. repeat wp_step; kept_sessions_tac. Qed.

Lemma generateAndSendFirstQuestion_snapshotsKept env socket iv m w :
  snapshotsKept m (sessions w) ->
  wp (generateAndSendFirstQuestion env socket iv)
     (fun _ w' => snapshotsKept m (sessions w'))
     (fun _ w' => snapshotsKept m (sessions w')) w.
Proof.
  intros H. unfold generateAndSendFirstQuestion. repeat wp_step; kept_sessions_tac.
Qed.

Lemma handle_snapshotsKept ev m w :
  snapshotsKept m (sessions w) -> snapshotsKept m (sessions (handle ev w)).
Proof.
  intros Hw.
  destruct ev as [env socket data | env socket data | env socket | socket | socket b];
    cbn [handle].
  - apply (wp_exec _ (fun w' => snapshotsKept m (sessions w'))).
    unfold join_interview. repeat wp_step; try solve [kept_sessions_tac].
    apply wp_findOne; intros; repeat wp_step; try solve [kept_sessions_tac].
    destruct r as [iv |]; repeat wp_step; try solve [kept_sessions_tac].
    destruct (length (questions iv) =? 0)%nat; repeat wp_step;
      try solve [kept_sessions_tac].
    apply generateAndSendFirstQuestion_snapshotsKept. kept_sessions_tac.
  - apply (wp_exec _ (fun w' => snapshotsKept m (sessions w'))).
    unfold audio_response. wp_step.
    apply (wp_mono _ (fun _ w' => snapshotsKept m (sessions w')) _
                     (fun _ w' => snapshotsKept m (sessions w'))).
    { auto. }
    { intros e w' H. repeat wp_step. cbn.
      destruct (activeInterviews w' !! socket_id socket); repeat wp_step;
        kept_sessions_tac. }
    repeat wp_step.
    destruct (activeInterviews w !! socket_id socket) as [ref |];
      repeat wp_step; try solve [kept_sessions_tac].
    destruct (isProcessing s); repeat wp_step; try solve [kept_sessions_tac].
    apply wp_checkTranscription; [| solve [kept_sessions_tac]].
    intros [text |]; repeat wp_step; try solve [kept_sessions_tac].
    eapply wp_mono; [| | apply generateNextQuestion_world with
      (P := fun w' => snapshotsKept m (sessions w'))];
      try solve [kept_sessions_tac].
    intros [question |] w' H'; cbv beta in *; repeat wp_step;
      try solve [kept_sessions_tac].
    eapply wp_mono; [| | apply endInterview_snapshotsKept, H'];
      try solve [kept_sessions_tac
                | intros; cbv beta in *; repeat wp_step; kept_sessions_tac].
  - apply (wp_exec _ (fun w' => snapshotsKept m (sessions w'))).
    unfold end_interview. repeat wp_step.
    destruct (activeInterviews w !! socket_id socket) as [ref |]; repeat wp_step;
      try solve [kept_sessions_tac].
    apply endInterview_snapshotsKept, Hw.
  - exact Hw.
  - apply (wp_exec _ (fun w' => snapshotsKept m (sessions w'))).
    unfold typing. repeat wp_step.
    destruct (activeInterviews w !! socket_id socket) as [ref |]; repeat wp_step;
      try solve [kept_sessions_tac].
Qed.

(** X29: a session object is never refreshed: whatever events follow
    (answers, questions stored, ends, also through other connections), the
    object still exists, refers to the same interview of the same user,
    and holds the copy of the interview that was loaded when it was
    created, so the question count and the start time the lifecycle policy
    reads are those of the join; its index never decreases. *)
Theorem session_snapshot_is_never_refreshed evs w ref s :
  sessions w !! ref = Some s ->
  ∃ s', sessions (run evs w) !! ref = Some s' ∧
        interviewId s' = interviewId s ∧ session_userId s' = session_userId s ∧
        interview s' = interview s ∧
        currentQuestionIndex s <= currentQuestionIndex s'.
Proof.
  assert (H : ∀ w', snapshotsKept (sessions w) (sessions w') ->
                    snapshotsKept (sessions w) (sessions (run evs w'))).
  { induction evs as [| ev evs IH]; intros w' Hw'; [exact Hw' |].
    change (run (ev :: evs) w') with (run evs (handle ev w')).
    apply IH, handle_snapshotsKept, Hw'. }
  intros Hs. apply (H w (snapshotsKept_refl _) ref s Hs).
Qed.

(** X29 at the session of [Scenario.joined] after three answers. *)
Lemma session_snapshot_is_never_refreshed_witness :
  ∃ s', sessions (run (replicate 3 (AudioResponse Scenario.healthy Scenario.alice
                                      (Some Scenario.answer)))
                    Scenario.joined) !! 0%nat = Some s' ∧
        interviewId s' = interviewId Scenario.session0 ∧
        session_userId s' = session_userId Scenario.session0 ∧
        interview s' = interview Scenario.session0 ∧
        currentQuestionIndex Scenario.session0 <= currentQuestionIndex s'.
Proof.
  apply (session_snapshot_is_never_refreshed
           (replicate 3 (AudioResponse Scenario.healthy Scenario.alice
                           (Some Scenario.answer)))
           Scenario.joined 0%nat Scenario.session0).
  vm_compute. reflexivity.
Defined.

(** ** The rooms *)

Lemma inItsRoom_alter f ref w :
  (∀ s, interviewId (f s) = interviewId s) ->
  inItsRoom w -> inItsRoom (with_sessions (alter f ref) w).
Proof.
  intros Hf H sid r s Ha Hs. cbn in Ha, Hs |- *.
  destruct (decide (ref = r)) as [-> | Hne].
  - rewrite lookup_alter_eq in Hs.
    destruct (sessions w !! r) as [s0 |] eqn:Hs0; [| discriminate].
    injection Hs as <-. rewrite Hf. eapply H; eassumption.
  - rewrite lookup_alter_ne in Hs by exact Hne. eapply H; eassumption.
Qed.

Lemma inItsRoom_delete sid0 w :
  inItsRoom w -> inItsRoom (with_activeInterviews (delete sid0) w).
Proof.
  intros H sid r s Ha Hs. cbn in Ha, Hs |- *.
  apply lookup_delete_Some in Ha as [_ Ha]. eapply H; eassumption.
Qed.

Lemma inItsRoom_left sid0 room w :
  inItsRoom w ->
  inItsRoom
    (with_activeInterviews (delete sid0)
       (with_rooms (alter (fun members => members ∖ {[sid0]}) room) w)).
Proof.
  intros H sid r s Ha Hs. cbn in Ha, Hs |- *.
  apply lookup_delete_Some in Ha as [Hne Ha].
  pose proof (H sid r s Ha Hs) as Hin.
  destruct (decide (room = roomOf (interviewId s))) as [-> | Hr].
  - rewrite lookup_alter_eq.
    destruct (rooms w !! roomOf (interviewId s)) as [members |]; cbn in *;
      set_solver.
  - rewrite lookup_alter_ne by exact Hr. exact Hin.
Qed.

Lemma inItsRoom_disconnected sid0 w :
  inItsRoom w ->
  inItsRoom
    (with_activeInterviews (delete sid0)
       (with_rooms (fmap (fun members => members ∖ {[sid0]})) w)).
Proof.
  intros H sid r s Ha Hs. cbn in Ha, Hs |- *.
  apply lookup_delete_Some in Ha as [Hne Ha].
  pose proof (H sid r s Ha Hs) as Hin.
  rewrite lookup_fmap.
  destruct (rooms w !! roomOf (interviewId s)) as [members |]; cbn in *;
    set_solver.
Qed.

Lemma inItsRoom_joined sid s w :
  wellFormed w -> inItsRoom w ->
  inItsRoom
    (with_activeInterviews (insert sid (fresh (dom (sessions w))))
       (with_sessions (insert (fresh (dom (sessions w))) s)
          (with_rooms
             (fun rs => <[roomOf (interviewId s) :=
                            {[sid]} ∪ default ∅ (rs !! roomOf (interviewId s))]> rs)
             w))).
Proof.
  intros [Hex _] H sid' r s' Ha Hs. cbn in Ha, Hs |- *.
  assert (Hfresh : sessions w !! fresh (dom (sessions w)) = None)
    by apply not_elem_of_dom, is_fresh.
  assert (Hgrow : ∀ x room, x ∈ default ∅ (rooms w !! room) ->
    x ∈ default ∅ (<[roomOf (interviewId s) :=
                       {[sid]} ∪ default ∅ (rooms w !! roomOf (interviewId s))]>
                     (rooms w) !! room)).
  { intros x room Hx. destruct (decide (roomOf (interviewId s) = room)) as [<- | Hr].
    - rewrite lookup_insert_eq. cbn. set_solver.
    - rewrite lookup_insert_ne by exact Hr. exact Hx. }
  apply lookup_insert_Some in Ha as [[<- <-] | [Hne Ha]].
  - rewrite lookup_insert_eq in Hs. injection Hs as <-.
    rewrite lookup_insert_eq. cbn. set_solver.
  - destruct (Hex _ _ Ha) as [s0 Hs0].
    rewrite lookup_insert_ne in Hs by congruence.
    apply Hgrow. eapply H; eassumption.
Qed.

Ltac room_tac :=
  intros; cbv beta in *;
  repeat first
    [ assumption
    | apply inItsRoom_left
    | apply inItsRoom_delete
    | apply inItsRoom_alter; [intros []; reflexivity |]
    | match goal with
      | |- inItsRoom (with_emitted _ ?w) => change (inItsRoom w)
      | |- inItsRoom (with_interviews _ ?w) =>
        let H := fresh in
        assert (H : inItsRoom w); [| exact H]
      end ].

Lemma endInterview_inItsRoom env socket ref w :
  inItsRoom w ->
  wp (endInterview env socket ref)
     (fun _ w' => inItsRoom w') (fun _ w' => inItsRoom w') w.
Proof. intros H. unfold endInterview. repeat wp_step; room_tac. Qed.

Lemma generateAndSendFirstQuestion_inItsRoom env socket iv w :
  inItsRoom w ->
  wp (generateAndSendFirstQuestion env socket iv)
     (fun _ w' => inItsRoom w') (fun _ w' => inItsRoom w') w.
Proof.
  intros H. unfold generateAndSendFirstQuestion. repeat wp_step; room_tac.
Qed.

Lemma handle_inItsRoom ev w :
  wellFormed w -> inItsRoom w -> inItsRoom (handle ev w).
Proof.
  intros Hwf Hw.
  destruct ev as [env socket data | env socket data | env socket | socket | socket b];
    cbn [handle]; apply wp_exec.
  - unfold join_interview. repeat wp_step; try solve [room_tac].
    apply wp_findOne; intros; repeat wp_step; try solve [room_tac].
    destruct r as [iv |]; repeat wp_step; try solve [room_tac].
    destruct (length (questions iv) =? 0)%nat; repeat wp_step.
    + apply generateAndSendFirstQuestion_inItsRoom.
      apply (inItsRoom_joined (socket_id socket)
               {| interviewId := d; session_userId := socket_userId socket;
                  interview := iv;
                  currentQuestionIndex := Z.of_nat (length (questions iv));
                  isProcessing := false |} w Hwf Hw).
    + change (inItsRoom (with_emitted ?f ?x)) with (inItsRoom x).
      apply (inItsRoom_joined (socket_id socket)
               {| interviewId := d; session_userId := socket_userId socket;
                  interview := iv;
                  currentQuestionIndex := Z.of_nat (length (questions iv));
                  isProcessing := false |} w Hwf Hw).
  - unfold audio_response. wp_step.
    apply (wp_mono _ (fun _ w' => inItsRoom w') _ (fun _ w' => inItsRoom w')).
    { auto. }
    { intros e w' H. repeat wp_step. cbn.
      destruct (activeInterviews w' !! socket_id socket); repeat wp_step; room_tac. }
    repeat wp_step.
    destruct (activeInterviews w !! socket_id socket) as [ref |];
      repeat wp_step; try solve [room_tac].
    destruct (isProcessing s); repeat wp_step; try solve [room_tac].
    apply wp_checkTranscription; [| solve [room_tac]].
    intros [text |]; repeat wp_step; try solve [room_tac].
    eapply wp_mono; [| | apply generateNextQuestion_world with
      (P := fun w' => inItsRoom w')]; try solve [room_tac].
    intros [question |] w' H'; cbv beta in *; repeat wp_step; try solve [room_tac].
    eapply wp_mono; [| | apply endInterview_inItsRoom, H'];
      try solve [room_tac | intros; cbv beta in *; repeat wp_step; room_tac].
  - unfold end_interview. repeat wp_step.
    destruct (activeInterviews w !! socket_id socket) as [ref |]; repeat wp_step;
      try solve [room_tac].
    apply endInterview_inItsRoom, Hw.
  - repeat wp_step. apply inItsRoom_disconnected, Hw.
  - unfold typing. repeat wp_step.
    destruct (activeInterviews w !! socket_id socket) as [ref |]; repeat wp_step;
      try solve [room_tac].
Qed.

(** X30: a connection that has a session is always a member of the room
    of its session's interview: the property holds after any sequence of
    events when it holds before (as it does when nobody is connected), so
    room broadcasts such as [user_typing] reach every connection that has
    a session on the interview. *)
Theorem sessions_stay_in_their_room evs w :
  wellFormed w -> inItsRoom w -> inItsRoom (run evs w).
Proof.
  revert w. induction evs as [| ev evs IH]; intros w Hwf Hw; [exact Hw |].
  change (run (ev :: evs) w) with (run evs (handle ev w)).
  apply IH; [apply handle_wellFormed, Hwf | apply handle_inItsRoom; assumption].
Qed.

(** X30 at two connections of which one answers and the other ends the
    interview: the first still has its session and is in the room. *)
Lemma sessions_stay_in_their_room_witness :
  inItsRoom (run Scenario.busy (Scenario.world_of (Scenario.interview_with 1))) ∧
  activeInterviews
    (run Scenario.busy (Scenario.world_of (Scenario.interview_with 1)))
    !! "socket-1"%string = Some 0%nat.
Proof.
  split; [| vm_compute; reflexivity].
  apply (sessions_stay_in_their_room Scenario.busy
           (Scenario.world_of (Scenario.interview_with 1))).
  - apply wellFormed_world_of.
  - intros sid ref s Ha. cbn in Ha. rewrite lookup_empty in Ha. discriminate Ha.
Defined.

(** * Handlers whose awaits interleave *)

Import Interleaving Sequences Transcription.

(** ** The handlers without suspension points are the uninterrupted runs *)

Section Refinement.
Context {A B : Type}.

Lemma uninterrupted_andThen (r : Async.Run B) (k : B -> Async.T A) :
  Async.uninterrupted (Async.andThen r k) =
    match Async.uninterrupted r with
    | (Returns b, w') => Async.uninterrupted (k b w')
    | (Throws e, w') => (Throws e, w')
    end.
Proof.
  induction r as [[b | e] w | w resume IH]; cbn; [reflexivity | reflexivity |].
  apply IH.
Qed.

Lemma uninterrupted_orElse (r : Async.Run A) (handler : Error -> Async.T A) :
  Async.uninterrupted (Async.orElse r handler) =
    match Async.uninterrupted r with
    | (Returns a, w') => (Returns a, w')
    | (Throws e, w') => Async.uninterrupted (handler e w')
    end.
Proof.
  induction r as [[a | e] w | w resume IH]; cbn; [reflexivity | reflexivity |].
  apply IH.
Qed.

Lemma uninterrupted_thenSuspend (r : Async.Run A) :
  Async.uninterrupted (Async.thenSuspend r) = Async.uninterrupted r.
Proof.
  induction r as [o w | w resume IH]; cbn; [reflexivity | apply IH].
Qed.

Lemma refines_now (m : M A) : refines (Async.now m) m.
Proof. intros w. unfold Async.now. destruct (m w) as [o w']. reflexivity. Qed.

Lemma refines_ret (a : A) : refines (Async.ret a) (ret a).
Proof. intros w. reflexivity. Qed.

Lemma refines_throw (e : Error) : refines (Async.throw (A := A) e) (throw e).
Proof. intros w. reflexivity. Qed.

Lemma refines_bind (t : Async.T B) (m : M B) (kt : B -> Async.T A) (k : B -> M A) :
  refines t m -> (∀ b, refines (kt b) (k b)) ->
  refines (Async.bind t kt) (bind m k).
Proof.
  intros Hm Hk w. unfold Async.bind, bind.
  rewrite uninterrupted_andThen, Hm.
  destruct (m w) as [[b | e] w']; [apply Hk | reflexivity].
Qed.

Lemma refines_tryCatch (t : Async.T A) (m : M A) (ht : Error -> Async.T A)
    (h : Error -> M A) :
  refines t m -> (∀ e, refines (ht e) (h e)) ->
  refines (Async.tryCatch t ht) (tryCatch m h).
Proof.
  intros Hm Hh w. unfold Async.tryCatch, tryCatch.
  rewrite uninterrupted_orElse, Hm.
  destruct (m w) as [[a | e] w']; [reflexivity | apply Hh].
Qed.

Lemma refines_await (t : Async.T A) (m : M A) :
  refines t m -> refines (Async.await t) m.
Proof.
  intros Hm w. unfold Async.await. rewrite uninterrupted_thenSuspend. apply Hm.
Qed.

Lemma refines_service (o : outcome A) : refines (Async.service o) (await o).
Proof. intros w. reflexivity. Qed.

Lemma refines_query (m : M A) : refines (Async.query m) m.
Proof. intros w. cbn. apply refines_now. Qed.

End Refinement.

(** One step through the comparison of a suspendable body with the body
    without suspension points. *)
Ltac refine_step :=
  lazymatch goal with
  | |- refines (Async.tryCatch _ _) (tryCatch _ _) => apply refines_tryCatch
  | |- refines (Async.bind _ _) (bind _ _) => apply refines_bind
  | |- refines (Async.await _) _ => apply refines_await
  | |- refines (Async.service _) _ => apply refines_service
  | |- refines (Async.query _) _ => apply refines_query
  | |- refines (Async.now _) _ => apply refines_now
  | |- refines (Async.ret _) _ => apply refines_ret
  | |- refines (Async.throw _) _ => apply refines_throw
  | |- ∀ _, _ => intros
  | |- refines (match ?x with _ => _ end) _ => destruct x
  | |- refines (if ?x then _ else _) _ => destruct x
  end.

Lemma generateNextQuestion_refines env session previousResponse analysis :
  refines (Async.generateNextQuestion env session previousResponse analysis)
          (generateNextQuestion env session previousResponse analysis).
Proof.
  unfold Async.generateNextQuestion, generateNextQuestion. repeat refine_step.
Qed.

Lemma endInterview_refines env socket session :
  refines (Async.endInterview env socket session) (endInterview env socket session).
Proof.
  intros w.
  unfold Async.endInterview, endInterview, Async.tryCatch, Async.bind, Async.await,
    Async.query, Async.now, tryCatch, bind, deref, findByIdAndUpdate.
  destruct (sessions w !! session) as [s |] eqn:Hs; cbn; [| reflexivity].
  destruct (dbThrows env UpdateCompleted); cbn; [reflexivity |].
  rewrite Hs. reflexivity.
Qed.

Lemma generateAndSendFirstQuestion_refines env socket interview :
  refines (Async.generateAndSendFirstQuestion env socket interview)
          (generateAndSendFirstQuestion env socket interview).
Proof.
  unfold Async.generateAndSendFirstQuestion, generateAndSendFirstQuestion.
  repeat refine_step.
Qed.

Lemma join_interview_refines env socket data :
  refines (Async.join_interview env socket data) (join_interview env socket data).
Proof.
  unfold Async.join_interview, join_interview.
  repeat first [apply generateAndSendFirstQuestion_refines | refine_step].
Qed.

Lemma audio_response_refines env socket data :
  refines (Async.audio_response env socket data) (audio_response env socket data).
Proof.
  unfold Async.audio_response, audio_response. cbv zeta.
  repeat first
    [ apply generateNextQuestion_refines | apply endInterview_refines | refine_step ].
Qed.

Lemma end_interview_refines env socket :
  refines (Async.end_interview env socket) (end_interview env socket).
Proof.
  unfold Async.end_interview, end_interview.
  repeat first [apply endInterview_refines | refine_step].
Qed.

(** Every handler of the file is the suspendable handler run without
    interruption; a sequence of events handled one after the other is the
    schedule that resumes each handler until it has finished. *)
Lemma start_refines ev w :
  snd (Async.uninterrupted (Async.start ev w)) = handle ev w.
Proof.
  destruct ev as [env socket data | env socket data | env socket | socket | socket b];
    cbn [Async.start handle]; unfold exec.
  - rewrite join_interview_refines. reflexivity.
  - rewrite audio_response_refines. reflexivity.
  - rewrite end_interview_refines. reflexivity.
  - rewrite refines_now. reflexivity.
  - rewrite refines_now. reflexivity.
Qed.

(** A sequence of events handled one after the other is one of the
    schedules: the one that resumes each handler until it has finished
    before it delivers the next event. *)
Lemma resumed_to_the_end (r : Async.Run unit) :
  ∀ resume w, resume w = r ->
  ∃ n, Async.execute (replicate n (Async.Resume 0))
         {| Async.world := w; Async.suspended := [resume] |} =
       Async.idle (snd (Async.uninterrupted r)).
Proof.
  induction r as [o w1 | w1 resume1 IH]; intros resume w Hr.
  - exists 1%nat. cbn. rewrite Hr. reflexivity.
  - destruct (IH w1 resume1 w1 eq_refl) as [n Hn].
    exists (S n). cbn [replicate Async.execute fold_left]. cbn [Async.act].
    cbn [Async.suspended Async.world lookup list_lookup]. rewrite Hr.
    cbn [list_insert insert]. cbn. exact Hn.
Qed.

Lemma run_is_a_schedule evs w :
  ∃ schedule, Async.execute schedule (Async.idle w) = Async.idle (run evs w).
Proof.
  revert w. induction evs as [| ev evs IH]; intros w.
  - exists []. reflexivity.
  - destruct (IH (handle ev w)) as [rest Hrest].
    change (run (ev :: evs) w) with (run evs (handle ev w)).
    pose proof (start_refines ev w) as Href.
    destruct (Async.start ev w) as [o w1 | w1 resume] eqn:Hstart; cbn in Href.
    + exists (Async.Deliver ev :: rest).
      cbn [Async.execute fold_left Async.act Async.idle Async.world Async.suspended].
      rewrite Hstart, Href. exact Hrest.
    + destruct (resumed_to_the_end (resume w1) resume w1 eq_refl) as [n Hn].
      rewrite Href in Hn.
      exists (Async.Deliver ev :: replicate n (Async.Resume 0) ++ rest).
      cbn [Async.execute fold_left Async.act Async.idle Async.world Async.suspended].
      rewrite Hstart. cbn [app]. rewrite fold_left_app.
      fold (Async.execute (replicate n (Async.Resume 0))
              {| Async.world := w1; Async.suspended := [resume] |}).
      rewrite Hn. exact Hrest.
Qed.

(** ** What every stretch of a suspended handler keeps *)

Lemma steps_mono {A} (G : World -> World -> Prop) (r : Async.Run A)
    (post post' : outcome A -> World -> World -> Prop) w0 :
  (∀ o w1 w', post o w1 w' -> post' o w1 w') ->
  steps G w0 r post -> steps G w0 r post'.
Proof.
  intros Hpost. revert w0.
  induction r as [o w | w resume IH]; intros w0; cbn.
  - apply Hpost.
  - intros [Hg Hk]. split; [exact Hg |]. intros w'. apply IH, Hk.
Qed.

Section Steps.
Context {A B : Type} (G : World -> World -> Prop).

Lemma steps_andThen (r : Async.Run B) (k : B -> Async.T A)
    (post : outcome A -> World -> World -> Prop) w0 :
  steps G w0 r
    (fun o w1 w' =>
       match o with
       | Returns b => steps G w1 (k b w') post
       | Throws e => post (Throws e) w1 w'
       end) ->
  steps G w0 (Async.andThen r k) post.
Proof.
  revert w0. induction r as [[b | e] w | w resume IH]; intros w0; cbn; auto.
  intros [Hg Hk]. split; [exact Hg |]. intros w'. apply IH, Hk.
Qed.

Lemma steps_orElse (r : Async.Run A) (handler : Error -> Async.T A)
    (post : outcome A -> World -> World -> Prop) w0 :
  steps G w0 r
    (fun o w1 w' =>
       match o with
       | Returns a => post (Returns a) w1 w'
       | Throws e => steps G w1 (handler e w') post
       end) ->
  steps G w0 (Async.orElse r handler) post.
Proof.
  revert w0. induction r as [[a | e] w | w resume IH]; intros w0; cbn; auto.
  intros [Hg Hk]. split; [exact Hg |]. intros w'. apply IH, Hk.
Qed.

Lemma steps_thenSuspend (r : Async.Run A)
    (post : outcome A -> World -> World -> Prop) w0 :
  steps G w0 r (fun o w1 w' => G w1 w' ∧ ∀ w'', post o w'' w'') ->
  steps G w0 (Async.thenSuspend r) post.
Proof.
  revert w0. induction r as [o w | w resume IH]; intros w0; cbn.
  - intros [Hg Hpost]. split; [exact Hg | exact Hpost].
  - intros [Hg Hk]. split; [exact Hg |]. intros w'. apply IH, Hk.
Qed.

Lemma keepsT_now (m : M A) : keeps G m -> keepsT G (Async.now m).
Proof.
  intros Hm w0 w Hg. specialize (Hm w0 w Hg). unfold wp in Hm. unfold Async.now.
  destruct (m w) as [[a | e] w']; exact Hm.
Qed.

Lemma keepsT_ret (a : A) : keepsT G (Async.ret a).
Proof. intros w0 w Hg. exact Hg. Qed.

Lemma keepsT_throw (e : Error) : keepsT G (Async.throw (A := A) e).
Proof. intros w0 w Hg. exact Hg. Qed.

Lemma keepsT_service (o : outcome A) : keepsT G (Async.service o).
Proof. intros w0 w Hg. exact Hg. Qed.

Lemma keepsT_bind (t : Async.T B) (k : B -> Async.T A) :
  keepsT G t -> (∀ b, keepsT G (k b)) -> keepsT G (Async.bind t k).
Proof.
  intros Ht Hk w0 w Hg. apply steps_andThen.
  eapply steps_mono; [| apply Ht, Hg].
  intros [b | e] w1 w' H; [apply Hk, H | exact H].
Qed.

Lemma keepsT_tryCatch (t : Async.T A) (handler : Error -> Async.T A) :
  keepsT G t -> (∀ e, keepsT G (handler e)) -> keepsT G (Async.tryCatch t handler).
Proof.
  intros Ht Hh w0 w Hg. apply steps_orElse.
  eapply steps_mono; [| apply Ht, Hg].
  intros [a | e] w1 w' H; [exact H | apply Hh, H].
Qed.

(** The continuation is needed only for the values the code before it can
    return. *)
Lemma keepsT_bind_now (m : M B) (k : B -> Async.T A) :
  keeps G m ->
  (∀ b, (∃ w, fst (m w) = Returns b) -> keepsT G (k b)) ->
  keepsT G (Async.bind (Async.now m) k).
Proof.
  intros Hm Hk w0 w Hg. specialize (Hm w0 w Hg). unfold wp in Hm.
  unfold Async.bind, Async.now.
  destruct (m w) as [[b | e] w'] eqn:Hmw; cbn; [| exact Hm].
  apply Hk; [| exact Hm]. exists w. rewrite Hmw. reflexivity.
Qed.

Hypothesis G_refl : ∀ w, G w w.

Lemma keepsT_bind_service (o : outcome B) (k : B -> Async.T A) :
  (∀ b, o = Returns b -> keepsT G (k b)) ->
  keepsT G (Async.bind (Async.await (Async.service o)) k).
Proof.
  intros Hk w0 w Hg. cbn. split; [exact Hg |]. intros w'.
  destruct o as [b | e]; cbn; [| apply G_refl].
  apply (Hk b eq_refl), G_refl.
Qed.

Lemma keepsT_await (t : Async.T A) : keepsT G t -> keepsT G (Async.await t).
Proof.
  intros Ht w0 w Hg. apply steps_thenSuspend.
  eapply steps_mono; [| apply Ht, Hg].
  intros o w1 w' H. split; [exact H | intros w''; apply G_refl].
Qed.

Lemma keepsT_query (m : M A) : keeps G m -> keepsT G (Async.query m).
Proof.
  intros Hm w0 w Hg. split; [exact Hg |].
  intros w'. apply (keepsT_now m Hm), G_refl.
Qed.

End Steps.

(** The server: whatever the schedule, if every stretch of the handler of
    every event it delivers keeps a reflexive and transitive relation, the
    world stays related to the world it started from. *)
Section Schedules.
Variable G : World -> World -> Prop.
Variable allowed : InEvent -> Prop.
Hypothesis G_refl : ∀ w, G w w.
Hypothesis G_trans : ∀ w1 w2 w3, G w1 w2 -> G w2 w3 -> G w1 w3.
Hypothesis start_keeps : ∀ ev, allowed ev -> keepsT G (Async.start ev).

Lemma act_keeps a s :
  delivers allowed a ->
  Forall (safe G) (Async.suspended s) ->
  G (Async.world s) (Async.world (Async.act a s)) ∧
  Forall (safe G) (Async.suspended (Async.act a s)).
Proof.
  intros Ha Hs. destruct a as [ev | i]; cbn [Async.act].
  - pose proof (start_keeps ev Ha (Async.world s) (Async.world s) (G_refl _)) as H.
    destruct (Async.start ev (Async.world s)) as [o w | w resume]; cbn in *.
    + split; [exact H | exact Hs].
    + destruct H as [Hg Hk]. split; [exact Hg |].
      apply Forall_app. split; [exact Hs |]. constructor; [exact Hk | constructor].
  - destruct (Async.suspended s !! i) as [resume |] eqn:Hi;
      [| split; [apply G_refl | exact Hs]].
    pose proof (proj1 (Forall_lookup _ _) Hs i resume Hi (Async.world s)) as H.
    destruct (resume (Async.world s)) as [o w | w resume']; cbn in *.
    + split; [exact H |]. apply Forall_delete, Hs.
    + destruct H as [Hg Hk]. split; [exact Hg |].
      apply Forall_insert; [exact Hs | exact Hk].
Qed.

Lemma execute_keeps schedule s :
  Forall (delivers allowed) schedule ->
  Forall (safe G) (Async.suspended s) ->
  G (Async.world s) (Async.world (Async.execute schedule s)) ∧
  Forall (safe G) (Async.suspended (Async.execute schedule s)).
Proof.
  intros Hall. revert s.
  induction Hall as [| a schedule Ha Hall IH]; intros s Hs.
  - split; [apply G_refl | exact Hs].
  - destruct (act_keeps a s Ha Hs) as [Hg Hs'].
    destruct (IH (Async.act a s) Hs') as [Hg' Hs''].
    split; [exact (G_trans _ _ _ Hg Hg') | exact Hs''].
Qed.

End Schedules.

Lemma delivers_any schedule : Forall (delivers (fun _ => True)) schedule.
Proof. apply Forall_forall. intros [ev | i] _; exact I. Qed.

(** ** The persisted sequences under every schedule *)

Lemma extended_refl w : extended w w.
Proof. eapply grows_appendOnly, (grows_refl 0 0). Qed.

Lemma extended_trans w1 w2 w3 : extended w1 w2 -> extended w2 w3 -> extended w1 w3.
Proof. apply appendOnly_trans. Qed.

Lemma extended_alter f id w0 w :
  (∀ iv, responses iv `prefix_of` responses (f iv) ∧
         questions iv `prefix_of` questions (f iv)) ->
  extended w0 w -> extended w0 (with_interviews (alter f id) w).
Proof.
  intros Hf H i iv Hiv. destruct (H i iv Hiv) as (iv' & Hl & Hr & Hq). cbn.
  destruct (decide (id = i)) as [-> | Hne].
  - exists (f iv'). rewrite lookup_alter_eq, Hl. destruct (Hf iv') as [Hr' Hq'].
    split; [reflexivity |]. split; [exact (transitivity Hr Hr') | exact (transitivity Hq Hq')].
  - exists iv'. rewrite lookup_alter_ne by exact Hne. repeat split; assumption.
Qed.

Lemma pushResponse_extends r iv :
  responses iv `prefix_of` responses (pushResponse r iv) ∧
  questions iv `prefix_of` questions (pushResponse r iv).
Proof. split; cbn; [apply prefix_app_r |]; reflexivity. Qed.

Lemma pushQuestion_extends q iv :
  responses iv `prefix_of` responses (pushQuestion q iv) ∧
  questions iv `prefix_of` questions (pushQuestion q iv).
Proof. split; cbn; [| apply prefix_app_r]; reflexivity. Qed.

Lemma setCompleted_extends ended actual iv :
  responses iv `prefix_of` responses (setCompleted ended actual iv) ∧
  questions iv `prefix_of` questions (setCompleted ended actual iv).
Proof. split; reflexivity. Qed.

(** Code between two [await]s that touches the interviews at most by one
    of the three updates. *)
Ltac extended_now :=
  intros w0 w Hg; unfold typing, findOne;
  repeat first
    [ wp_step
    | apply wp_checkTranscription; intros
    | match goal with
      | |- wp (match ?x with _ => _ end) _ _ _ => destruct x
      | |- wp (if ?x then _ else _) _ _ _ => destruct x
      end ];
  cbv beta;
  first
    [ exact Hg
    | apply extended_alter;
      [ first [apply pushResponse_extends | apply pushQuestion_extends
              | apply setCompleted_extends]
      | exact Hg ] ].

(** One step through a suspendable body, for a relation whose reflexivity
    is [refl] and that [now_tac] shows to be kept by code without
    [await]. *)
Ltac keeps_step_with refl now_tac :=
  lazymatch goal with
  | |- keepsT _ (Async.tryCatch _ _) => apply keepsT_tryCatch
  | |- keepsT _ (Async.bind _ _) => apply keepsT_bind
  | |- keepsT _ (Async.await _) => apply keepsT_await; [apply refl |]
  | |- keepsT _ (Async.service _) => apply keepsT_service
  | |- keepsT _ (Async.query _) => apply keepsT_query; [apply refl | now_tac]
  | |- keepsT _ (Async.now _) => apply keepsT_now; now_tac
  | |- keepsT _ (Async.ret _) => apply keepsT_ret
  | |- keepsT _ (Async.throw _) => apply keepsT_throw
  | |- ∀ _, _ => intros
  | |- keepsT _ (match ?x with _ => _ end) => destruct x
  | |- keepsT _ (if ?x then _ else _) => destruct x
  end.

Ltac keeps_step := keeps_step_with extended_refl ltac:(extended_now).

Lemma generateNextQuestion_extends env session previousResponse analysis :
  keepsT extended (Async.generateNextQuestion env session previousResponse analysis).
Proof. unfold Async.generateNextQuestion. repeat keeps_step. Qed.

Lemma endInterview_extends env socket session :
  keepsT extended (Async.endInterview env socket session).
Proof. unfold Async.endInterview. repeat keeps_step. Qed.

Lemma generateAndSendFirstQuestion_extends env socket interview :
  keepsT extended (Async.generateAndSendFirstQuestion env socket interview).
Proof. unfold Async.generateAndSendFirstQuestion. repeat keeps_step. Qed.

Lemma start_extends ev : keepsT extended (Async.start ev).
Proof.
  destruct ev as [env socket data | env socket data | env socket | socket | socket b];
    cbn [Async.start].
  - unfold Async.join_interview.
    repeat first [apply generateAndSendFirstQuestion_extends | keeps_step].
  - unfold Async.audio_response. cbv zeta.
    repeat first [apply generateNextQuestion_extends | apply endInterview_extends
                 | keeps_step].
  - unfold Async.end_interview.
    repeat first [apply endInterview_extends | keeps_step].
  - keeps_step.
  - keeps_step.
Qed.

(** Whatever the schedule, the interviews are only extended. *)
Lemma execute_extends schedule s :
  Forall (safe extended) (Async.suspended s) ->
  extended (Async.world s) (Async.world (Async.execute schedule s)) ∧
  Forall (safe extended) (Async.suspended (Async.execute schedule s)).
Proof.
  apply (execute_keeps extended (fun _ => True));
    [ apply extended_refl | apply extended_trans | intros ev _; apply start_extends
    | apply delivers_any ].
Qed.


(** ** The two lengths, one handler at a time *)

Lemma wp_findOne_found env id user post exc w :
  (dbThrows env FindOne = false ->
   ∀ r, (∀ iv, r = Some iv -> interviews w !! id = Some iv) -> post r w) ->
  (dbThrows env FindOne = true -> ∀ e, exc e w) ->
  wp (findOne env id user) post exc w.
Proof.
  unfold findOne. destruct (dbThrows env FindOne); intros Hp He; cbn; auto.
  apply Hp; [reflexivity |]. intros iv.
  destruct (interviews w !! id) as [iv' |]; [| discriminate].
  destruct (_ && _); [| discriminate]. intros [= ->]. reflexivity.
Qed.

Lemma keyed_settled (m m' : gmap string Interview) :
  keyed m -> settled m m' -> keyed m'.
Proof.
  intros Hk Hs id iv' Hiv'. specialize (Hs id). rewrite Hiv' in Hs.
  destruct (m !! id) as [iv |] eqn:Hiv; [| contradiction].
  destruct Hs as [Hid _]. rewrite Hid. apply (Hk id iv Hiv).
Qed.

Lemma handle_keyed ev w : keyed (interviews w) -> keyed (interviews (handle ev w)).
Proof.
  intros Hk. apply (keyed_settled (interviews w)); [exact Hk |].
  apply handle_settled, settled_refl.
Qed.

Lemma openQuestions_weaken answered (m : gmap string Interview) :
  openQuestions answered m -> openQuestions None m.
Proof.
  intros H id iv Hiv. specialize (H id iv Hiv).
  rewrite bool_decide_eq_false_2 by discriminate.
  destruct (bool_decide _) in H; lia.
Qed.

Lemma openQuestions_pushResponse r id (m : gmap string Interview) :
  openQuestions None m -> openQuestions (Some id) (alter (pushResponse r) id m).
Proof.
  intros H i iv' Hiv'.
  destruct (decide (id = i)) as [-> | Hne].
  - rewrite lookup_alter_eq in Hiv'.
    destruct (m !! i) as [iv |] eqn:Hiv; [| discriminate]. injection Hiv' as <-.
    specialize (H i iv Hiv). rewrite bool_decide_eq_false_2 in H by discriminate.
    rewrite bool_decide_eq_true_2 by reflexivity.
    cbn. rewrite length_app. cbn. lia.
  - rewrite lookup_alter_ne in Hiv' by exact Hne.
    specialize (H i iv' Hiv'). rewrite bool_decide_eq_false_2 in H by discriminate.
    rewrite bool_decide_eq_false_2 by congruence. exact H.
Qed.

Lemma openQuestions_pushQuestion q id (m : gmap string Interview) :
  openQuestions (Some id) m -> openQuestions None (alter (pushQuestion q) id m).
Proof.
  intros H i iv' Hiv'. rewrite bool_decide_eq_false_2 by discriminate.
  destruct (decide (id = i)) as [-> | Hne].
  - rewrite lookup_alter_eq in Hiv'.
    destruct (m !! i) as [iv |] eqn:Hiv; [| discriminate]. injection Hiv' as <-.
    specialize (H i iv Hiv). rewrite bool_decide_eq_true_2 in H by reflexivity.
    cbn. rewrite length_app. cbn. lia.
  - rewrite lookup_alter_ne in Hiv' by exact Hne.
    specialize (H i iv' Hiv'). destruct (bool_decide _) in H; lia.
Qed.

Lemma openQuestions_setCompleted answered ended actual id (m : gmap string Interview) :
  openQuestions answered m ->
  openQuestions answered (alter (setCompleted ended actual) id m).
Proof.
  intros H i iv' Hiv'.
  destruct (decide (id = i)) as [-> | Hne].
  - rewrite lookup_alter_eq in Hiv'.
    destruct (m !! i) as [iv |] eqn:Hiv; [| discriminate]. injection Hiv' as <-.
    exact (H i iv Hiv).
  - rewrite lookup_alter_ne in Hiv' by exact Hne. exact (H i iv' Hiv').
Qed.

(** The first question of an interview that has none. *)
Lemma openQuestions_first q id (m : gmap string Interview) :
  (∀ iv, m !! id = Some iv -> questions iv = []) ->
  openQuestions None m -> openQuestions None (alter (pushQuestion q) id m).
Proof.
  intros Hnone H i iv' Hiv'. rewrite bool_decide_eq_false_2 by discriminate.
  destruct (decide (id = i)) as [-> | Hne].
  - rewrite lookup_alter_eq in Hiv'.
    destruct (m !! i) as [iv |] eqn:Hiv; [| discriminate]. injection Hiv' as <-.
    cbn. rewrite (Hnone iv eq_refl). cbn. lia.
  - rewrite lookup_alter_ne in Hiv' by exact Hne.
    specialize (H i iv' Hiv'). rewrite bool_decide_eq_false_2 in H by discriminate.
    exact H.
Qed.

Ltac open_tac :=
  intros; cbv beta in *;
  repeat first
    [ assumption
    | match goal with
      | |- openQuestions ?a (interviews (with_emitted _ ?w)) =>
        change (openQuestions a (interviews w))
      | |- openQuestions ?a (interviews (with_sessions _ ?w)) =>
        change (openQuestions a (interviews w))
      | |- openQuestions ?a (interviews (with_activeInterviews _ ?w)) =>
        change (openQuestions a (interviews w))
      | |- openQuestions ?a (interviews (with_rooms _ ?w)) =>
        change (openQuestions a (interviews w))
      | |- openQuestions ?a (interviews (with_interviews (alter ?f ?id) ?w)) =>
        change (openQuestions a (alter f id (interviews w)))
      | |- openQuestions _ (alter (setCompleted _ _) _ _) =>
        apply openQuestions_setCompleted
      | |- openQuestions (Some ?id) (alter (pushResponse _) ?id _) =>
        apply openQuestions_pushResponse
      | |- openQuestions None (alter (pushQuestion _) ?id _) =>
        apply openQuestions_pushQuestion
      | H : openQuestions (Some _) ?m |- openQuestions None ?m =>
        exact (openQuestions_weaken _ _ H)
      end ].

Lemma endInterview_openQuestions env socket ref answered w :
  openQuestions answered (interviews w) ->
  wp (endInterview env socket ref)
     (fun _ w' => openQuestions answered (interviews w'))
     (fun _ w' => openQuestions answered (interviews w')) w.
Proof. intros H. unfold endInterview. repeat wp_step; open_tac. Qed.

Lemma generateAndSendFirstQuestion_openQuestions env socket iv w :
  (∀ iv', interviews w !! _id iv = Some iv' -> questions iv' = []) ->
  openQuestions None (interviews w) ->
  wp (generateAndSendFirstQuestion env socket iv)
     (fun _ w' => openQuestions None (interviews w'))
     (fun _ w' => openQuestions None (interviews w')) w.
Proof.
  intros Hnone H. unfold generateAndSendFirstQuestion.
  repeat wp_step; try solve [open_tac];
    cbn; apply openQuestions_first; assumption.
Qed.

Lemma audio_response_openQuestions env socket data w :
  openQuestions None (interviews w) ->
  openQuestions None (interviews (exec (audio_response env socket data) w)).
Proof.
  intros Hw. apply wp_exec. unfold audio_response. wp_step.
  apply (wp_mono _ (fun _ w' => openQuestions None (interviews w')) _
                   (fun _ w' => openQuestions None (interviews w'))).
  { auto. }
  { intros e w' H. repeat wp_step. cbn.
    destruct (activeInterviews w' !! socket_id socket); repeat wp_step; open_tac. }
  repeat wp_step.
  destruct (activeInterviews w !! socket_id socket) as [ref |];
    repeat wp_step; try solve [open_tac].
  destruct (isProcessing s); repeat wp_step; try solve [open_tac].
  apply wp_checkTranscription; [| solve [open_tac]].
  intros [text |]; repeat wp_step; try solve [open_tac].
  eapply wp_mono; [| | apply generateNextQuestion_world with
    (P := fun w' => openQuestions (Some (interviewId s)) (interviews w'))];
    try solve [open_tac].
  intros [question |] w' H'; cbv beta in *; repeat wp_step; try solve [open_tac].
  eapply wp_mono; [| | apply endInterview_openQuestions, H'];
    solve [open_tac | intros; cbv beta in *; repeat wp_step; open_tac].
Qed.

Lemma handle_openQuestions ev w :
  keyed (interviews w) ->
  openQuestions None (interviews w) -> openQuestions None (interviews (handle ev w)).
Proof.
  intros Hk Hw.
  destruct ev as [env socket data | env socket data | env socket | socket | socket b];
    cbn [handle].
  - apply (wp_exec _ (fun w' => openQuestions None (interviews w'))).
    unfold join_interview. repeat wp_step; try solve [open_tac].
    apply wp_findOne_found; intros; repeat wp_step; try solve [open_tac].
    destruct r as [iv |]; repeat wp_step; try solve [open_tac].
    destruct (length (questions iv) =? 0)%nat eqn:Hlen; repeat wp_step;
      try solve [open_tac].
    apply generateAndSendFirstQuestion_openQuestions; [| open_tac].
    cbn. intros iv' Hiv'.
    match goal with
    | Hf : ∀ iv0, Some iv = Some iv0 -> _ |- _ => pose proof (Hf iv eq_refl) as Hiv
    end.
    rewrite (Hk _ _ Hiv) in Hiv'. rewrite Hiv in Hiv'. injection Hiv' as <-.
    apply Nat.eqb_eq in Hlen. destruct (questions iv); [reflexivity | discriminate].
  - apply audio_response_openQuestions, Hw.
  - apply (wp_exec _ (fun w' => openQuestions None (interviews w'))).
    unfold end_interview. repeat wp_step.
    destruct (activeInterviews w !! socket_id socket) as [ref |]; repeat wp_step;
      try solve [open_tac].
    apply endInterview_openQuestions, Hw.
  - exact Hw.
  - apply (wp_exec _ (fun w' => openQuestions None (interviews w'))).
    unfold typing. repeat wp_step.
    destruct (activeInterviews w !! socket_id socket) as [ref |]; repeat wp_step;
      try solve [open_tac].
Qed.

Lemma run_keyed evs w : keyed (interviews w) -> keyed (interviews (run evs w)).
Proof.
  revert w. induction evs as [| ev evs IH]; intros w Hk; [exact Hk |].
  change (run (ev :: evs) w) with (run evs (handle ev w)).
  apply IH, handle_keyed, Hk.
Qed.

Lemma run_openQuestions evs w :
  keyed (interviews w) ->
  openQuestions None (interviews w) -> openQuestions None (interviews (run evs w)).
Proof.
  revert w. induction evs as [| ev evs IH]; intros w Hk Hw; [exact Hw |].
  change (run (ev :: evs) w) with (run evs (handle ev w)).
  apply IH; [apply handle_keyed, Hk | apply handle_openQuestions; assumption].
Qed.

Lemma run_sameResponses evs w0 w :
  Forall usesRepositoryTranscriber evs ->
  sameResponses w0 w -> sameResponses w0 (run evs w).
Proof.
  intros Hall. revert w.
  induction Hall as [| ev evs Hev Hall IH]; intros w Hw; [exact Hw |].
  change (run (ev :: evs) w) with (run evs (handle ev w)).
  apply IH, handle_sameResponses; assumption.
Qed.

Lemma allBalanced_openQuestions (m : gmap string Interview) :
  allBalanced m -> openQuestions None m.
Proof.
  intros H id iv Hiv. specialize (H id iv Hiv). unfold balanced in H.
  rewrite bool_decide_eq_false_2 by discriminate. cbv iota. lia.
Qed.

(** With the transcriber of the repository, and one handler at a time, the
    two lengths stay within one of each other. *)
Lemma run_allBalanced evs w :
  Forall usesRepositoryTranscriber evs ->
  keyed (interviews w) ->
  allBalanced (interviews w) -> allBalanced (interviews (run evs w)).
Proof.
  intros Hall Hk Hb id iv' Hiv'.
  pose proof (run_openQuestions evs w Hk (allBalanced_openQuestions _ Hb) id iv' Hiv')
    as Hopen.
  rewrite bool_decide_eq_false_2 in Hopen by discriminate. cbv iota in Hopen.
  pose proof (run_sameResponses evs w w Hall (sameResponses_refl w) id) as Hsame.
  rewrite Hiv' in Hsame. cbn in Hsame.
  destruct (interviews w !! id) as [iv |] eqn:Hiv; [| discriminate].
  injection Hsame as Hsame.
  destruct (appendOnly_lengths _ _ id iv (run_appendOnly evs w) Hiv)
    as (iv'' & Hiv'' & _ & Hq).
  rewrite Hiv' in Hiv''. injection Hiv'' as <-.
  specialize (Hb id iv Hiv). unfold balanced in *. rewrite Hsame in *. lia.
Qed.

(** ** The responses under every schedule, with the transcriber of the
       repository *)

Lemma sameResponses_trans w1 w2 w3 :
  sameResponses w1 w2 -> sameResponses w2 w3 -> sameResponses w1 w3.
Proof. intros H12 H23 id. rewrite (H23 id). apply H12. Qed.

(** Code between two [await]s that stores no response. *)
Ltac same_now :=
  intros w0 w Hg; unfold typing, findOne;
  repeat first
    [ wp_step
    | apply wp_checkTranscription; intros
    | match goal with
      | |- wp (match ?x with _ => _ end) _ _ _ => destruct x
      | |- wp (if ?x then _ else _) _ _ _ => destruct x
      end ];
  same_tac.

Ltac same_step := keeps_step_with sameResponses_refl ltac:(same_now).

Lemma endInterview_never_stores env socket session :
  keepsT sameResponses (Async.endInterview env socket session).
Proof. unfold Async.endInterview. repeat same_step. Qed.

Lemma generateAndSendFirstQuestion_never_stores env socket interview :
  keepsT sameResponses (Async.generateAndSendFirstQuestion env socket interview).
Proof. unfold Async.generateAndSendFirstQuestion. repeat same_step. Qed.

Lemma checkTranscription_text t text :
  (∃ w, fst (checkTranscription t w) = Returns (Some text)) -> t = TString text.
Proof.
  intros [w H]. destruct t as [| text' | o]; cbn in H; try discriminate.
  destruct (length (trim text') =? 0)%nat; cbn in H; [discriminate |].
  injection H as <-. reflexivity.
Qed.

(** The transcriber of the repository returns [null] or an object: the
    handler never gets past its check, whatever runs meanwhile. *)
Lemma audio_response_never_stores env recognize socket data :
  transcribeAudio env = speechToText recognize ->
  keepsT sameResponses (Async.audio_response env socket data).
Proof.
  intros Ht. unfold Async.audio_response. cbv zeta.
  apply keepsT_tryCatch; [| repeat same_step].
  apply keepsT_bind; [same_step |]. intros [session |]; [| same_step].
  apply keepsT_bind; [same_step |]. intros s.
  destruct (isProcessing s); [same_step |].
  apply keepsT_bind; [same_step |]. intros _.
  apply keepsT_bind; [same_step |]. intros d.
  apply keepsT_bind; [same_step |]. intros _.
  apply keepsT_bind_service; [apply sameResponses_refl |]. intros t Htr.
  apply keepsT_bind_now; [same_now |]. intros [text |] Hchecked; [| repeat same_step].
  exfalso. apply checkTranscription_text in Hchecked. subst t.
  rewrite Ht in Htr. exact (speechToText_not_a_string _ _ _ Htr).
Qed.

Lemma start_never_stores ev :
  usesRepositoryTranscriber ev -> keepsT sameResponses (Async.start ev).
Proof.
  intros Hev.
  destruct ev as [env socket data | env socket data | env socket | socket | socket b];
    cbn [Async.start].
  - unfold Async.join_interview.
    repeat first [apply generateAndSendFirstQuestion_never_stores | same_step].
  - destruct Hev as [recognize Ht]. exact (audio_response_never_stores _ _ _ _ Ht).
  - unfold Async.end_interview.
    repeat first [apply endInterview_never_stores | same_step].
  - same_step.
  - same_step.
Qed.

(** Whatever the schedule, no response is stored. *)
Lemma execute_never_stores schedule s :
  Forall (delivers usesRepositoryTranscriber) schedule ->
  Forall (safe sameResponses) (Async.suspended s) ->
  sameResponses (Async.world s) (Async.world (Async.execute schedule s)) ∧
  Forall (safe sameResponses) (Async.suspended (Async.execute schedule s)).
Proof.
  apply (execute_keeps sameResponses usesRepositoryTranscriber);
    [ apply sameResponses_refl | apply sameResponses_trans | apply start_never_stores ].
Qed.


(** ** A submission suspended at the transcriber *)

(** A submission accepted on the session object [ref] sets the latch of
    that object, sends the status event and is suspended at the call of
    the transcriber.  When it is resumed, in whatever world [w'] the
    other handlers have left: after an empty transcription it sends its
    error and clears the latch of [ref]; after a failed one the [catch]
    sends its error and clears the latch of the session the socket has in
    [w']. *)
Lemma audio_response_at_the_transcriber env socket d w ref s :
  activeInterviews w !! socket_id socket = Some ref ->
  sessions w !! ref = Some s ->
  isProcessing s = false ->
  ∃ resume,
    Async.audio_response env socket (Some d) w =
      Async.Suspended (transcribingIn socket ref w) resume ∧
    (emptyTranscription (transcribeAudio env (audioData d)) ->
     ∀ w', resume w' =
       Async.Finished (Returns tt)
         (with_sessions (alter (set_isProcessing false) ref)
            (emitting [(socket_id socket,
                        error "Could not transcribe audio. Please try again.")] w'))) ∧
    (failedTranscription (transcribeAudio env (audioData d)) ->
     ∀ w', resume w' = Async.Finished (Returns tt) (caught socket w')).
Proof.
  intros Ha Hs Hp.
  unfold Async.audio_response, Async.tryCatch, Async.bind, Async.now,
    activeInterviews_get, gets, deref. cbv zeta.
  rewrite Ha. cbn [Async.andThen]. rewrite Hs. cbn [Async.andThen]. rewrite Hp.
  cbn. eexists. split; [reflexivity |].
  unfold caught, emitting.
  split; intros Ht w'; cbv beta;
    destruct (transcribeAudio env (audioData d)) as [[| text | o] | e];
    try contradiction; cbn in Ht |- *; try rewrite Ht; cbn;
    try (destruct (activeInterviews w' !! socket_id socket)); reflexivity.
Qed.

(** C1, as the code has it: the latch is not cleared on every exit path.
    A submission is accepted on a session whose latch is clear, and the
    transcription fails (the transcriber throws, or returns an object as
    the speech-to-text service of the repository does).  When the
    connection is closed while the transcriber works, the [catch] of the
    handler sends its error, looks the session up again under the socket
    id, finds none, and leaves the session object the run has latched with
    [isProcessing] true; no handler is suspended any more.  With the same
    two events handled one after the other the latch is clear at the
    end. *)
Theorem C1_latch_survives_the_catch env socket d w ref s :
  activeInterviews w !! socket_id socket = Some ref ->
  sessions w !! ref = Some s ->
  isProcessing s = false ->
  failedTranscription (transcribeAudio env (audioData d)) ->
  Async.suspended (Async.execute (hangUpDuring env socket d) (Async.idle w)) = [] ∧
  emitted (Async.world (Async.execute (hangUpDuring env socket d) (Async.idle w))) =
    emitted w ++ [(socket_id socket, processing_response transcribing None);
                  (socket_id socket, error "Failed to process response")] ∧
  sessions (Async.world (Async.execute (hangUpDuring env socket d) (Async.idle w)))
    !! ref = Some (set_isProcessing true s) ∧
  sessions (run [AudioResponse env socket (Some d); Disconnect socket] w)
    !! ref = Some s.
Proof.
  intros Ha Hs Hp Ht.
  destruct (audio_response_at_the_transcriber env socket d w ref s Ha Hs Hp)
    as (resume & Hsusp & _ & Hfailed).
  specialize (Hfailed Ht).
  unfold hangUpDuring, Async.execute. cbn [fold_left Async.act Async.start Async.idle
    Async.world Async.suspended].
  rewrite Hsusp.
  cbn [Async.world Async.suspended app Async.now SocketService.bind leaveAll disconnect
       activeInterviews_delete modify lookup list_lookup].
  rewrite Hfailed. cbn [Async.world Async.suspended].
  unfold caught, transcribingIn, emitting. cbn.
  rewrite lookup_delete_eq. cbn.
  split; [reflexivity |]. split; [rewrite <- app_assoc; reflexivity |].
  split; [rewrite lookup_alter_eq, Hs; reflexivity |].
  destruct (audio_response_unusable env socket d w ref s Ha Hs Hp) as [message Hw].
  { destruct (transcribeAudio env (audioData d)) as [[| text | o] | e];
      solve [exact I | contradiction]. }
  unfold run. cbn [fold_left handle]. rewrite Hw. cbn. exact Hs.
Qed.

(** C1 at the first connection, joined and sent the first question, with
    the speech-to-text service of the repository behind a speech client
    that recognises a sentence. *)
Lemma C1_witness :
  Async.suspended (Async.execute Scenario.hangUp (Async.idle Scenario.joined)) = [] ∧
  emitted (Async.world (Async.execute Scenario.hangUp (Async.idle Scenario.joined))) =
    emitted Scenario.joined ++
      [("socket-1"%string, processing_response transcribing None);
       ("socket-1"%string, error "Failed to process response")] ∧
  sessions (Async.world (Async.execute Scenario.hangUp (Async.idle Scenario.joined)))
    !! 0%nat = Some (set_isProcessing true Scenario.session0) ∧
  sessions (run Scenario.hangUpLate Scenario.joined) !! 0%nat = Some Scenario.session0.
Proof.
  apply (C1_latch_survives_the_catch Scenario.linked Scenario.alice Scenario.answer
           Scenario.joined 0%nat Scenario.session0);
    vm_compute; solve [reflexivity | exact I].
Defined.

(** C4, as the code has it.  A submission accepted on the session object
    [ref] is suspended at the call of the transcriber, the latch of [ref]
    set and the status event sent.  It goes on in the world [w'] the
    handlers that ran meanwhile have left.  When the transcription is empty
    ([null] or blanks) it sends the error 'Could not transcribe audio.
    Please try again.', stores nothing, and clears the latch of [ref], its
    own session object.  When the transcription fails (the transcriber
    throws, or returns an object) the [catch] sends the error 'Failed to
    process response', stores nothing, and clears the latch of the session
    object the socket has in [w']: that is [ref] only if the socket has
    neither joined again nor lost its session meanwhile; otherwise [ref]
    keeps [isProcessing] true. *)
Theorem C4_empty_or_failed_transcription env socket d w ref s :
  activeInterviews w !! socket_id socket = Some ref ->
  sessions w !! ref = Some s ->
  isProcessing s = false ->
  ∃ resume,
    Async.audio_response env socket (Some d) w =
      Async.Suspended (transcribingIn socket ref w) resume ∧
    (emptyTranscription (transcribeAudio env (audioData d)) ->
     ∀ w', ∃ final,
       resume w' = Async.Finished (Returns tt) final ∧
       emitted final = emitted w' ++
         [(socket_id socket, error "Could not transcribe audio. Please try again.")] ∧
       interviews final = interviews w' ∧
       activeInterviews final = activeInterviews w' ∧
       rooms final = rooms w' ∧
       sessions final = alter (set_isProcessing false) ref (sessions w')) ∧
    (failedTranscription (transcribeAudio env (audioData d)) ->
     ∀ w', ∃ final,
       resume w' = Async.Finished (Returns tt) final ∧
       emitted final = emitted w' ++
         [(socket_id socket, error "Failed to process response")] ∧
       interviews final = interviews w' ∧
       activeInterviews final = activeInterviews w' ∧
       rooms final = rooms w' ∧
       sessions final =
         match activeInterviews w' !! socket_id socket with
         | Some current => alter (set_isProcessing false) current (sessions w')
         | None => sessions w'
         end).
Proof.
  intros Ha Hs Hp.
  destruct (audio_response_at_the_transcriber env socket d w ref s Ha Hs Hp)
    as (resume & Hsusp & Hempty & Hfailed).
  exists resume. split; [exact Hsusp |].
  split; intros Ht w'; eexists.
  - split; [apply (Hempty Ht) |]. repeat split.
  - split; [apply (Hfailed Ht) |]. unfold caught.
    destruct (activeInterviews w' !! socket_id socket); repeat split.
Qed.

(** C4 at the first connection, joined and sent the first question, with
    the speech-to-text service of the repository behind a speech client
    that recognises a sentence; and what the theorem says there of a
    socket that joins again while the transcriber works: the latch of the
    new session object is cleared, the object the run has latched keeps
    [isProcessing] true. *)
Lemma C4_witness :
  (∃ resume,
    Async.audio_response Scenario.linked Scenario.alice (Some Scenario.answer)
        Scenario.joined =
      Async.Suspended (transcribingIn Scenario.alice 0 Scenario.joined) resume ∧
    (emptyTranscription
       (transcribeAudio Scenario.linked (audioData Scenario.answer)) ->
     ∀ w', ∃ final,
       resume w' = Async.Finished (Returns tt) final ∧
       emitted final = emitted w' ++
         [(socket_id Scenario.alice,
           error "Could not transcribe audio. Please try again.")] ∧
       interviews final = interviews w' ∧
       activeInterviews final = activeInterviews w' ∧
       rooms final = rooms w' ∧
       sessions final = alter (set_isProcessing false) 0%nat (sessions w')) ∧
    (failedTranscription
       (transcribeAudio Scenario.linked (audioData Scenario.answer)) ->
     ∀ w', ∃ final,
       resume w' = Async.Finished (Returns tt) final ∧
       emitted final = emitted w' ++
         [(socket_id Scenario.alice, error "Failed to process response")] ∧
       interviews final = interviews w' ∧
       activeInterviews final = activeInterviews w' ∧
       rooms final = rooms w' ∧
       sessions final =
         match activeInterviews w' !! socket_id Scenario.alice with
         | Some current => alter (set_isProcessing false) current (sessions w')
         | None => sessions w'
         end)) ∧
  failedTranscription (transcribeAudio Scenario.linked (audioData Scenario.answer)) ∧
  Async.suspended (Async.execute Scenario.rejoin (Async.idle Scenario.joined)) = [] ∧
  activeInterviews (Async.world (Async.execute Scenario.rejoin (Async.idle Scenario.joined)))
    !! "socket-1"%string = Some 1%nat ∧
  (isProcessing <$>
     sessions (Async.world (Async.execute Scenario.rejoin (Async.idle Scenario.joined))))
  = {[ 0%nat := true; 1%nat := false ]}.
Proof.
  split.
  - apply (C4_empty_or_failed_transcription Scenario.linked Scenario.alice
             Scenario.answer Scenario.joined 0%nat Scenario.session0);
      vm_compute; reflexivity.
  - split; [vm_compute; exact I |]. vm_compute. repeat split.
Defined.

Lemma responsesWithinOne_kept w w' :
  sameResponses w w' -> extended w w' ->
  responsesWithinOne (interviews w) -> responsesWithinOne (interviews w').
Proof.
  intros Hsame Hext Hw id iv' Hiv'.
  specialize (Hsame id). rewrite Hiv' in Hsame. cbn in Hsame.
  destruct (interviews w !! id) as [iv |] eqn:Hiv; [| discriminate].
  injection Hsame as Hsame.
  destruct (appendOnly_lengths _ _ id iv Hext Hiv) as (iv'' & Hiv'' & _ & Hq).
  rewrite Hiv' in Hiv''. injection Hiv'' as <-.
  specialize (Hw id iv Hiv). rewrite Hsame. lia.
Qed.

(** C3, as the code has it.  Whatever the schedule of the handlers (joins
    with first-question generation, submissions that succeed, fail or are
    retried, ends, disconnects, each suspended at its [await]s), from one
    observation to a later one every interview stays in the database with
    its questions and responses only extended at the end, so the lengths
    never decrease.  Whatever the schedule, with the speech-to-text service
    of the repository as transcriber no response is stored, so that no
    interview gets more than one response beyond its questions.  That no
    interview has more than one question without response holds only when
    each handler has finished before the next event is handled. *)
Theorem C3_sequences_append_only :
  (∀ earlier later w,
     appendOnly
       (interviews (Async.world (Async.execute earlier (Async.idle w))))
       (interviews (Async.world
          (Async.execute later (Async.execute earlier (Async.idle w))))) ∧
     ∀ id iv,
       interviews (Async.world (Async.execute earlier (Async.idle w))) !! id = Some iv ->
       ∃ iv',
         interviews (Async.world
           (Async.execute later (Async.execute earlier (Async.idle w)))) !! id
           = Some iv' ∧
         (length (responses iv) ≤ length (responses iv'))%nat ∧
         (length (questions iv) ≤ length (questions iv'))%nat) ∧
  (∀ schedule w,
     Forall (delivers usesRepositoryTranscriber) schedule ->
     responsesWithinOne (interviews w) ->
     responsesWithinOne
       (interviews (Async.world (Async.execute schedule (Async.idle w))))) ∧
  (∀ evs w,
     keyed (interviews w) ->
     openQuestions None (interviews w) ->
     openQuestions None (interviews (run evs w))).
Proof.
  split; [| split; [| apply run_openQuestions]].
  - intros earlier later w.
    assert (Hext : extended (Async.world (Async.execute earlier (Async.idle w)))
              (Async.world
                 (Async.execute later (Async.execute earlier (Async.idle w))))).
    { apply execute_extends, execute_extends. constructor. }
    split; [exact Hext |].
    intros id iv Hiv. exact (appendOnly_lengths _ _ id iv Hext Hiv).
  - intros schedule w Hall.
    apply (responsesWithinOne_kept w).
    + apply (execute_never_stores schedule (Async.idle w) Hall). constructor.
    + apply (execute_extends schedule (Async.idle w)). constructor.
Qed.

(** C3 at two overlapping joins, observed when the first question of the
    first is stored and again at the end; and at a join and two answers
    that are stored, handled one after the other. *)
Lemma C3_witness :
  appendOnly
    (interviews (Async.world
       (Async.execute (take 11 Scenario.joinTwice)
          (Async.idle (Scenario.world_of Scenario.fresh_interview)))))
    (interviews (Async.world
       (Async.execute (drop 11 Scenario.joinTwice)
          (Async.execute (take 11 Scenario.joinTwice)
             (Async.idle (Scenario.world_of Scenario.fresh_interview)))))) ∧
  (length ∘ questions <$>
     interviews (Async.world
       (Async.execute (take 11 Scenario.joinTwice)
          (Async.idle (Scenario.world_of Scenario.fresh_interview))))
     !! "interview-1"%string) = Some 1%nat ∧
  responsesWithinOne
    (interviews (Async.world
       (Async.execute Scenario.joinTwice
          (Async.idle (Scenario.world_of Scenario.fresh_interview))))) ∧
  openQuestions None
    (interviews (run (Scenario.answered 2)
                   (Scenario.world_of Scenario.fresh_interview))) ∧
  ((fun iv => (length (questions iv), length (responses iv))) <$>
     interviews (run (Scenario.answered 2)
                   (Scenario.world_of Scenario.fresh_interview))
     !! "interview-1"%string) = Some (3%nat, 2%nat).
Proof.
  destruct C3_sequences_append_only as (Hschedule & Hresponses & Hquestions).
  split; [apply Hschedule |].
  split; [vm_compute; reflexivity |].
  split; [| split; [| vm_compute; reflexivity]].
  - apply Hresponses.
    + unfold Scenario.joinTwice. cbn [replicate app]. repeat constructor.
    + intros id iv Hiv. cbn in Hiv. apply lookup_singleton_Some in Hiv as [_ <-].
      cbn. lia.
  - apply Hquestions.
    + intros id iv Hiv. cbn in Hiv. apply lookup_singleton_Some in Hiv as [<- <-].
      reflexivity.
    + intros id iv Hiv. cbn in Hiv. apply lookup_singleton_Some in Hiv as [_ <-].
      rewrite bool_decide_eq_false_2 by discriminate. cbn. lia.
Defined.

(** The claim of C3 fails where it bounds the difference of the lengths at
    every observation point.  The interview has no question and no
    response.  Two connections of its owner join it, the second while the
    first question of the first is being generated: each finds no question
    and stores a first question.  When both handlers have finished the
    interview has two questions and no response. *)
Lemma C3_counterexample :
  balanced Scenario.fresh_interview ∧
  Async.suspended
    (Async.execute Scenario.joinTwice
       (Async.idle (Scenario.world_of Scenario.fresh_interview))) = [] ∧
  ∃ iv,
    interviews (Async.world
      (Async.execute Scenario.joinTwice
         (Async.idle (Scenario.world_of Scenario.fresh_interview))))
      !! "interview-1"%string = Some iv ∧
    length (questions iv) = 2%nat ∧
    length (responses iv) = 0%nat ∧
    ¬ balanced iv.
Proof.
  split; [unfold balanced; cbn; lia |].
  split; [vm_compute; reflexivity |].
  eexists. split; [vm_compute; reflexivity |].
  split; [reflexivity |]. split; [reflexivity |].
  unfold balanced. cbn. lia.
Qed.
